(** * d2r_itemdb: the item store, the version gate and the reconciler

    A shallow embedding of [src/app.ts] (class [D2Database], class [App]) and
    of the version-gated [App.checkAndLoadData] of [src/app.js], followed by
    the properties of the store's reconciliation protocol.

    The platform the program runs on is modelled as far as the program uses
    it: JavaScript strings and numbers, one IndexedDB object store with
    [keyPath: 'id'] and [autoIncrement: true], one [localStorage] slot and the
    few DOM elements the reconciler touches. *)

From Stdlib Require Import String Ascii ZArith NArith Bool Lia List.
From Stdlib Require Import Sorted Permutation.
Import ListNotations.

(* ================================================================= *)
(** ** JavaScript strings *)

(** A JavaScript string is a sequence of UTF-16 code units. *)
Definition jsstring := list N.

(** A literal of the source, written with ASCII characters. *)
Definition lit (s : string) : jsstring :=
  map N_of_ascii (list_ascii_of_string s).

(** [a === b] on strings. *)
Fixpoint str_eqb (a b : jsstring) : bool :=
  match a, b with
  | [], [] => true
  | x :: a', y :: b' => N.eqb x y && str_eqb a' b'
  | _, _ => false
  end.

(** Truthiness of a string: [if (keyword)], [s || '0']. *)
Definition truthy_string (s : jsstring) : bool :=
  match s with
  | [] => false
  | _ :: _ => true
  end.

(** White space and line terminators of ECMAScript, the code units that
    [String.prototype.trim] and [parseInt] strip. *)
Definition isWhiteSpace (c : N) : bool :=
  ((9 <=? c) && (c <=? 13) || (c =? 32) || (c =? 160) || (c =? 5760)
   || (8192 <=? c) && (c <=? 8202)
   || (c =? 8232) || (c =? 8233) || (c =? 8239) || (c =? 8287)
   || (c =? 12288) || (c =? 65279))%N.

Fixpoint trimStart (s : jsstring) : jsstring :=
  match s with
  | [] => []
  | c :: r => if isWhiteSpace c then trimStart r else s
  end.

Definition trimEnd (s : jsstring) : jsstring := rev (trimStart (rev s)).

(** [s.trim()] *)
Definition trim (s : jsstring) : jsstring := trimEnd (trimStart s).

(** [s.startsWith(p)] *)
Fixpoint startsWith (s p : jsstring) : bool :=
  match p, s with
  | [], _ => true
  | _ :: _, [] => false
  | x :: p', y :: s' => N.eqb x y && startsWith s' p'
  end.

(** [s.includes(sub)]: [sub] occurs in [s] as a contiguous run. *)
Fixpoint includes (s sub : jsstring) : bool :=
  startsWith s sub ||
  match s with
  | [] => false
  | _ :: r => includes r sub
  end.

(** ASCII lowering, the part of [String.prototype.toLowerCase] that does not
    need the Unicode case tables; used to run examples. *)
Definition asciiToLowerCase (s : jsstring) : jsstring :=
  map (fun c => if ((65 <=? c) && (c <=? 90))%N then (c + 32)%N else c) s.

(* ================================================================= *)
(** ** JavaScript numbers *)

(** The numbers the program computes with are version numbers: [Num z] is
    the Number whose value is the integer [z], [NaN] is what [parseInt] gives
    when it finds no digit, [Inf] the two infinities.  A Number is a float64:
    of the integers it has those of at most 53 significant bits, which
    [toNumber] rounds to. *)
Inductive JSNumber : Type :=
| NaN
| Num (z : Z)
| Inf (negative : bool).

(** [a > b]: false as soon as one side is [NaN]. *)
Definition js_gt (a b : JSNumber) : bool :=
  match a, b with
  | Num x, Num y => Z.gtb x y
  | Inf false, Num _ | Num _, Inf true | Inf false, Inf true => true
  | _, _ => false
  end.

(** [Number.MAX_SAFE_INTEGER], 2^53 - 1: up to it every integer is a
    Number. *)
Definition MAX_SAFE_INTEGER : Z := 9007199254740991.

(** The Number for the mathematical integer [z]: [z] itself when it has at
    most 53 significant bits, else the nearest integer that has, ties going
    to the even significand, and an infinity from 2^1024 on. *)
Definition toNumber (z : Z) : JSNumber :=
  let a := Z.abs z in
  if (a <=? MAX_SAFE_INTEGER)%Z then Num z
  else
    let e := (Z.log2 a - 52)%Z in
    let q := (a / 2 ^ e)%Z in
    let r := (a mod 2 ^ e)%Z in
    let half := (2 ^ (e - 1))%Z in
    let q' := if (half <? r)%Z || ((r =? half)%Z && Z.odd q)
              then (q + 1)%Z else q in
    if (2 ^ 1024 <=? q' * 2 ^ e)%Z then Inf (z <? 0)%Z
    else Num (Z.sgn z * (q' * 2 ^ e))%Z.

Definition number_eqb (a b : JSNumber) : bool :=
  match a, b with
  | Num x, Num y => (x =? y)%Z
  | Inf s, Inf t => Bool.eqb s t
  | _, _ => false
  end.

(** Value of a code unit as a digit: [0-9], [a-z] and [A-Z]. *)
Definition digitValue (c : N) : option Z :=
  if ((48 <=? c) && (c <=? 57))%N then Some (Z.of_N c - 48)%Z
  else if ((97 <=? c) && (c <=? 122))%N then Some (Z.of_N c - 87)%Z
  else if ((65 <=? c) && (c <=? 90))%N then Some (Z.of_N c - 55)%Z
  else None.

Definition acc_value (acc : option Z) : Z :=
  match acc with
  | Some a => a
  | None => 0%Z
  end.

(** The longest prefix of radix-[R] digits, accumulated from the left;
    [None] while no digit has been read. *)
Fixpoint parseDigits (R : Z) (s : jsstring) (acc : option Z) : option Z :=
  match s with
  | [] => acc
  | c :: r =>
      match digitValue c with
      | Some d =>
          if (d <? R)%Z then parseDigits R r (Some (acc_value acc * R + d)%Z)
          else acc
      | None => acc
      end
  end.

(** [parseInt(s)] with no radix argument: leading white space is skipped, a
    sign is read, a [0x]/[0X] prefix selects radix 16, then the longest run of
    digits is read; no digit gives [NaN], and the integer read is turned
    into a Number, the nearest one (past the 20th digit ECMAScript lets an
    implementation approximate). *)
Definition parseInt (s : jsstring) : JSNumber :=
  let s1 := trimStart s in
  let '(sign, s2) :=
    match s1 with
    | c :: r =>
        if (c =? 45)%N then ((-1)%Z, r)          (* '-' *)
        else if (c =? 43)%N then (1%Z, r)        (* '+' *)
        else (1%Z, s1)
    | [] => (1%Z, s1)
    end in
  let '(R, s3) :=
    if startsWith s2 (lit "0x") || startsWith s2 (lit "0X")
    then (16%Z, skipn 2 s2)
    else (10%Z, s2) in
  match parseDigits R s3 None with
  | None => NaN
  | Some m => toNumber (sign * m)
  end.

(** Decimal digits of a non-negative integer, most significant first. *)
Fixpoint digitsOf (fuel : nat) (n : Z) (acc : jsstring) : jsstring :=
  match fuel with
  | O => acc
  | S f =>
      let acc' := Z.to_N (48 + n mod 10) :: acc in
      if (n / 10 =? 0)%Z then acc' else digitsOf f (n / 10) acc'
  end.

Definition decimal (n : Z) : jsstring :=
  digitsOf (S (Z.to_nat (Z.log2 n))) n [].

(** The digits [Number.prototype.toString] works with, for a Number [a]
    beyond the safe integers: the candidates [(s, e)] where [s] has [k]
    digits and [s * 10^e] is read back as [a]. *)
Definition candidates (a k e : Z) : list (Z * Z) :=
  if (e <? 0)%Z then []
  else
    filter (fun c =>
              (10 ^ (k - 1) <=? fst c)%Z && (fst c <? 10 ^ k)%Z
              && number_eqb (toNumber (fst c * 10 ^ e)) (Num a))
           [((a / 10 ^ e)%Z, e); ((a / 10 ^ e + 1)%Z, e)].

(** Of two candidates the one nearer to [a], the even one when both are as
    near. *)
Definition closer (a : Z) (c1 c2 : Z * Z) : Z * Z :=
  let d1 := Z.abs (fst c1 * 10 ^ snd c1 - a) in
  let d2 := Z.abs (fst c2 * 10 ^ snd c2 - a) in
  if (d2 <? d1)%Z || ((d2 =? d1)%Z && Z.even (fst c2) && Z.odd (fst c1))
  then c2 else c1.

Definition closest (a : Z) (cs : list (Z * Z)) : option (Z * Z) :=
  match cs with
  | [] => None
  | c :: rest => Some (fold_left (closer a) rest c)
  end.

(** The least number of digits [k], from [k] on, that has a candidate; a
    float64 needs 17 at most. *)
Fixpoint shortest (fuel : nat) (k a : Z) : option (Z * Z) :=
  match fuel with
  | O => None
  | S f =>
      let n := Z.of_nat (length (decimal a)) in
      match closest a (candidates a k (n - k) ++ candidates a k (n - k + 1))
      with
      | Some c => Some c
      | None => shortest f (k + 1) a
      end
  end.

(** The text of a Number [a] beyond the safe integers: its shortest digits
    followed by zeros while that makes at most 21 digits, else the digits
    with a point after the first one and the exponent, as in [1e+21] and
    [1.2345e+30]. *)
Definition largeDigits (a : Z) : jsstring :=
  match shortest 17 1 a with
  | Some (s, e) =>
      let k := Z.of_nat (length (decimal s)) in
      let n := (e + k)%Z in
      if (n <=? 21)%Z then decimal s ++ repeat 48%N (Z.to_nat e)
      else
        match decimal s with
        | [] => []
        | d :: ds =>
            d :: (match ds with [] => [] | _ :: _ => 46%N :: ds end)
              ++ 101%N :: 43%N :: decimal (n - 1)       (* e+ *)
        end
  | None => decimal a
  end.

(** The text of a Number [a >= 0]: up to [MAX_SAFE_INTEGER] its shortest
    digits are its decimal digits. *)
Definition numberDigits (a : Z) : jsstring :=
  if (a <=? MAX_SAFE_INTEGER)%Z then decimal a else largeDigits a.

(** From 10^21 on [toString] writes an exponent. *)
Definition plainLimit : Z := 1000000000000000000000.

(** [v.toString()] for the Number that the integer [v] is read as. *)
Definition toString (v : Z) : jsstring :=
  match toNumber v with
  | Num n => if (n <? 0)%Z then 45%N :: numberDigits (- n) else numberDigits n
  | Inf negative => if negative then lit "-Infinity" else lit "Infinity"
  | NaN => lit "NaN"
  end.

(* ================================================================= *)
(** ** Records: [interface D2Item] *)

Record D2Item : Type := mkItem {
  id : option Z;                   (* id?: number *)
  type : jsstring;                 (* 'rune' | 'runeword' | 'quest' | 'merc' *)
  name : jsstring;
  description : jsstring;
  tags : option (list jsstring);   (* guarded by [item.tags &&] in the search *)
  meta : option jsstring;          (* meta?: any, opaque to the program *)
  isCustom : option bool           (* isCustom?: boolean *)
}.

Definition set_id (k : Z) (item : D2Item) : D2Item :=
  mkItem (Some k) (type item) (name item) (description item)
         (tags item) (meta item) (isCustom item).

(** [item.isCustom = b] *)
Definition set_isCustom (b : bool) (item : D2Item) : D2Item :=
  mkItem (id item) (type item) (name item) (description item)
         (tags item) (meta item) (Some b).

(** Truthiness of [item.isCustom]: [undefined] and [false] are falsy. *)
Definition truthy_flag (b : option bool) : bool :=
  match b with
  | Some true => true
  | _ => false
  end.

(** What a record says, apart from its key and its provenance. *)
Definition content (item : D2Item)
  : jsstring * jsstring * jsstring * option (list jsstring) * option jsstring :=
  (type item, name item, description item, tags item, meta item).

(* ================================================================= *)
(** ** The IndexedDB object store ['items'] *)

Open Scope Z_scope.

(** The store created by [createObjectStore('items', { keyPath: 'id',
    autoIncrement: true })]: records in ascending key order, each value
    carrying its key in [id], and the key generator's current number. *)
Record ObjectStore : Type := mkStore {
  records : list (Z * D2Item);
  keyGenerator : Z
}.

Definition emptyStore : ObjectStore := mkStore [] 1.

Definition keys (st : ObjectStore) : list Z := map fst (records st).

(** [store.getAll()] *)
Definition getAll (st : ObjectStore) : list D2Item := map snd (records st).

(** What a promise of [D2Database] is rejected with. *)
Inductive DbError : Type :=
| NotInitialized      (* reject("DB not initialized") *)
| ConstraintError     (* request.error: the key is taken, or none is left *)
| OpenError           (* indexedDB.open failed *)
| NullError.          (* reject(transaction.error): the transaction has no
                         error yet while the error event is handled *)

(** What awaiting a promise gives: it is resolved, rejected, or never
    settled. *)
Inductive Result (A : Type) : Type :=
| Ok (a : A)
| Err (e : DbError)
| Pending.

Arguments Ok {A} a.
Arguments Err {A} e.
Arguments Pending {A}.

(** What a request on the object store ends with. *)
Inductive Request (A : Type) : Type :=
| Success (a : A)
| Failure (e : DbError).

Arguments Success {A} a.
Arguments Failure {A} e.

(** The largest number the key generator gives out, 2^53. *)
Definition maxKey : Z := 9007199254740992.

Definition has_key (k : Z) (rs : list (Z * D2Item)) : bool :=
  existsb (fun r => fst r =? k) rs.

Fixpoint insert_record (k : Z) (v : D2Item) (rs : list (Z * D2Item))
  : list (Z * D2Item) :=
  match rs with
  | [] => [(k, v)]
  | (k', v') :: rest =>
      if k <? k' then (k, v) :: rs else (k', v') :: insert_record k v rest
  end.

(** [store.add(item)].  An item without [id] gets the generator's current
    number as its key, written into the stored value, and the generator moves
    on by one; past [maxKey] the generator gives no key and the request
    fails.  An item with an [id] is stored under it, and the generator moves
    past it as far as [maxKey + 1].  A key already present makes the request
    fail. *)
Definition store_add (st : ObjectStore) (item : D2Item)
  : Request (Z * ObjectStore) :=
  match id item with
  | None =>
      let k := keyGenerator st in
      if maxKey <? k then Failure ConstraintError
      else if has_key k (records st) then Failure ConstraintError
      else Success (k, mkStore (insert_record k (set_id k item) (records st))
                               (k + 1))
  | Some k =>
      if has_key k (records st) then Failure ConstraintError
      else Success (k, mkStore (insert_record k (set_id k item) (records st))
                               (if keyGenerator st <=? Z.min k maxKey
                                then Z.min k maxKey + 1
                                else keyGenerator st))
  end.

(** The cursor loop of [updateSeedData]: every record is visited in key order
    and deleted when [!item.isCustom]. *)
Fixpoint sweep (cursor : list (Z * D2Item)) : list (Z * D2Item) :=
  match cursor with
  | [] => []
  | (k, item) :: rest =>
      if negb (truthy_flag (isCustom item)) then sweep rest
      else (k, item) :: sweep rest
  end.

(** [newItems.forEach(item => { item.isCustom = false; store.add(item); })]:
    the first request that fails ends the batch with its error. *)
Fixpoint addSeeds (st : ObjectStore) (newItems : list D2Item)
  : Request ObjectStore :=
  match newItems with
  | [] => Success st
  | item :: rest =>
      match store_add st (set_isCustom false item) with
      | Success (_, st') => addSeeds st' rest
      | Failure e => Failure e
      end
  end.

(** What [updateSeedData] is handed as [newItems], the [items] of a JSON
    document: an array of records, or a value that has no [forEach], such as
    the [undefined] of a document without [items]. *)
Inductive JsItems : Type :=
| ItemArray (items : list D2Item)
| NotAnArray.

(* ================================================================= *)
(** ** [class D2Database] *)

(** [db] tells whether [this.db] holds a connection; [idb] is the content of
    the object store in the browser, which lives on whether or not this
    object is connected.  Every operation returns what awaiting it gives and
    the state it leaves: a promise that is rejected or never settled leaves
    the state it found, since an IndexedDB transaction with a failed request
    or a handler that throws is aborted and rolled back. *)
Record D2Database : Type := mkDb {
  db : bool;
  idb : ObjectStore
}.

(** [connect] (src/app.ts:29-48): [opens] tells whether [indexedDB.open]
    succeeds.  The upgrade handler creates the store when it is missing, which
    the empty store stands for. *)
Definition connect (opens : bool) (d : D2Database)
  : Result unit * D2Database :=
  if opens then (Ok tt, mkDb true (idb d)) else (Err OpenError, d).

(** [addItem] (src/app.ts:50-63) *)
Definition addItem (d : D2Database) (item : D2Item)
  : Result Z * D2Database :=
  if negb (db d) then (Err NotInitialized, d)
  else
    match store_add (idb d) (set_isCustom true item) with
    | Success (k, st) => (Ok k, mkDb (db d) st)
    | Failure e => (Err e, d)
    end.

(** [updateSeedData] (src/app.ts:92-125): the cursor loop, then the batch,
    in one transaction.  The promise is resolved by [transaction.oncomplete]
    and rejected by [transaction.onerror], which a failed [store.add] reaches
    and which passes on [transaction.error].  When [newItems] has no
    [forEach] the handler of the cursor throws once the loop is over: the
    transaction is aborted with no request left to fail, neither handler is
    called and the promise is never settled. *)
Definition updateSeedData (d : D2Database) (newItems : JsItems)
  : Result unit * D2Database :=
  if negb (db d) then (Err NotInitialized, d)
  else
    let swept := mkStore (sweep (records (idb d))) (keyGenerator (idb d)) in
    match newItems with
    | ItemArray items =>
        match addSeeds swept items with
        | Success st => (Ok tt, mkDb (db d) st)
        | Failure _ => (Err NullError, d)
        end
    | NotAnArray => (Pending, d)
    end.

Section Search.

(** [String.prototype.toLowerCase], which follows the Unicode case tables. *)
Variable toLowerCase : jsstring -> jsstring.

(** The keyword filter of [searchItems]. *)
Definition matchesKeyword (lowerKey : jsstring) (item : D2Item) : bool :=
  includes (toLowerCase (name item)) lowerKey
  || includes (toLowerCase (description item)) lowerKey
  || match tags item with
     | Some ts => existsb (fun tag => includes (toLowerCase tag) lowerKey) ts
     | None => false
     end.

(** [searchItems] (src/app.ts:65-89) *)
Definition searchItems (d : D2Database) (keyword category : jsstring)
  : Result (list D2Item) * D2Database :=
  if negb (db d) then (Err NotInitialized, d)
  else
    let results := getAll (idb d) in
    let results :=
      if negb (str_eqb category (lit "all"))
      then filter (fun item => str_eqb (type item) category) results
      else results in
    let results :=
      if truthy_string keyword
      then let lowerKey := toLowerCase keyword in
           filter (matchesKeyword lowerKey) results
      else results in
    (Ok results, d).

End Search.

(* ================================================================= *)
(** ** [class App] and what it runs in *)

(** Texts shown in the loading overlay. *)
Inductive LoadingMessage : Type :=
| Downloading (remoteVersion : Z)   (* the text announcing v${remoteVersion} *)
| Optimizing.                       (* the text shown while the store is rewritten *)

Inductive Url : Type :=
| VersionFile                       (* ./db_version.json?t=... *)
| DataFile.                         (* ./data.json *)

(** What the reconciler does to the outside, in the order it does it. *)
Inductive Event : Type :=
| Fetch (u : Url)
| LogVersions (currentVersion : JSNumber) (remoteVersion : Z)   (* console.log *)
| LogUpToDate                                                   (* console.log *)
| ShowLoading (m : LoadingMessage)
| HideLoading
| ErrorUpdateFailed                                             (* console.error *)
| AlertUpdateFailed                                             (* alert *)
| ErrorCheckFailed                                              (* console.error *)
| LogUpdateStart                                    (* console.log, src/app.ts *)
| AlertUpdated (version : Z)                        (* alert, src/app.ts *)
| ErrorLoadFailed.                    (* console.error, console.warn, src/app.ts *)

(** The elements of the page the program reads and writes.  The overlay and
    its text may be missing from the page, which [showLoading] and
    [hideLoading] test for; [loadingOverlay = Some h] says the overlay exists
    and [h] tells whether it carries the class [hidden]. *)
Record Dom : Type := mkDom {
  searchInput : jsstring;                 (* searchInput.value *)
  results : option (list D2Item);         (* what #results was last filled with *)
  loadingOverlay : option bool;
  loadingText : option LoadingMessage
}.

(** The state a run of the program works on: the [App] object with its
    database, the [localStorage] slot [VERSION_KEY = 'd2r_data_version'], the
    page, and the events so far, most recent first. *)
Record World : Type := mkWorld {
  database : D2Database;                  (* this.db *)
  currentCategory : jsstring;
  localStorage : option jsstring;         (* getItem(VERSION_KEY), null when unset *)
  dom : Dom;
  trace : list Event
}.

(** The outcome of fetching a JSON file and reading a field of it. *)
Inductive Fetched (A : Type) : Type :=
| FetchRejected        (* fetch() rejects *)
| ResponseNotOk        (* !response.ok *)
| BodyNotJson          (* response.json() rejects *)
| Body (a : A).

Arguments FetchRejected {A}.
Arguments ResponseNotOk {A}.
Arguments BodyNotJson {A}.
Arguments Body {A} a.

(** What the server answers during one run.  The version is an integer, and
    [versionFile] holds the value of the Number it is read as. *)
Record Remote : Type := mkRemote {
  versionFile : Fetched Z;                (* versionData.version *)
  dataFile : Fetched JsItems              (* data.items *)
}.

Definition emit (e : Event) (w : World) : World :=
  mkWorld (database w) (currentCategory w) (localStorage w) (dom w)
          (e :: trace w).

Definition with_database (d : D2Database) (w : World) : World :=
  mkWorld d (currentCategory w) (localStorage w) (dom w) (trace w).

Definition with_dom (p : Dom) (w : World) : World :=
  mkWorld (database w) (currentCategory w) (localStorage w) p (trace w).

(** [localStorage.setItem(this.VERSION_KEY, s)] *)
Definition setItem (s : jsstring) (w : World) : World :=
  mkWorld (database w) (currentCategory w) (Some s) (dom w) (trace w).

(** [showLoading] and [hideLoading] (src/app.js:141-154) *)
Definition showLoading (message : LoadingMessage) (w : World) : World :=
  let p := dom w in
  let p' :=
    match loadingOverlay p, loadingText p with
    | Some _, Some _ =>
        mkDom (searchInput p) (results p) (Some false) (Some message)
    | _, _ => p
    end in
  emit (ShowLoading message) (with_dom p' w).

Definition hideLoading (w : World) : World :=
  let p := dom w in
  let p' :=
    match loadingOverlay p with
    | Some _ => mkDom (searchInput p) (results p) (Some true) (loadingText p)
    | None => p
    end in
  emit HideLoading (with_dom p' w).

(** [parseInt(localStorage.getItem(this.VERSION_KEY) || '0')] *)
Definition currentVersion (slot : option jsstring) : JSNumber :=
  parseInt match slot with
           | Some s => if truthy_string s then s else lit "0"
           | None => lit "0"
           end.

(** [checkAndLoadData] as [src/app.ts] has it (lines 157-179), the flow
    without a version file: the data file is fetched on every run and its own
    [version] is compared with the slot.  The world returned is the one the
    run leaves, also when it waits for [updateSeedData] for ever. *)
Definition checkAndLoadData_ts (data : Fetched (Z * JsItems)) (w : World)
  : World :=
  let w := emit (Fetch DataFile) w in
  match data with
  | Body (version, items) =>
      let currentVersion := currentVersion (localStorage w) in
      let w := emit (LogVersions currentVersion version) w in
      if js_gt (Num version) currentVersion then
        let w := emit LogUpdateStart w in
        match updateSeedData (database w) items with
        | (Ok _, d) =>
            emit (AlertUpdated version)
                 (setItem (toString version) (with_database d w))
        | (Err _, d) => emit ErrorLoadFailed (with_database d w)
        | (Pending, d) => with_database d w
        end
      else w
  | _ => emit ErrorLoadFailed w
  end.

Section Application.

Variable toLowerCase : jsstring -> jsstring.

(** [handleSearch] (src/app.ts:193-219): the input is trimmed, the store is
    searched in the current category and the result container is refilled; a
    rejected search leaves the page as it was.  The method is asynchronous
    and its callers do not wait for it; it touches nothing they touch
    afterwards, so it is run here at the place of the call. *)
Definition handleSearch (w : World) : World :=
  let keyword := trim (searchInput (dom w)) in
  match searchItems toLowerCase (database w) keyword (currentCategory w) with
  | (Ok items, d) =>
      let p := dom w in
      with_dom (mkDom (searchInput p) (Some items)
                      (loadingOverlay p) (loadingText p))
               (with_database d w)
  | (_, d) => with_database d w
  end.

(** The [catch (updateError)] block. *)
Definition updateFailed (w : World) : World :=
  emit AlertUpdateFailed (emit ErrorUpdateFailed w).

(** [checkAndLoadData] (src/app.js:155-204): the version file is read first,
    and only a newer version makes the program fetch and apply the data
    file.  The result is the world the run leaves and whether the run comes
    to an end: while [updateSeedData] is never settled the run waits inside
    [try], and neither [catch] nor [finally] is reached. *)
Definition checkAndLoadData_run (net : Remote) (w : World) : World * bool :=
  let w := emit (Fetch VersionFile) w in
  match versionFile net with
  | Body remoteVersion =>
      let currentVersion := currentVersion (localStorage w) in
      let w := emit (LogVersions currentVersion remoteVersion) w in
      if js_gt (Num remoteVersion) currentVersion then
        let w := showLoading (Downloading remoteVersion) w in
        let w := emit (Fetch DataFile) w in
        let '(w, settled) :=
          match dataFile net with
          | FetchRejected | ResponseNotOk => (updateFailed w, true)
          | BodyNotJson => (updateFailed (showLoading Optimizing w), true)
          | Body newItems =>
              let w := showLoading Optimizing w in
              match updateSeedData (database w) newItems with
              | (Ok _, d) =>
                  (handleSearch
                     (setItem (toString remoteVersion) (with_database d w)),
                   true)
              | (Err _, d) => (updateFailed (with_database d w), true)
              | (Pending, d) => (with_database d w, false)
              end
          end in
        if settled then (hideLoading w, true) else (w, false)
      else (emit LogUpToDate w, true)
  | _ => (emit ErrorCheckFailed w, true)
  end.

(** The world a run leaves, and whether the run comes to an end. *)
Definition checkAndLoadData (net : Remote) (w : World) : World :=
  fst (checkAndLoadData_run net w).

Definition settles (net : Remote) (w : World) : bool :=
  snd (checkAndLoadData_run net w).

(** The program run again and again, once per start of the application, each
    time against what the server answers then. *)
Fixpoint reconcile (nets : list Remote) (w : World) : World :=
  match nets with
  | [] => w
  | net :: rest => reconcile rest (checkAndLoadData net w)
  end.

End Application.

(** A sequence of [addItem] calls, each on the state the one before left; the
    keys returned are collected in call order. *)
Fixpoint addItems (d : D2Database) (items : list D2Item)
  : Result (list Z) * D2Database :=
  match items with
  | [] => (Ok [], d)
  | item :: rest =>
      match addItem d item with
      | (Ok k, d') =>
          match addItems d' rest with
          | (Ok ks, d'') => (Ok (k :: ks), d'')
          | (Err e, d'') => (Err e, d'')
          | (Pending, d'') => (Pending, d'')
          end
      | (Err e, d') => (Err e, d')
      | (Pending, d') => (Pending, d')
      end
  end.

(* ================================================================= *)
(** ** Vocabulary of the properties *)

(** Occurrence of [sub] inside [s], as the spec words it. *)
Definition contains (s sub : jsstring) : Prop :=
  exists pre post, s = pre ++ sub ++ post.

Definition isDigit (c : N) : Prop := (48 <= c <= 57)%N.

(** Provenance of a stored record, as [updateSeedData] reads it. *)
Definition is_custom (r : Z * D2Item) : bool := truthy_flag (isCustom (snd r)).
Definition is_seed (r : Z * D2Item) : bool := negb (is_custom r).

(** The keys a batch gets from the key generator, starting at [k], and the
    values stored under them when [isCustom] is set to [b]. *)
Fixpoint numbered (b : bool) (k : Z) (items : list D2Item)
  : list (Z * D2Item) :=
  match items with
  | [] => []
  | item :: rest =>
      (k, set_id k (set_isCustom b item)) :: numbered b (k + 1) rest
  end.

(** The key generator is ahead of every key in the store, as far as it
    goes: it is beyond the keys up to [maxKey] and stands at [maxKey + 1] when
    the store has a key from [maxKey] on. *)
Definition generator_ahead (st : ObjectStore) : Prop :=
  Forall (fun r => Z.min (fst r) maxKey < keyGenerator st) (records st).

(** The same, as a test. *)
Definition ahead (st : ObjectStore) : bool :=
  forallb (fun r => Z.min (fst r) maxKey <? keyGenerator st) (records st).

(** The records are in ascending key order, which makes the keys unique, and
    each value carries its key in [id]. *)
Definition keys_in_order (st : ObjectStore) : Prop :=
  StronglySorted Z.lt (keys st).

Definition keyed (st : ObjectStore) : Prop :=
  Forall (fun r => id (snd r) = Some (fst r)) (records st).

(** The states a connected database goes through: a first [connect] on an
    empty store, then any interleaving of [addItem] and [updateSeedData]
    calls, each one succeeding or not. *)
Inductive reachable : D2Database -> Prop :=
| reach_connect : reachable (snd (connect true (mkDb false emptyStore)))
| reach_addItem d item : reachable d -> reachable (snd (addItem d item))
| reach_updateSeedData d newItems :
    reachable d -> reachable (snd (updateSeedData d newItems)).

(** The user types [value] into the search box. *)
Definition typed (value : jsstring) (w : World) : World :=
  let p := dom w in
  with_dom (mkDom value (results p) (loadingOverlay p) (loadingText p)) w.

Section SearchVocabulary.

Variable toLowerCase : jsstring -> jsstring.

(** The text condition of the search: the lowercased keyword occurs in the
    lowercased name, or in the lowercased description, or in some lowercased
    tag. *)
Definition keyword_matches (keyword : jsstring) (item : D2Item) : Prop :=
  contains (toLowerCase (name item)) (toLowerCase keyword)
  \/ contains (toLowerCase (description item)) (toLowerCase keyword)
  \/ exists tag,
       In tag (match tags item with Some ts => ts | None => [] end)
       /\ contains (toLowerCase tag) (toLowerCase keyword).

(** The records a search selects: of the category unless it is the wildcard,
    and matching the keyword when there is one. *)
Definition search_selects (keyword category : jsstring) (item : D2Item)
  : Prop :=
  (category <> lit "all" -> type item = category)
  /\ (keyword <> [] -> keyword_matches keyword item).

(** The two filters of [searchItems], as one test on a record. *)
Definition keeps (keyword category : jsstring) (item : D2Item) : bool :=
  (str_eqb category (lit "all") || str_eqb (type item) category)
  && (negb (truthy_string keyword)
      || matchesKeyword toLowerCase (toLowerCase keyword) item).

End SearchVocabulary.

(** The overlay after [hideLoading]: hidden, if the page has one. *)
Definition hidden (overlay : option bool) : option bool :=
  match overlay with
  | Some _ => Some true
  | None => None
  end.

(** The overlay after [showLoading]: shown, if the page has one and has its
    text. *)
Definition shown (p : Dom) : option bool :=
  match loadingOverlay p, loadingText p with
  | Some _, Some _ => Some false
  | _, _ => loadingOverlay p
  end.

(** The state in which the data file is requested. *)
Definition downloading (v : Z) (w : World) : World :=
  emit (Fetch DataFile)
    (showLoading (Downloading v)
       (emit (LogVersions (currentVersion (localStorage w)) v)
          (emit (Fetch VersionFile) w))).

(** The run has started a refresh: the overlay was shown for version [v] and
    the data file was requested. *)
Definition refreshing (v : Z) (evs : list Event) : Prop :=
  In (ShowLoading (Downloading v)) evs /\ In (Fetch DataFile) evs.

(** The refresh does not go through: the data file cannot be had, or
    [updateSeedData] is rejected. *)
Definition refresh_fails (net : Remote) (w : World) : Prop :=
  match dataFile net with
  | Body newItems =>
      exists e, fst (updateSeedData (database w) newItems) = Err e
  | _ => True
  end.

(** The events of a run that does not start a refresh. *)
Definition quiet (e : Event) : Prop :=
  match e with
  | Fetch VersionFile | LogVersions _ _ | LogUpToDate | ErrorCheckFailed => True
  | _ => False
  end.

(** A JavaScript array has fewer than 2^32 elements. *)
Definition js_array (items : list D2Item) : Prop :=
  Z.of_nat (length items) < 4294967296.

(** [v] is the value of a Number that [toString] writes in plain digits: an
    integer that float64 has, below 10^21 in absolute value. *)
Definition plain (v : Z) : Prop :=
  toNumber v = Num v /\ Z.abs v < plainLimit.

(** The version the server gives, when it gives one, is such a Number. *)
Definition plain_version (net : Remote) : Prop :=
  forall v, versionFile net = Body v -> plain v.

(** What the slot holds when read as a number, [None] when that is no
    integer. *)
Definition watermark (w : World) : option Z :=
  match currentVersion (localStorage w) with
  | Num z => Some z
  | _ => None
  end.

(* ================================================================= *)
(** ** Sample data *)

Definition sample (t n : string) (provenance : option bool) : D2Item :=
  mkItem None (lit t) (lit n) (lit "a sample record")
         (Some [lit n; lit t]) None provenance.

(** A store after a first seed batch of two runes and one custom record. *)
Definition sample_db : D2Database :=
  snd (addItem
         (snd (updateSeedData (snd (connect true (mkDb false emptyStore)))
                 (ItemArray [sample "rune" "El Rune" None;
                             sample "rune" "Eld Rune" None])))
         (sample "quest" "Den of Evil" None)).

Definition sample_dom : Dom := mkDom (lit "   ") None (Some true) (Some Optimizing).

Definition sample_world : World :=
  mkWorld sample_db (lit "all") (Some (lit "2")) sample_dom [].

Definition sample_batch : list D2Item := [sample "rune" "Tir Rune" None].

(** The server offers version 3. *)
Definition sample_remote : Remote :=
  mkRemote (Body 3) (Body (ItemArray sample_batch)).

(** A data file whose first entry carries the key of a custom record. *)
Definition clashing_batch : list D2Item :=
  [mkItem (Some 3) (lit "rune") (lit "Tir Rune") (lit "a sample record")
          None None None].

Definition clashing_remote : Remote :=
  mkRemote (Body 3) (Body (ItemArray clashing_batch)).

(** A data file whose entry carries the key of a seed record. *)
Definition renumbering_batch : list D2Item :=
  [mkItem (Some 1) (lit "rune") (lit "Tir Rune") (lit "a sample record")
          None None None].

(** A store whose only record was added with the [id] 2^53. *)
Definition full_db : D2Database :=
  snd (addItem (snd (connect true (mkDb false emptyStore)))
               (mkItem (Some maxKey) (lit "quest") (lit "Den of Evil")
                       (lit "a sample record") None None None)).

(** The server offers version 10^21. *)
Definition huge_remote : Remote :=
  mkRemote (Body 1000000000000000000000) (Body (ItemArray sample_batch)).

(** The server offers version 3 with a data file that has no [items]. *)
Definition itemless_remote : Remote := mkRemote (Body 3) (Body NotAnArray).

(** The slot holds a string that is not a number. *)
Definition corrupted_world : World :=
  mkWorld sample_db (lit "all") (Some (lit "v2")) sample_dom [].

(* ================================================================= *)
(** ** The rest of [class App]: the cards, the form and the start-up *)

(** [translateType] (src/app.ts:221-229).  The four labels begin with Hangul
    syllables, given here by their code units. *)
Definition translateType (type : jsstring) : jsstring :=
  if str_eqb type (lit "rune") then 47340%N :: lit " (Rune)"
  else if str_eqb type (lit "runeword")
       then 47340%N :: 50612%N :: lit " (Runeword)"
  else if str_eqb type (lit "quest")
       then 53272%N :: 49828%N :: 53944%N :: lit " (Quest)"
  else if str_eqb type (lit "merc")
       then 50857%N :: 48337%N :: lit " (Mercenary)"
  else type.

(** One card of the result list (src/app.ts:206-218): the translated type,
    the name, whether the USER badge follows the name, and the description. *)
Record Card : Type := mkCard {
  cardType : jsstring;
  cardName : jsstring;
  cardBadge : bool;
  cardDetail : jsstring
}.

Definition card (item : D2Item) : Card :=
  mkCard (translateType (type item)) (name item)
         (truthy_flag (isCustom item)) (description item).

(** What [#results] shows (src/app.ts:200-218): nothing yet, the paragraph
    that says there is no result, or one card per record. *)
Inductive ResultsView : Type :=
| Untouched
| NoResults
| Cards (cards : list Card).

Definition renderResults (shown : option (list D2Item)) : ResultsView :=
  match shown with
  | None => Untouched
  | Some [] => NoResults
  | Some items => Cards (map card items)
  end.

(** The form in [#addModal]. *)
Record AddModal : Type := mkModal {
  display : bool;          (* style.display is 'block' *)
  newType : jsstring;      (* #newType value *)
  newName : jsstring;      (* #newName value *)
  newDesc : jsstring       (* #newDesc value *)
}.

(** What [init] and the form tell the user and the console. *)
Inductive Notice : Type :=
| LogConnected                    (* console.log, src/app.ts:144 *)
| ErrorInitFailed (e : DbError)   (* console.error, src/app.ts:152 *)
| AlertMissingFields              (* alert, src/app.ts:248 *)
| AlertSaved                      (* alert, src/app.ts:261 *)
| ErrorSaveFailed (e : DbError)   (* console.error, src/app.ts:265 *)
| AlertSaveFailed.                (* alert, src/app.ts:266 *)

(** The whole page: the state the reconciler works on, the form, the tab
    buttons (each one active or not), the number of ['input'] listeners on
    the search box, and the notices so far, most recent first. *)
Record Page : Type := mkPage {
  world : World;
  modal : AddModal;
  tabs : list bool;
  listeners : nat;
  notices : list Notice
}.

Definition onWorld (f : World -> World) (p : Page) : Page :=
  mkPage (f (world p)) (modal p) (tabs p) (listeners p) (notices p).

Definition notify (n : Notice) (p : Page) : Page :=
  mkPage (world p) (modal p) (tabs p) (listeners p) (n :: notices p).

Definition with_modal (m : AddModal) (p : Page) : Page :=
  mkPage (world p) m (tabs p) (listeners p) (notices p).

(** [this.currentCategory = category] *)
Definition with_category (category : jsstring) (w : World) : World :=
  mkWorld (database w) category (localStorage w) (dom w) (trace w).

(** The state [new App()] starts from (src/app.ts:22-27, 132-139): a
    [D2Database] without connection over what the browser has stored, and the
    category ['all']. *)
Definition initial (stored : ObjectStore) (slot : option jsstring) (p : Dom)
    (m : AddModal) (buttons : list bool) : Page :=
  mkPage (mkWorld (mkDb false stored) (lit "all") slot p []) m buttons 0 [].

Module App.

Section Methods.

Variable toLowerCase : jsstring -> jsstring.

(** [bindEvents] (src/app.ts:181-184) *)
Definition bindEvents (p : Page) : Page :=
  mkPage (world p) (modal p) (tabs p) (S (listeners p)) (notices p).

(** An ['input'] event on the search box, whose value is now [value]: every
    listener that [bindEvents] registered runs [handleSearch]. *)
Definition inputEvent (value : jsstring) (p : Page) : Page :=
  Nat.iter (listeners p) (onWorld (handleSearch toLowerCase))
           (onWorld (typed value) p).

(** [setCategory] (src/app.ts:186-191) *)
Definition setCategory (category : jsstring) (p : Page) : Page :=
  let p := onWorld (with_category category) p in
  let p := mkPage (world p) (modal p) (map (fun _ => false) (tabs p))
                  (listeners p) (notices p) in
  onWorld (handleSearch toLowerCase) p.

(** [openAddModal] and [closeAddModal] (src/app.ts:232-240) *)
Definition openAddModal (p : Page) : Page :=
  let m := modal p in
  with_modal (mkModal true (newType m) (newName m) (newDesc m)) p.

Definition closeAddModal (p : Page) : Page :=
  let m := modal p in
  with_modal (mkModal false (newType m) [] []) p.

(** [App.addItem] (src/app.ts:242-268): the form is read, an empty name or
    description is refused, and the record is handed to
    [D2Database.addItem]. *)
Definition addItem (p : Page) : Page :=
  let type := newType (modal p) in
  let name := newName (modal p) in
  let desc := newDesc (modal p) in
  if negb (truthy_string name) || negb (truthy_string desc)
  then notify AlertMissingFields p
  else
    let newItem := mkItem None type name desc (Some [name; type]) None None in
    match addItem (database (world p)) newItem with
    | (Ok _, d) =>
        onWorld (handleSearch toLowerCase)
          (closeAddModal (notify AlertSaved (onWorld (with_database d) p)))
    | (Err e, d) =>
        notify AlertSaveFailed
          (notify (ErrorSaveFailed e) (onWorld (with_database d) p))
    | (Pending, d) => onWorld (with_database d) p
    end.

(** [init] (src/app.ts:141-154): [opens] tells whether the database opens,
    [net] what the server answers.  [init] waits for [checkAndLoadData]: the
    first search and [bindEvents] come after it, and not at all when it never
    comes to an end. *)
Definition init (opens : bool) (net : Remote) (p : Page) : Page :=
  match connect opens (database (world p)) with
  | (Ok _, d) =>
      let p := notify LogConnected (onWorld (with_database d) p) in
      let settled := settles toLowerCase net (world p) in
      let p := onWorld (checkAndLoadData toLowerCase net) p in
      if settled then bindEvents (onWorld (handleSearch toLowerCase) p)
      else p
  | (Err e, d) => notify (ErrorInitFailed e) (onWorld (with_database d) p)
  | (Pending, d) => onWorld (with_database d) p
  end.

End Methods.

End App.

(* ================================================================= *)
(** ** More vocabulary *)

(** A call on the database, and a sequence of calls, each on the state the
    one before left, whether it succeeded or not. *)
Inductive Call : Type :=
| CallAddItem (item : D2Item)
| CallUpdateSeedData (newItems : JsItems).

Definition call (c : Call) (d : D2Database) : D2Database :=
  match c with
  | CallAddItem item => snd (addItem d item)
  | CallUpdateSeedData newItems => snd (updateSeedData d newItems)
  end.

Fixpoint calls (cs : list Call) (d : D2Database) : D2Database :=
  match cs with
  | [] => d
  | c :: rest => calls rest (call c d)
  end.

(** Every record says whether it is custom: [isCustom] is not [undefined]. *)
Definition flagged (st : ObjectStore) : Prop :=
  Forall (fun r => isCustom (snd r) <> None) (records st).

(** The data file of the flow of [src/app.ts], which carries its version,
    made of the version [v] and what fetching [data.json] gives. *)
Definition with_version (v : Z) (data : Fetched JsItems)
  : Fetched (Z * JsItems) :=
  match data with
  | FetchRejected => FetchRejected
  | ResponseNotOk => ResponseNotOk
  | BodyNotJson => BodyNotJson
  | Body items => Body (v, items)
  end.

(** No alert among the events. *)
Definition no_alert (e : Event) : Prop :=
  match e with
  | AlertUpdateFailed | AlertUpdated _ => False
  | _ => True
  end.

Definition sample_modal : AddModal :=
  mkModal true (lit "quest") (lit "Sisters' Burial Grounds")
          (lit "Kill Blood Raven").

Definition sample_page : Page :=
  mkPage sample_world sample_modal [true; false; false] 1 [].

(** The comparison of the version gate, for what the server answers and what
    the slot holds. *)
Definition gate_opens (net : Remote) (slot : option jsstring) : bool :=
  match versionFile net with
  | Body v => js_gt (Num v) (currentVersion slot)
  | _ => false
  end.

(** What a run does to the database and the slot, as a function of the two
    and of the server's answers alone. *)
Definition refreshed (net : Remote) (d : D2Database) (slot : option jsstring)
  : D2Database * option jsstring :=
  match versionFile net, dataFile net with
  | Body v, Body newItems =>
      if js_gt (Num v) (currentVersion slot)
      then match updateSeedData d newItems with
           | (Ok _, d') => (d', Some (toString v))
           | (_, d') => (d', slot)
           end
      else (d, slot)
  | _, _ => (d, slot)
  end.

(** The load of the flow of [src/app.ts] does not go through: the data file
    cannot be had, or it is newer and [updateSeedData] is rejected. *)
Definition load_fails (data : Fetched (Z * JsItems)) (w : World) : Prop :=
  match data with
  | Body (v, newItems) =>
      js_gt (Num v) (currentVersion (localStorage w)) = true
      /\ exists e, fst (updateSeedData (database w) newItems) = Err e
  | _ => True
  end.
(* ================================================================= *)
(** * Properties *)

(** ** Strings *)

Lemma str_eqb_eq (a b : jsstring) : str_eqb a b = true <-> a = b.
Proof.
  revert b; induction a as [|x a IH]; intros [|y b]; simpl;
    try (split; [discriminate | discriminate]); try tauto.
  rewrite andb_true_iff, N.eqb_eq, IH.
  split; [intros [-> ->]; reflexivity | intros E; inversion E; auto].
Qed.

Lemma str_eqb_refl (a : jsstring) : str_eqb a a = true.
Proof. apply str_eqb_eq; reflexivity. Qed.

Lemma startsWith_spec (s p : jsstring) :
  startsWith s p = true <-> exists post, s = p ++ post.
Proof.
  revert s; induction p as [|x p IH]; intros s.
  - split; [intros _; exists s; reflexivity | destruct s; reflexivity].
  - destruct s as [|y s]; simpl.
    + split; [discriminate | intros [post E]; discriminate].
    + rewrite andb_true_iff, N.eqb_eq, IH. split.
      * intros [-> [post ->]]. exists post; reflexivity.
      * intros [post E]. inversion E; subst. split; [reflexivity | eauto].
Qed.

Lemma includes_spec (s sub : jsstring) :
  includes s sub = true <-> contains s sub.
Proof.
  unfold contains. induction s as [|c s IH].
  - cbn [includes]. rewrite orb_false_r, startsWith_spec. split.
    + intros [post E]. exists [], post. exact E.
    + intros [pre [post E]]. destruct pre; [eauto | discriminate].
  - cbn [includes]. rewrite orb_true_iff, startsWith_spec, IH. split.
    + intros [[post E] | [pre [post E]]].
      * exists [], post. exact E.
      * exists (c :: pre), post. rewrite E. reflexivity.
    + intros [[|x pre] [post E]].
      * left. exists post. exact E.
      * right. inversion E; subst. eauto.
Qed.

Lemma trim_nil_of_blank (s : jsstring) :
  forallb isWhiteSpace s = true -> trim s = [].
Proof.
  unfold trim, trimEnd. intros H.
  assert (E : trimStart s = []).
  { induction s as [|c s IH]; [reflexivity|].
    simpl in *. apply andb_true_iff in H as [Hc Hs].
    rewrite Hc. auto. }
  rewrite E. reflexivity.
Qed.

(** ** Numbers: [toString] and [parseInt] *)

Lemma digit_unit (m : Z) :
  0 <= m < 10 ->
  isDigit (Z.to_N (48 + m)) /\ digitValue (Z.to_N (48 + m)) = Some m.
Proof.
  intros H.
  assert (C : m = 0 \/ m = 1 \/ m = 2 \/ m = 3 \/ m = 4 \/ m = 5 \/ m = 6
              \/ m = 7 \/ m = 8 \/ m = 9) by lia.
  unfold isDigit.
  repeat (destruct C as [-> | C]; [split; [cbn; lia | reflexivity] | ]).
  subst; split; [cbn; lia | reflexivity].
Qed.

Lemma digitsOf_digits (f : nat) : forall n rest,
  Forall isDigit rest -> Forall isDigit (digitsOf f n rest).
Proof.
  induction f as [|f IH]; intros n rest Hr; simpl; [exact Hr|].
  assert (Hd : isDigit (Z.to_N (48 + n mod 10))).
  { apply digit_unit. apply Z.mod_pos_bound. lia. }
  destruct (n / 10 =? 0); [constructor; assumption|].
  apply IH. constructor; assumption.
Qed.

Lemma digitsOf_nonempty (f : nat) (n : Z) (rest : jsstring) :
  digitsOf (S f) n rest <> [].
Proof.
  revert n rest. induction f as [|f IH]; intros n rest.
  - simpl. destruct (n / 10 =? 0); discriminate.
  - change (digitsOf (S (S f)) n rest)
      with (if n / 10 =? 0 then Z.to_N (48 + n mod 10) :: rest
            else digitsOf (S f) (n / 10) (Z.to_N (48 + n mod 10) :: rest)).
    destruct (n / 10 =? 0); [discriminate | apply IH].
Qed.

(** Reading back the digits written for [n] multiplies what was read so far
    by a power of ten and adds [n]. *)
Lemma parseDigits_digitsOf (f : nat) : forall n rest,
  0 <= n < 2 ^ Z.of_nat (S f) ->
  exists k, forall acc,
    parseDigits 10 (digitsOf (S f) n rest) acc
    = parseDigits 10 rest (Some (acc_value acc * k + n)).
Proof.
  induction f as [|f IH]; intros n rest Hn.
  - assert (E : n / 10 = 0) by (apply Z.div_small; simpl in Hn; lia).
    assert (Em : n mod 10 = n) by (apply Z.mod_small; simpl in Hn; lia).
    assert (Hv : digitValue (Z.to_N (48 + n)) = Some n)
      by (apply digit_unit; simpl in Hn; lia).
    assert (Hlt : (n <? 10) = true) by (apply Z.ltb_lt; simpl in Hn; lia).
    exists 10. intros acc. cbn [digitsOf]. rewrite E, Em.
    cbn [Z.eqb parseDigits]. rewrite Hv, Hlt. reflexivity.
  - change (digitsOf (S (S f)) n rest)
      with (if n / 10 =? 0 then Z.to_N (48 + n mod 10) :: rest
            else digitsOf (S f) (n / 10) (Z.to_N (48 + n mod 10) :: rest)).
    assert (Hm : 0 <= n mod 10 < 10) by (apply Z.mod_pos_bound; lia).
    destruct (digit_unit _ Hm) as [_ Hv].
    assert (Hlt : (n mod 10 <? 10) = true) by (apply Z.ltb_lt; lia).
    destruct (Z.eqb_spec (n / 10) 0) as [E | NE].
    + exists 10. intros acc. cbn [parseDigits]. rewrite Hv, Hlt.
      pose proof (Z.div_mod n 10). f_equal. f_equal. lia.
    + destruct (IH (n / 10) (Z.to_N (48 + n mod 10) :: rest)) as [k Hk].
      { split; [apply Z.div_pos; lia|].
        apply Z.div_lt_upper_bound; [lia|].
        rewrite Nat2Z.inj_succ, Z.pow_succ_r in Hn by lia. lia. }
      exists (k * 10). intros acc. rewrite Hk. cbn [parseDigits acc_value].
      rewrite Hv, Hlt.
      pose proof (Z.div_mod n 10). f_equal. f_equal. lia.
Qed.

Lemma decimal_digits (n : Z) : Forall isDigit (decimal n) /\ decimal n <> [].
Proof.
  split; [apply digitsOf_digits; constructor | apply digitsOf_nonempty].
Qed.

Lemma parseDigits_decimal (n : Z) :
  0 <= n -> parseDigits 10 (decimal n) None = Some n.
Proof.
  intros Hn. unfold decimal.
  destruct (parseDigits_digitsOf (Z.to_nat (Z.log2 n)) n []) as [k Hk].
  - split; [exact Hn|].
    rewrite Nat2Z.inj_succ, Z2Nat.id by apply Z.log2_nonneg.
    destruct (Z.eq_dec n 0) as [-> | NZ]; [reflexivity|].
    apply Z.log2_spec. lia.
  - rewrite Hk. reflexivity.
Qed.

Lemma digits_not_hex (s : jsstring) :
  Forall isDigit s ->
  startsWith s (lit "0x") || startsWith s (lit "0X") = false.
Proof.
  intros H. destruct s as [|a [|b r]]; cbn -[N.eqb].
  - reflexivity.
  - rewrite !andb_false_r. reflexivity.
  - inversion H as [|? ? _ H']; subst. inversion H' as [|? ? Hb _]; subst.
    unfold isDigit in Hb.
    replace (120 =? b)%N with false by (symmetry; apply N.eqb_neq; lia).
    replace (88 =? b)%N with false by (symmetry; apply N.eqb_neq; lia).
    cbn [andb]. rewrite !andb_false_r. reflexivity.
Qed.

Lemma parseInt_digits (s : jsstring) :
  Forall isDigit s -> s <> [] ->
  parseInt s = match parseDigits 10 s None with
               | None => NaN
               | Some m => toNumber m
               end.
Proof.
  intros H NE. unfold parseInt.
  destruct s as [|c r]; [congruence|].
  inversion H as [|? ? Hc _]; subst. unfold isDigit in Hc.
  assert (W : isWhiteSpace c = false).
  { unfold isWhiteSpace.
    repeat (apply orb_false_iff; split);
      try (apply N.eqb_neq; lia);
      apply andb_false_iff; [right | left]; apply N.leb_gt; lia. }
  cbn [trimStart]. rewrite W.
  replace (c =? 45)%N with false by (symmetry; apply N.eqb_neq; lia).
  replace (c =? 43)%N with false by (symmetry; apply N.eqb_neq; lia).
  rewrite (digits_not_hex _ H).
  destruct (parseDigits 10 (c :: r) None) as [m|]; [|reflexivity].
  f_equal. lia.
Qed.

Lemma toNumber_safe (v : Z) :
  Z.abs v <= MAX_SAFE_INTEGER -> toNumber v = Num v.
Proof.
  intros H. unfold toNumber. apply Z.leb_le in H. rewrite H. reflexivity.
Qed.

Lemma numberDigits_nonempty (a : Z) : numberDigits a <> [].
Proof.
  unfold numberDigits. destruct (a <=? MAX_SAFE_INTEGER).
  - apply decimal_digits.
  - unfold largeDigits. destruct (shortest 17 1 a) as [[s e]|].
    + destruct (decimal_digits s) as [_ Hne].
      destruct (decimal s) as [|c r]; [congruence|].
      destruct (_ <=? 21); discriminate.
    + apply decimal_digits.
Qed.

Lemma toString_truthy (v : Z) : truthy_string (toString v) = true.
Proof.
  unfold toString. destruct (toNumber v) as [|n|[|]]; try reflexivity.
  destruct (n <? 0); [reflexivity|].
  pose proof (numberDigits_nonempty n) as Hne.
  destruct (numberDigits n); [congruence | reflexivity].
Qed.

Lemma number_eqb_Num a y : number_eqb a (Num y) = true -> a = Num y.
Proof.
  destruct a as [|x|b]; simpl; try discriminate.
  intros H. apply Z.eqb_eq in H. congruence.
Qed.

Lemma candidates_sound a k e0 s e :
  In (s, e) (candidates a k e0) ->
  0 <= e /\ 10 ^ (k - 1) <= s /\ toNumber (s * 10 ^ e) = Num a.
Proof.
  unfold candidates. destruct (Z.ltb_spec e0 0); [intros []|].
  intros Hin. apply filter_In in Hin as [Hin Hp].
  cbn [fst] in Hp.
  apply andb_true_iff in Hp as [Hp Hn]. apply andb_true_iff in Hp as [Hl _].
  apply Z.leb_le in Hl. apply number_eqb_Num in Hn.
  assert (E : e = e0)
    by (destruct Hin as [E | [E | []]]; inversion E; reflexivity).
  subst e0. repeat split; assumption.
Qed.

Lemma fold_closer_In a l : forall c, In (fold_left (closer a) l c) (c :: l).
Proof.
  induction l as [|x l IH]; intros c; cbn [fold_left]; [left; reflexivity|].
  destruct (IH (closer a c x)) as [E | Hin].
  - rewrite <- E. unfold closer.
    destruct (_ || _); [right; left | left]; reflexivity.
  - right. right. exact Hin.
Qed.

Lemma closest_In a cs c : closest a cs = Some c -> In c cs.
Proof.
  destruct cs as [|x l]; [discriminate|]. cbn [closest].
  intros E. inversion E; subst. apply fold_closer_In.
Qed.

(** What the search finds is read back as [a]. *)
Lemma shortest_sound fuel : forall k a s e,
  1 <= k ->
  shortest fuel k a = Some (s, e) ->
  0 <= e /\ 1 <= s /\ toNumber (s * 10 ^ e) = Num a.
Proof.
  induction fuel as [|f IH]; intros k a s e Hk; cbn [shortest]; [discriminate|].
  destruct (closest a _) as [c|] eqn:Ec.
  - intros E. inversion E; subst c; clear E.
    apply closest_In in Ec. apply in_app_or in Ec.
    assert (P : 0 < 10 ^ (k - 1)) by (apply Z.pow_pos_nonneg; lia).
    destruct Ec as [Hin | Hin]; apply candidates_sound in Hin;
      destruct Hin as (He & Hs & Hn); repeat split; try assumption; lia.
  - intros E. apply (IH (k + 1) a s e); [lia | exact E].
Qed.

Lemma digitsOf_app (f : nat) : forall n acc r,
  digitsOf f n acc ++ r = digitsOf f n (acc ++ r).
Proof.
  induction f as [|f IH]; intros n acc r; cbn [digitsOf]; [reflexivity|].
  destruct (n / 10 =? 0); [reflexivity|].
  rewrite IH. reflexivity.
Qed.

Lemma parseDigits_zeros (n : nat) : forall x,
  parseDigits 10 (repeat 48%N n) (Some x) = Some (x * 10 ^ Z.of_nat n).
Proof.
  induction n as [|n IH]; intros x.
  - cbn. f_equal. lia.
  - cbn [repeat parseDigits]. change (digitValue 48) with (Some 0).
    change (0 <? 10) with true. cbv iota. cbn [acc_value].
    rewrite IH, Nat2Z.inj_succ, Z.pow_succ_r by lia. apply f_equal. ring.
Qed.

Lemma parseDigits_decimal_zeros (s : Z) (n : nat) :
  0 <= s ->
  parseDigits 10 (decimal s ++ repeat 48%N n) None
  = Some (s * 10 ^ Z.of_nat n).
Proof.
  intros Hs. unfold decimal. rewrite digitsOf_app. cbn [app].
  destruct (parseDigits_digitsOf (Z.to_nat (Z.log2 s)) s (repeat 48%N n))
    as [k Hk].
  - split; [exact Hs|].
    rewrite Nat2Z.inj_succ, Z2Nat.id by apply Z.log2_nonneg.
    destruct (Z.eq_dec s 0) as [-> | NZ]; [reflexivity|].
    apply Z.log2_spec. lia.
  - rewrite Hk. cbn [acc_value]. rewrite parseDigits_zeros.
    apply f_equal. ring.
Qed.

Lemma zeros_digits (n : nat) : Forall isDigit (repeat 48%N n).
Proof.
  induction n; cbn [repeat]; constructor; [unfold isDigit; lia | assumption].
Qed.

(** The digits of a number below [10^j] are [j] at most. *)
Lemma digitsOf_length (f : nat) : forall n acc j,
  0 <= n < 10 ^ j -> 1 <= j ->
  Z.of_nat (length (digitsOf f n acc)) <= j + Z.of_nat (length acc).
Proof.
  induction f as [|f IH]; intros n acc j Hn Hj; cbn [digitsOf]; [lia|].
  destruct (Z.eqb_spec (n / 10) 0) as [E | NE].
  - cbn [length]. lia.
  - assert (Hj2 : 2 <= j).
    { destruct (Z.eq_dec j 1) as [-> | ]; [|lia].
      exfalso. apply NE. apply Z.div_small. change (10 ^ 1) with 10 in Hn. lia. }
    specialize (IH (n / 10) (Z.to_N (48 + n mod 10) :: acc) (j - 1)).
    cbn [length] in IH. rewrite Nat2Z.inj_succ in IH.
    assert (Hd : 0 <= n / 10 < 10 ^ (j - 1)).
    { split; [apply Z.div_pos; lia|].
      apply Z.div_lt_upper_bound; [lia|].
      replace (10 * 10 ^ (j - 1)) with (10 ^ j); [lia|].
      replace j with (Z.succ (j - 1)) at 1 by lia.
      rewrite Z.pow_succ_r by lia. reflexivity. }
    specialize (IH Hd ltac:(lia)). lia.
Qed.

Lemma decimal_length (s j : Z) :
  0 <= s < 10 ^ j -> 1 <= j -> Z.of_nat (length (decimal s)) <= j.
Proof.
  intros Hs Hj. pose proof (digitsOf_length (S (Z.to_nat (Z.log2 s))) s [] j Hs Hj).
  unfold decimal. cbn [length] in H. lia.
Qed.

Lemma toNumber_opp z y : toNumber z = Num y -> toNumber (- z) = Num (- y).
Proof.
  unfold toNumber. rewrite Z.abs_opp.
  destruct (Z.abs z <=? MAX_SAFE_INTEGER).
  - intros E; inversion E; reflexivity.
  - cbv zeta. destruct (2 ^ 1024 <=? _); [discriminate|].
    intros E. inversion E. rewrite Z.sgn_opp. f_equal. ring.
Qed.

(** Rounding does not take a number from 10^21 on below 10^21, which is a
    Number itself. *)
Lemma toNumber_above x y :
  plainLimit <= x -> toNumber x = Num y -> plainLimit <= y.
Proof.
  intros Hx. unfold toNumber.
  assert (Ha : Z.abs x = x) by (unfold plainLimit in Hx; lia). rewrite Ha.
  destruct (Z.leb_spec x MAX_SAFE_INTEGER) as [L|L];
    [unfold plainLimit, MAX_SAFE_INTEGER in *; lia|].
  assert (Hl : 69 <= Z.log2 x).
  { change 69 with (Z.log2 plainLimit). apply Z.log2_le_mono. exact Hx. }
  cbv zeta.
  set (e := Z.log2 x - 52). set (p := 2 ^ e). set (q := x / p).
  assert (Hp : 0 < p) by (apply Z.pow_pos_nonneg; lia).
  assert (K : plainLimit <= q * p).
  { destruct (Z.eq_dec (Z.log2 x) 69) as [E69 | N69].
    - assert (E17 : p = 131072) by (unfold p, e; rewrite E69; reflexivity).
      unfold q. rewrite E17.
      pose proof (Z.div_le_mono plainLimit x 131072 ltac:(lia) Hx) as D.
      change (plainLimit / 131072) with 7629394531250000 in D.
      unfold plainLimit. lia.
    - assert (X : 2 ^ Z.log2 x <= x)
        by (apply Z.log2_spec; unfold plainLimit in Hx; lia).
      assert (P : 2 ^ Z.log2 x = 4503599627370496 * p).
      { unfold p, e. change 4503599627370496 with (2 ^ 52).
        rewrite <- Z.pow_add_r by lia. f_equal. lia. }
      assert (Q : 4503599627370496 <= q).
      { unfold q. apply Z.div_le_lower_bound; [exact Hp|]. lia. }
      assert (B : 2 ^ 70 <= 2 ^ Z.log2 x) by (apply Z.pow_le_mono_r; lia).
      change (2 ^ 70) with 1180591620717411303424 in B.
      unfold plainLimit. nia. }
  match goal with
  | |- context [if ?c then (q + 1)%Z else q] => destruct c
  end;
    (destruct (2 ^ 1024 <=? _); [discriminate|];
     intros E; inversion E; subst y;
     replace (Z.sgn x) with 1 by (unfold plainLimit in Hx; lia); nia).
Qed.

Lemma parseInt_minus_digits (s : jsstring) :
  Forall isDigit s ->
  parseInt (45%N :: s) = match parseDigits 10 s None with
                         | None => NaN
                         | Some m => toNumber (-1 * m)
                         end.
Proof.
  intros Hd. unfold parseInt. cbn [trimStart].
  change (isWhiteSpace 45) with false. cbn [N.eqb Pos.eqb].
  change (45 =? 45)%N with true. cbv iota.
  rewrite (digits_not_hex _ Hd). reflexivity.
Qed.

(** The text of a Number below 10^21 is made of digits, which read back as
    the Number. *)
Lemma numberDigits_plain (a : Z) :
  0 <= a -> toNumber a = Num a -> a < plainLimit ->
  Forall isDigit (numberDigits a)
  /\ exists m, parseDigits 10 (numberDigits a) None = Some m
               /\ toNumber m = Num a.
Proof.
  intros H0 Hn Hl.
  assert (D : Forall isDigit (decimal a)
              /\ exists m, parseDigits 10 (decimal a) None = Some m
                           /\ toNumber m = Num a).
  { split; [apply decimal_digits|].
    exists a. split; [apply parseDigits_decimal; exact H0 | exact Hn]. }
  unfold numberDigits. destruct (a <=? MAX_SAFE_INTEGER); [exact D|].
  unfold largeDigits.
  destruct (shortest 17 1 a) as [[s e]|] eqn:Es; [|exact D].
  destruct (shortest_sound 17 1 a s e ltac:(lia) Es) as (He & Hs & Hr).
  assert (Hb : s * 10 ^ e < plainLimit).
  { destruct (Z.lt_ge_cases (s * 10 ^ e) plainLimit) as [B | B]; [exact B|].
    pose proof (toNumber_above _ _ B Hr). lia. }
  assert (Pe : 0 < 10 ^ e) by (apply Z.pow_pos_nonneg; lia).
  assert (He21 : e < 21).
  { apply (Z.pow_lt_mono_r_iff 10); [lia | lia |].
    change (10 ^ 21) with plainLimit. nia. }
  assert (Hs21 : s < 10 ^ (21 - e)).
  { apply (Z.mul_lt_mono_pos_r (10 ^ e)); [exact Pe|].
    rewrite <- Z.pow_add_r by lia.
    replace (21 - e + e) with 21 by lia.
    change (10 ^ 21) with plainLimit. exact Hb. }
  pose proof (decimal_length s (21 - e) ltac:(lia) ltac:(lia)) as Hlen.
  replace (e + Z.of_nat (length (decimal s)) <=? 21) with true
    by (symmetry; apply Z.leb_le; lia).
  split.
  - apply Forall_app. split; [apply decimal_digits | apply zeros_digits].
  - exists (s * 10 ^ e). split; [|exact Hr].
    rewrite parseDigits_decimal_zeros by lia.
    rewrite Z2Nat.id by exact He. reflexivity.
Qed.

(** What [toString] writes for a Number below 10^21, [parseInt] reads
    back. *)
Lemma parseInt_toString (v : Z) :
  plain v -> parseInt (toString v) = Num v.
Proof.
  intros [Hn Hl]. unfold toString. rewrite Hn.
  destruct (Z.ltb_spec v 0) as [Neg | Pos].
  - pose proof (toNumber_opp _ _ Hn) as Hn'.
    destruct (numberDigits_plain (- v) ltac:(lia) Hn' ltac:(lia))
      as [Hd [m [Hp Hm]]].
    rewrite (parseInt_minus_digits _ Hd), Hp.
    replace (-1 * m) with (- m) by lia.
    rewrite (toNumber_opp _ _ Hm). f_equal. lia.
  - destruct (numberDigits_plain v Pos Hn ltac:(lia)) as [Hd [m [Hp Hm]]].
    rewrite (parseInt_digits _ Hd (numberDigits_nonempty v)), Hp. exact Hm.
Qed.

Lemma safe_plain (v : Z) : Z.abs v <= MAX_SAFE_INTEGER -> plain v.
Proof.
  intros H. split; [apply toNumber_safe; exact H|].
  unfold MAX_SAFE_INTEGER in H. unfold plainLimit. lia.
Qed.

(** ** The object store *)

Lemma sweep_filter (rs : list (Z * D2Item)) : sweep rs = filter is_custom rs.
Proof.
  induction rs as [|[k item] rs IH]; simpl; [reflexivity|].
  unfold is_custom at 1; simpl.
  destruct (truthy_flag (isCustom item)); simpl; rewrite IH; reflexivity.
Qed.

Lemma insert_record_In k v rs x :
  In x (insert_record k v rs) <-> x = (k, v) \/ In x rs.
Proof.
  induction rs as [|[k' v'] rs IH]; simpl.
  - intuition congruence.
  - destruct (k <? k'); simpl; [intuition congruence|].
    rewrite IH. intuition congruence.
Qed.

Lemma insert_record_filter (f : Z * D2Item -> bool) k v rs :
  f (k, v) = false -> filter f (insert_record k v rs) = filter f rs.
Proof.
  intros Hf. induction rs as [|[k' v'] rs IH]; simpl.
  - rewrite Hf. reflexivity.
  - destruct (k <? k'); simpl.
    + rewrite Hf. reflexivity.
    + rewrite IH. reflexivity.
Qed.

Lemma insert_record_last k v rs :
  Forall (fun r => fst r < k) rs -> insert_record k v rs = rs ++ [(k, v)].
Proof.
  induction 1 as [|[k' v'] rs Hk _ IH]; simpl; [reflexivity|].
  simpl in Hk. replace (k <? k') with false by (symmetry; apply Z.ltb_ge; lia).
  rewrite IH. reflexivity.
Qed.

Lemma has_key_In k rs : has_key k rs = true <-> In k (map fst rs).
Proof.
  unfold has_key. rewrite existsb_exists, in_map_iff. split.
  - intros [r [Hr E]]. apply Z.eqb_eq in E. eauto.
  - intros [r [E Hr]]. exists r. split; [exact Hr | apply Z.eqb_eq; exact E].
Qed.

Lemma ahead_true st : ahead st = true -> generator_ahead st.
Proof.
  unfold ahead, generator_ahead. rewrite forallb_forall, Forall_forall.
  intros H r Hr. apply Z.ltb_lt. exact (H r Hr).
Qed.

(** While the generator has a number to give, every key is below it. *)
Lemma ahead_below st :
  generator_ahead st -> keyGenerator st <= maxKey ->
  Forall (fun r => fst r < keyGenerator st) (records st).
Proof.
  unfold generator_ahead. intros H Hm.
  rewrite Forall_forall in *. intros r Hr. specialize (H r Hr). lia.
Qed.

Lemma ahead_no_key st :
  generator_ahead st -> keyGenerator st <= maxKey ->
  ~ In (keyGenerator st) (keys st).
Proof.
  unfold keys. intros H Hm Hin.
  apply in_map_iff in Hin as [r [E Hr]].
  pose proof (ahead_below _ H Hm) as B.
  rewrite Forall_forall in B. specialize (B r Hr). lia.
Qed.

(** An item without [id] is stored at the end, under the generator's number,
    while the generator has one to give. *)
Lemma store_add_fresh st item :
  generator_ahead st -> id item = None -> keyGenerator st <= maxKey ->
  store_add st item
  = Success (keyGenerator st,
        mkStore (records st ++ [(keyGenerator st, set_id (keyGenerator st) item)])
                (keyGenerator st + 1)).
Proof.
  intros H Hid Hm. unfold store_add. rewrite Hid.
  replace (maxKey <? keyGenerator st) with false
    by (symmetry; apply Z.ltb_ge; exact Hm).
  destruct (has_key (keyGenerator st) (records st)) eqn:Hk.
  - apply has_key_In in Hk. exfalso. exact (ahead_no_key _ H Hm Hk).
  - rewrite insert_record_last by (apply ahead_below; assumption). reflexivity.
Qed.

(** The key of an item without [id] is the generator's number, and there is
    none past [maxKey]. *)
Lemma store_add_generated st item k st' :
  id item = None -> store_add st item = Success (k, st') ->
  keyGenerator st <= maxKey /\ k = keyGenerator st.
Proof.
  unfold store_add. intros Hid E. rewrite Hid in E.
  destruct (Z.ltb_spec maxKey (keyGenerator st)); [discriminate|].
  destruct (has_key _ _); [discriminate|].
  inversion E; subst. split; [assumption | reflexivity].
Qed.

(** What [store.add] leaves when it succeeds. *)
Lemma store_add_success st item k st' :
  store_add st item = Success (k, st') ->
  has_key k (records st) = false
  /\ records st' = insert_record k (set_id k item) (records st)
  /\ keyGenerator st <= keyGenerator st'
  /\ Z.min k maxKey < keyGenerator st'
  /\ match id item with Some i => k = i | None => k = keyGenerator st end.
Proof.
  unfold store_add. intros E. destruct (id item) as [i|].
  - destruct (has_key i (records st)) eqn:Hk; [discriminate|].
    inversion E; subst; clear E. cbn [records keyGenerator].
    repeat split; try assumption;
      destruct (Z.leb_spec (keyGenerator st) (Z.min k maxKey)); lia.
  - destruct (Z.ltb_spec maxKey (keyGenerator st)); [discriminate|].
    destruct (has_key _ (records st)) eqn:Hk; [discriminate|].
    inversion E; subst; clear E. cbn [records keyGenerator].
    repeat split; try assumption; lia.
Qed.

Lemma store_add_ahead st item k st' :
  generator_ahead st -> store_add st item = Success (k, st') ->
  generator_ahead st'.
Proof.
  intros H E.
  destruct (store_add_success _ _ _ _ E) as (_ & Er & Hg & Hk & _).
  unfold generator_ahead in *. rewrite Er.
  apply Forall_forall. intros r Hr. apply insert_record_In in Hr.
  rewrite Forall_forall in H.
  destruct Hr as [-> | Hr]; cbn [fst]; [exact Hk|].
  specialize (H r Hr). lia.
Qed.

Lemma sweep_ahead rs kg :
  generator_ahead (mkStore rs kg) -> generator_ahead (mkStore (sweep rs) kg).
Proof.
  unfold generator_ahead; simpl. rewrite sweep_filter. intros H.
  rewrite Forall_forall in *. intros r Hr. apply filter_In in Hr as [Hr _]. auto.
Qed.

Lemma addSeeds_ahead newItems : forall st st',
  generator_ahead st -> addSeeds st newItems = Success st' ->
  generator_ahead st'.
Proof.
  induction newItems as [|item rest IH]; simpl; intros st st' H E.
  - inversion E; subst; exact H.
  - destruct (store_add st (set_isCustom false item)) as [[k st1]|e] eqn:Ea;
      [|discriminate].
    eapply IH; [|exact E]. eapply store_add_ahead; eauto.
Qed.

Lemma addItem_ahead d item :
  generator_ahead (idb d) -> generator_ahead (idb (snd (addItem d item))).
Proof.
  intros H. unfold addItem. destruct (negb (db d)); [exact H|].
  destruct (store_add (idb d) (set_isCustom true item)) as [[k st]|e] eqn:E;
    simpl; [|exact H].
  eapply store_add_ahead; eauto.
Qed.

Lemma updateSeedData_ahead d newItems :
  generator_ahead (idb d) ->
  generator_ahead (idb (snd (updateSeedData d newItems))).
Proof.
  intros H. unfold updateSeedData. destruct (negb (db d)); [exact H|].
  destruct newItems as [items|]; [|exact H].
  destruct (addSeeds _ items) as [st|e] eqn:E; simpl; [|exact H].
  eapply addSeeds_ahead; [|exact E].
  apply sweep_ahead. destruct (idb d); exact H.
Qed.

Lemma addItem_db d item : db (snd (addItem d item)) = db d.
Proof.
  unfold addItem. destruct (negb (db d)); [reflexivity|].
  destruct (store_add _ _) as [[k st]|e]; reflexivity.
Qed.

Lemma updateSeedData_db d newItems :
  db (snd (updateSeedData d newItems)) = db d.
Proof.
  unfold updateSeedData. destruct (negb (db d)); [reflexivity|].
  destruct newItems as [items|]; [|reflexivity].
  destruct (addSeeds _ _) as [st|e]; reflexivity.
Qed.

(** Every state the database goes through is connected and has its key
    generator ahead of its keys. *)
Lemma reachable_invariant d :
  reachable d -> db d = true /\ generator_ahead (idb d).
Proof.
  induction 1 as [|d item _ [Hc Ha]|d newItems _ [Hc Ha]].
  - split; [reflexivity | constructor].
  - split; [rewrite addItem_db; exact Hc | apply addItem_ahead; exact Ha].
  - split; [rewrite updateSeedData_db; exact Hc
           | apply updateSeedData_ahead; exact Ha].
Qed.

(** *** Keys stay in order *)

Lemma insert_record_keys k v rs x :
  In x (map fst (insert_record k v rs)) <-> x = k \/ In x (map fst rs).
Proof.
  rewrite !in_map_iff. split.
  - intros [r [E Hr]]. apply insert_record_In in Hr as [-> | Hr].
    + left. symmetry. exact E.
    + right. exists r. split; assumption.
  - intros [-> | [r [E Hr]]].
    + exists (k, v). split; [reflexivity | apply insert_record_In; auto].
    + exists r. split; [exact E | apply insert_record_In; auto].
Qed.

Lemma insert_record_sorted k v rs :
  StronglySorted Z.lt (map fst rs) ->
  ~ In k (map fst rs) ->
  StronglySorted Z.lt (map fst (insert_record k v rs)).
Proof.
  induction rs as [|[k' v'] rs IH]; intros Hs Hn.
  - simpl. repeat constructor.
  - cbn [map fst] in Hs, Hn. inversion Hs as [|? ? Hs' Hlt]; subst.
    cbn [insert_record]. destruct (Z.ltb_spec k k') as [L | G].
    + cbn [map fst]. constructor; [exact Hs|].
      constructor; [exact L|].
      rewrite Forall_forall in *. intros x Hx. specialize (Hlt x Hx). lia.
    + cbn [map fst]. constructor.
      * apply IH; [exact Hs' | intros Hin; apply Hn; right; exact Hin].
      * apply Forall_forall. intros x Hx.
        apply insert_record_keys in Hx as [-> | Hx].
        -- assert (k <> k') by (intros ->; apply Hn; left; reflexivity). lia.
        -- rewrite Forall_forall in Hlt. exact (Hlt x Hx).
Qed.

Lemma filter_keys_sorted (f : Z * D2Item -> bool) rs :
  StronglySorted Z.lt (map fst rs) ->
  StronglySorted Z.lt (map fst (filter f rs)).
Proof.
  induction rs as [|r rs IH]; intros Hs; [constructor|].
  cbn [map] in Hs. inversion Hs as [|? ? Hs' Hlt]; subst.
  cbn [filter]. destruct (f r); [|exact (IH Hs')].
  cbn [map]. constructor; [exact (IH Hs')|].
  rewrite Forall_forall in *. intros x Hx. apply Hlt.
  apply in_map_iff in Hx as [r' [E Hr']]. apply filter_In in Hr' as [Hr' _].
  apply in_map_iff. eauto.
Qed.

Lemma store_add_in_order st item k st' :
  keys_in_order st -> keyed st ->
  store_add st item = Success (k, st') ->
  keys_in_order st' /\ keyed st'.
Proof.
  unfold keys_in_order, keyed, keys. intros Hs Hk E.
  destruct (store_add_success _ _ _ _ E) as (Hh & Er & _).
  rewrite Er. split.
  - apply insert_record_sorted; [exact Hs|].
    intros Hin. apply has_key_In in Hin. congruence.
  - apply Forall_forall. intros r Hr.
    apply insert_record_In in Hr as [-> | Hr]; [reflexivity|].
    rewrite Forall_forall in Hk. exact (Hk r Hr).
Qed.

Lemma addSeeds_in_order newItems : forall st st',
  keys_in_order st -> keyed st ->
  addSeeds st newItems = Success st' ->
  keys_in_order st' /\ keyed st'.
Proof.
  induction newItems as [|item rest IH]; simpl; intros st st' Hs Hk E.
  - inversion E; subst; auto.
  - destruct (store_add st (set_isCustom false item)) as [[k st1]|e] eqn:Ea;
      [|discriminate].
    destruct (store_add_in_order _ _ _ _ Hs Hk Ea) as [Hs1 Hk1].
    exact (IH st1 st' Hs1 Hk1 E).
Qed.

Lemma addItem_in_order d item :
  keys_in_order (idb d) -> keyed (idb d) ->
  keys_in_order (idb (snd (addItem d item)))
  /\ keyed (idb (snd (addItem d item))).
Proof.
  intros Hs Hk. unfold addItem. destruct (negb (db d)); [auto|].
  destruct (store_add (idb d) (set_isCustom true item)) as [[k st]|e] eqn:E;
    cbn [snd idb]; [|auto].
  exact (store_add_in_order _ _ _ _ Hs Hk E).
Qed.

Lemma updateSeedData_in_order d newItems :
  keys_in_order (idb d) -> keyed (idb d) ->
  keys_in_order (idb (snd (updateSeedData d newItems)))
  /\ keyed (idb (snd (updateSeedData d newItems))).
Proof.
  intros Hs Hk. unfold updateSeedData. destruct (negb (db d)); [auto|].
  destruct newItems as [items|]; [|auto].
  destruct (addSeeds _ items) as [st|e] eqn:E; cbn [snd idb]; [|auto].
  apply (addSeeds_in_order items _ st) in E; [exact E| |].
  - unfold keys_in_order, keys. cbn [records]. rewrite sweep_filter.
    apply filter_keys_sorted. exact Hs.
  - unfold keyed in *. cbn [records]. rewrite sweep_filter.
    rewrite Forall_forall in *. intros r Hr.
    apply filter_In in Hr as [Hr _]. auto.
Qed.

(** In every state the database goes through, [getAll] enumerates the
    records by ascending key, no key occurs twice and each record carries
    its key. *)
Lemma reachable_in_order d :
  reachable d ->
  keys_in_order (idb d) /\ keyed (idb d) /\ NoDup (keys (idb d)).
Proof.
  intros H.
  assert (G : keys_in_order (idb d) /\ keyed (idb d)).
  { induction H as [|d item _ [Hs Hk]|d newItems _ [Hs Hk]].
    - split; constructor.
    - apply addItem_in_order; assumption.
    - apply updateSeedData_in_order; assumption. }
  destruct G as [Hs Hk]. split; [exact Hs|]. split; [exact Hk|].
  unfold keys_in_order in Hs. clear -Hs.
  induction Hs as [|k ks _ IH Hlt]; constructor; [|exact IH].
  intros Hin. rewrite Forall_forall in Hlt. specialize (Hlt k Hin). lia.
Qed.

(** *** Numbered batches *)

Lemma numbered_keys b items : forall k x,
  In x (map fst (numbered b k items)) ->
  k <= x < k + Z.of_nat (length items).
Proof.
  induction items as [|item rest IH]; intros k x; simpl; [tauto|].
  intros [<- | Hin]; [lia|]. apply IH in Hin. lia.
Qed.

Lemma numbered_NoDup b items : forall k, NoDup (map fst (numbered b k items)).
Proof.
  induction items as [|item rest IH]; intros k; simpl; constructor.
  - intros Hin. apply numbered_keys in Hin. lia.
  - apply IH.
Qed.

Lemma numbered_length b items : forall k,
  length (numbered b k items) = length items.
Proof.
  induction items as [|item rest IH]; intros k; simpl; [|rewrite IH]; reflexivity.
Qed.

Lemma numbered_values b items : forall k,
  map snd (numbered b k items)
  = map (fun p => set_id (fst p) (set_isCustom b (snd p)))
        (combine (map fst (numbered b k items)) items).
Proof.
  induction items as [|item rest IH]; intros k; simpl; [reflexivity|].
  rewrite <- IH. reflexivity.
Qed.

Lemma numbered_content b items : forall k,
  map (fun r => content (snd r)) (numbered b k items) = map content items.
Proof.
  induction items as [|item rest IH]; intros k; simpl; [reflexivity|].
  rewrite IH. reflexivity.
Qed.

Lemma numbered_stamped b items : forall k,
  Forall (fun r => isCustom (snd r) = Some b /\ id (snd r) = Some (fst r))
         (numbered b k items).
Proof.
  induction items as [|item rest IH]; intros k; simpl; constructor; auto.
Qed.

Lemma numbered_filter_keep b f items : forall k,
  (forall r, isCustom (snd r) = Some b -> f r = true) ->
  filter f (numbered b k items) = numbered b k items.
Proof.
  induction items as [|item rest IH]; intros k Hf; simpl; [reflexivity|].
  rewrite Hf by reflexivity. rewrite IH by exact Hf. reflexivity.
Qed.

(** A batch of items without [id], added to a store whose generator is
    ahead and has numbers for them all, lands at the end under consecutive
    keys. *)
Lemma addSeeds_numbered newItems : forall st,
  generator_ahead st ->
  Forall (fun item => id item = None) newItems ->
  keyGenerator st + Z.of_nat (length newItems) <= maxKey + 1 ->
  addSeeds st newItems
  = Success (mkStore (records st ++ numbered false (keyGenerator st) newItems)
                     (keyGenerator st + Z.of_nat (length newItems))).
Proof.
  induction newItems as [|item rest IH]; intros st Ha Hid Hm.
  - simpl. rewrite app_nil_r, Z.add_0_r. destruct st; reflexivity.
  - inversion Hid as [|? ? Hi Hrest]; subst.
    cbn [length] in Hm. rewrite Nat2Z.inj_succ in Hm.
    assert (Hf := store_add_fresh st (set_isCustom false item) Ha Hi
                    ltac:(lia)).
    cbn [addSeeds]. rewrite Hf.
    rewrite IH; [|eapply store_add_ahead; [exact Ha | exact Hf]
                 |exact Hrest
                 |cbn [keyGenerator]; lia].
    cbn [records keyGenerator numbered length]. rewrite <- app_assoc.
    rewrite Nat2Z.inj_succ. f_equal. f_equal. lia.
Qed.

(** And a batch of items without [id] that was added did land there. *)
Lemma addSeeds_numbered_inv newItems : forall st st',
  generator_ahead st ->
  Forall (fun item => id item = None) newItems ->
  addSeeds st newItems = Success st' ->
  st' = mkStore (records st ++ numbered false (keyGenerator st) newItems)
                (keyGenerator st + Z.of_nat (length newItems))
  /\ (newItems <> [] ->
      keyGenerator st + Z.of_nat (length newItems) <= maxKey + 1).
Proof.
  induction newItems as [|item rest IH]; intros st st' Ha Hid E.
  - simpl in E. inversion E; subst. split; [|congruence].
    simpl. rewrite app_nil_r, Z.add_0_r. destruct st'; reflexivity.
  - inversion Hid as [|? ? Hi Hrest]; subst.
    cbn [addSeeds] in E.
    destruct (store_add st (set_isCustom false item)) as [[k st1]|e] eqn:Ea;
      [|discriminate].
    destruct (store_add_generated st (set_isCustom false item) _ _ Hi Ea)
      as [Hm _].
    rewrite (store_add_fresh st (set_isCustom false item) Ha Hi Hm) in Ea.
    inversion Ea; subst k st1; clear Ea.
    apply IH in E; [|eapply store_add_ahead;
                      [exact Ha | apply store_add_fresh; assumption]
                    |exact Hrest].
    destruct E as [-> Hroom]. cbn [records keyGenerator numbered length] in *.
    rewrite <- app_assoc, Nat2Z.inj_succ. split.
    + f_equal. lia.
    + intros _. destruct rest as [|x rest]; [cbn [length]; lia|].
      specialize (Hroom ltac:(discriminate)). lia.
Qed.

(** ** [updateSeedData] and [addItem] *)

Lemma filter_idem {A} (f : A -> bool) (l : list A) :
  filter f (filter f l) = filter f l.
Proof.
  induction l as [|x l IH]; simpl; [reflexivity|].
  destruct (f x) eqn:E; simpl; [rewrite E, IH|]; auto.
Qed.

Lemma addSeeds_custom newItems : forall st st',
  addSeeds st newItems = Success st' ->
  filter is_custom (records st') = filter is_custom (records st).
Proof.
  induction newItems as [|item rest IH]; simpl; intros st st' E.
  - inversion E; reflexivity.
  - destruct (store_add st (set_isCustom false item)) as [[k st1]|e] eqn:Ea;
      [|discriminate].
    destruct (store_add_success _ _ _ _ Ea) as (_ & Er & _).
    apply IH in E. rewrite E, Er.
    apply insert_record_filter. reflexivity.
Qed.

Lemma updateSeedData_custom d newItems :
  filter is_custom (records (idb (snd (updateSeedData d newItems))))
  = filter is_custom (records (idb d)).
Proof.
  unfold updateSeedData. destruct (negb (db d)); [reflexivity|].
  destruct newItems as [items|]; [|reflexivity].
  destruct (addSeeds _ items) as [st|e] eqn:E; simpl; [|reflexivity].
  apply addSeeds_custom in E. rewrite E. simpl.
  rewrite sweep_filter. apply filter_idem.
Qed.

(** C1. Whatever the store holds and whatever the batch, [updateSeedData]
    removes no custom record: a record that is in the store with a truthy
    [isCustom] before the call is in the store after it, under the same key
    and with the same value, and the custom records are the same sequence
    before and after. *)
Theorem updateSeedData_keeps_custom d newItems k item :
  In (k, item) (records (idb d)) ->
  truthy_flag (isCustom item) = true ->
  In (k, item) (records (idb (snd (updateSeedData d newItems))))
  /\ filter is_custom (records (idb (snd (updateSeedData d newItems))))
     = filter is_custom (records (idb d)).
Proof.
  intros Hin Hc. split; [|apply updateSeedData_custom].
  assert (H : In (k, item) (filter is_custom (records (idb d))))
    by (apply filter_In; split; assumption).
  rewrite <- (updateSeedData_custom d newItems) in H.
  apply filter_In in H. tauto.
Qed.

Lemma updateSeedData_keeps_custom_witness :
  In (3, set_id 3 (sample "quest" "Den of Evil" (Some true)))
     (records (idb sample_db))
  /\ truthy_flag (isCustom (set_id 3 (sample "quest" "Den of Evil" (Some true))))
     = true
  /\ In (3, set_id 3 (sample "quest" "Den of Evil" (Some true)))
        (records (idb (snd (updateSeedData sample_db (ItemArray sample_batch)))))
  /\ filter is_custom
       (records (idb (snd (updateSeedData sample_db (ItemArray sample_batch)))))
     = filter is_custom (records (idb sample_db)).
Proof.
  assert (H1 : In (3, set_id 3 (sample "quest" "Den of Evil" (Some true)))
                  (records (idb sample_db)))
    by (vm_compute; right; right; left; reflexivity).
  assert (H2 : truthy_flag
                 (isCustom (set_id 3 (sample "quest" "Den of Evil" (Some true))))
               = true) by reflexivity.
  split; [exact H1|]. split; [exact H2|].
  exact (updateSeedData_keeps_custom sample_db (ItemArray sample_batch) 3 _
           H1 H2).
Defined.

Lemma filter_none {A} (f : A -> bool) (l : list A) :
  (forall x, In x l -> f x = false) -> filter f l = [].
Proof.
  induction l as [|x l IH]; simpl; intros H; [reflexivity|].
  rewrite (H x) by auto. apply IH. auto.
Qed.

(** The seed records a batch without [id] leaves, given the store the batch
    was added to. *)
Lemma numbered_seed (rs : list (Z * D2Item)) k newItems :
  filter is_seed (sweep rs ++ numbered false k newItems)
  = numbered false k newItems.
Proof.
  rewrite filter_app, sweep_filter.
  rewrite filter_none.
  - simpl. apply numbered_filter_keep.
    intros r Hr. unfold is_seed, is_custom. rewrite Hr. reflexivity.
  - intros x Hx. apply filter_In in Hx as [_ Hx].
    unfold is_seed. rewrite Hx. reflexivity.
Qed.

(** The claim C2 as the specification words it, for every batch, fails on a
    batch whose item carries an [id]: the call succeeds and the seed record
    is stored under the item's own [id], here 1, which was a key of the store
    before the call. *)
Lemma updateSeedData_reuses_key :
  exists d',
    updateSeedData sample_db (ItemArray renumbering_batch) = (Ok tt, d')
    /\ exists r,
         In r (filter is_seed (records (idb d')))
         /\ In (fst r) (keys (idb sample_db))
         /\ keyGenerator (idb sample_db) <> fst r.
Proof.
  eexists. split; [vm_compute; reflexivity|].
  eexists. split; [vm_compute; left; reflexivity|].
  split; [vm_compute; left; reflexivity | vm_compute; discriminate].
Qed.

(** C2, amended. On a connected database whose key generator is ahead of its
    keys, and for every batch of items that carry no [id]: whenever
    [updateSeedData] completes successfully, the seed records of the store
    are then exactly the batch, in order: same content, [isCustom] set to
    [false], keys taken from the key generator one after the other, none of
    which was a key of the store before; the seed records that were there
    before do not matter.  And the call does complete successfully when the
    key generator has a number for every item of the batch, which it has up
    to 2^53. *)
Theorem updateSeedData_replaces_seed d newItems :
  db d = true ->
  generator_ahead (idb d) ->
  Forall (fun item => id item = None) newItems ->
  (forall d',
     updateSeedData d (ItemArray newItems) = (Ok tt, d') ->
     filter is_seed (records (idb d'))
     = numbered false (keyGenerator (idb d)) newItems
     /\ map (fun r => content (snd r)) (filter is_seed (records (idb d')))
        = map content newItems
     /\ Forall (fun r => isCustom (snd r) = Some false
                         /\ id (snd r) = Some (fst r)
                         /\ ~ In (fst r) (keys (idb d)))
               (filter is_seed (records (idb d'))))
  /\ (keyGenerator (idb d) + Z.of_nat (length newItems) <= maxKey + 1 ->
      exists d', updateSeedData d (ItemArray newItems) = (Ok tt, d')).
Proof.
  intros Hc Ha Hid.
  assert (Hs : generator_ahead
                 (mkStore (sweep (records (idb d))) (keyGenerator (idb d))))
    by (apply sweep_ahead; destruct (idb d); exact Ha).
  split.
  - intros d' E. unfold updateSeedData in E. rewrite Hc in E. cbn [negb] in E.
    destruct (addSeeds _ newItems) as [st|e] eqn:Es; [|discriminate].
    inversion E; subst d'; clear E.
    destruct (addSeeds_numbered_inv _ _ _ Hs Hid Es) as [-> Hroom].
    cbn [idb records keyGenerator] in *.
    rewrite numbered_seed. split; [reflexivity|]. split.
    + apply numbered_content.
    + apply Forall_forall. intros r Hr.
      pose proof (numbered_stamped false newItems (keyGenerator (idb d))) as Hst.
      rewrite Forall_forall in Hst. destruct (Hst r Hr) as [H1 H2].
      split; [exact H1|]. split; [exact H2|].
      intros Hk.
      assert (NE : newItems <> []) by (intros ->; destruct Hr).
      specialize (Hroom NE).
      apply (in_map fst) in Hr. apply numbered_keys in Hr.
      unfold keys in Hk. apply in_map_iff in Hk as [r' [Er' Hr']].
      unfold generator_ahead in Ha. rewrite Forall_forall in Ha.
      specialize (Ha r' Hr'). lia.
  - intros Hroom. unfold updateSeedData. rewrite Hc. cbn [negb].
    rewrite addSeeds_numbered by assumption.
    eexists. reflexivity.
Qed.

Lemma sample_db_reachable : reachable sample_db.
Proof. unfold sample_db. repeat constructor. Qed.

Lemma updateSeedData_replaces_seed_witness :
  db sample_db = true
  /\ generator_ahead (idb sample_db)
  /\ Forall (fun item => id item = None) sample_batch
  /\ keyGenerator (idb sample_db) + Z.of_nat (length sample_batch)
     <= maxKey + 1
  /\ exists d',
       updateSeedData sample_db (ItemArray sample_batch) = (Ok tt, d')
       /\ filter is_seed (records (idb d'))
          = numbered false (keyGenerator (idb sample_db)) sample_batch
       /\ map (fun r => content (snd r)) (filter is_seed (records (idb d')))
          = map content sample_batch
       /\ Forall (fun r => isCustom (snd r) = Some false
                           /\ id (snd r) = Some (fst r)
                           /\ ~ In (fst r) (keys (idb sample_db)))
                 (filter is_seed (records (idb d'))).
Proof.
  assert (H1 : db sample_db = true) by reflexivity.
  assert (H2 : generator_ahead (idb sample_db))
    by (apply ahead_true; vm_compute; reflexivity).
  assert (H3 : Forall (fun item => id item = None) sample_batch)
    by (repeat constructor).
  assert (H4 : keyGenerator (idb sample_db) + Z.of_nat (length sample_batch)
               <= maxKey + 1) by (vm_compute; discriminate).
  split; [exact H1|]. split; [exact H2|]. split; [exact H3|].
  split; [exact H4|].
  destruct (updateSeedData_replaces_seed sample_db sample_batch H1 H2 H3)
    as [P1 P2].
  destruct (P2 H4) as [d' E]. exists d'.
  split; [exact E | exact (P1 d' E)].
Defined.

(** *** Any batch, any store *)

Lemma insert_record_perm k v rs :
  Permutation (insert_record k v rs) ((k, v) :: rs).
Proof.
  induction rs as [|[k' v'] rs IH]; simpl; [reflexivity|].
  destruct (k <? k'); [reflexivity|].
  rewrite IH. apply perm_swap.
Qed.

Lemma filter_perm {A} (f : A -> bool) (l l' : list A) :
  Permutation l l' -> Permutation (filter f l) (filter f l').
Proof.
  induction 1 as [|x l l' _ IH|x y l|l l' l'' _ IH1 _ IH2]; simpl.
  - constructor.
  - destruct (f x); [constructor|]; exact IH.
  - destruct (f x), (f y); try reflexivity. apply perm_swap.
  - etransitivity; eassumption.
Qed.

Lemma addSeeds_seed_content newItems : forall st st',
  addSeeds st newItems = Success st' ->
  Permutation
    (map (fun r => content (snd r)) (filter is_seed (records st')))
    (map (fun r => content (snd r)) (filter is_seed (records st))
     ++ map content newItems).
Proof.
  induction newItems as [|item rest IH]; simpl; intros st st' E.
  - inversion E; subst. rewrite app_nil_r. reflexivity.
  - destruct (store_add st (set_isCustom false item)) as [[k st1]|e] eqn:Ea;
      [|discriminate].
    destruct (store_add_success _ _ _ _ Ea) as (_ & Er & _).
    apply IH in E. rewrite E, Er. clear E IH.
    apply Permutation_trans with
      (map (fun r => content (snd r))
           ((k, set_id k (set_isCustom false item))
            :: filter is_seed (records st))
       ++ map content rest).
    + apply Permutation_app_tail, Permutation_map.
      change (?x :: filter is_seed ?l) with (filter is_seed (x :: l)).
      apply filter_perm, insert_record_perm.
    + exact (Permutation_middle _ _ (content item)).
Qed.

Lemma addSeeds_seed_flag newItems : forall st st',
  addSeeds st newItems = Success st' ->
  Forall (fun r => isCustom (snd r) = Some false) (filter is_seed (records st)) ->
  Forall (fun r => isCustom (snd r) = Some false) (filter is_seed (records st')).
Proof.
  induction newItems as [|item rest IH]; simpl; intros st st' E H.
  - inversion E; subst; exact H.
  - destruct (store_add st (set_isCustom false item)) as [[k st1]|e] eqn:Ea;
      [|discriminate].
    destruct (store_add_success _ _ _ _ Ea) as (_ & Er & _).
    apply IH in E; [exact E|]. rewrite Er.
    rewrite Forall_forall in *. intros r Hr.
    apply filter_In in Hr as [Hr Hs].
    apply insert_record_In in Hr as [-> | Hr]; [reflexivity|].
    apply H. apply filter_In. split; assumption.
Qed.

(** Whatever the batch holds, and whatever keys its items carry, a call of
    [updateSeedData] that succeeds leaves as seed records the batch and
    nothing else, by content, all marked [isCustom = false]. *)
Lemma updateSeedData_seed_content d newItems u d' :
  updateSeedData d (ItemArray newItems) = (Ok u, d') ->
  Permutation
    (map (fun r => content (snd r)) (filter is_seed (records (idb d'))))
    (map content newItems)
  /\ Forall (fun r => isCustom (snd r) = Some false)
            (filter is_seed (records (idb d'))).
Proof.
  unfold updateSeedData. destruct (negb (db d)); [discriminate|].
  destruct (addSeeds _ newItems) as [st|e] eqn:E; [|discriminate].
  intros H. inversion H; subst; clear H. cbn [idb].
  assert (N : filter is_seed (sweep (records (idb d))) = []).
  { rewrite sweep_filter. apply filter_none.
    intros x Hx. apply filter_In in Hx as [_ Hx].
    unfold is_seed. rewrite Hx. reflexivity. }
  split.
  - apply addSeeds_seed_content in E. cbn [records] in E.
    rewrite N in E. exact E.
  - apply (addSeeds_seed_flag newItems _ st E). cbn [records].
    rewrite N. constructor.
Qed.

(** Whatever the item carries, a call of [addItem] that succeeds stores the
    item marked custom under the key it returns, which was not in the store,
    and keeps every record that was there. *)
Lemma addItem_stores d item k d' :
  addItem d item = (Ok k, d') ->
  ~ In k (keys (idb d))
  /\ In (k, set_id k (set_isCustom true item)) (records (idb d'))
  /\ (forall r, In r (records (idb d)) -> In r (records (idb d')))
  /\ (id item = None -> k = keyGenerator (idb d)).
Proof.
  unfold addItem. destruct (negb (db d)); [discriminate|].
  destruct (store_add (idb d) (set_isCustom true item)) as [[k0 st]|e] eqn:Ea;
    [|discriminate].
  destruct (store_add_success _ _ _ _ Ea) as (Hh & Er & _ & _ & Hi).
  intros H. inversion H; subst; clear H. cbn [idb]. rewrite Er.
  split; [intros Hin; apply has_key_In in Hin;
          rewrite Hh in Hin; discriminate|].
  split; [apply insert_record_In; left; reflexivity|].
  split; [intros r Hr; apply insert_record_In; right; exact Hr|].
  cbn [id set_isCustom] in Hi. intros Hn. rewrite Hn in Hi. exact Hi.
Qed.

(** A sequence of [addItem] calls with items that carry no [id] appends the
    items, marked custom, under consecutive keys, while the key generator has
    numbers for them. *)
Lemma addItems_numbered items : forall d,
  db d = true ->
  generator_ahead (idb d) ->
  Forall (fun item => id item = None) items ->
  keyGenerator (idb d) + Z.of_nat (length items) <= maxKey + 1 ->
  addItems d items
  = (Ok (map fst (numbered true (keyGenerator (idb d)) items)),
     mkDb true
          (mkStore (records (idb d) ++ numbered true (keyGenerator (idb d)) items)
                   (keyGenerator (idb d) + Z.of_nat (length items)))).
Proof.
  induction items as [|item rest IH]; intros d Hc Ha Hid Hm.
  - simpl. rewrite app_nil_r, Z.add_0_r.
    destruct d as [c [rs kg]]; simpl in *; subst; reflexivity.
  - inversion Hid as [|? ? Hi Hrest]; subst.
    cbn [length] in Hm. rewrite Nat2Z.inj_succ in Hm.
    cbn [addItems]. unfold addItem. rewrite Hc. cbn [negb].
    pose proof (store_add_fresh (idb d) (set_isCustom true item) Ha Hi
                  ltac:(lia)) as Ef.
    rewrite Ef.
    rewrite IH; [|reflexivity|eapply store_add_ahead; [exact Ha | exact Ef]
                 |exact Hrest|cbn [idb keyGenerator]; lia].
    cbn [idb records keyGenerator numbered length map fst].
    rewrite <- app_assoc, Nat2Z.inj_succ.
    f_equal. f_equal. f_equal. lia.
Qed.

Lemma addItems_ahead items : forall d,
  generator_ahead (idb d) -> generator_ahead (idb (snd (addItems d items))).
Proof.
  induction items as [|item rest IH]; intros d Ha; [exact Ha|].
  pose proof (addItem_ahead d item Ha) as Ha1.
  cbn [addItems].
  destruct (addItem d item) as [[k|e|] d1]; cbn [snd] in *;
    [|exact Ha1|exact Ha1].
  specialize (IH d1 Ha1).
  destruct (addItems d1 rest) as [[ks|e|] d2]; exact IH.
Qed.

Lemma numbered_ids b items : forall k,
  map (fun r => id (snd r)) (numbered b k items)
  = map Some (map fst (numbered b k items)).
Proof.
  induction items as [|item rest IH]; intros k; simpl; [reflexivity|].
  rewrite IH. reflexivity.
Qed.

Lemma combine_fst_snd {A B} (l : list (A * B)) :
  combine (map fst l) (map snd l) = l.
Proof.
  induction l as [|[a b] l IH]; simpl; [|rewrite IH]; reflexivity.
Qed.

(** The claim C7 as the specification words it, for every sequence of calls,
    fails in two ways.  A call with a record that carries the [id] of a
    stored record is rejected and stores nothing.  And on a store that holds
    the key 2^53 the key generator has no number left, so that a call with a
    record without [id] is rejected too. *)
Lemma addItem_rejected :
  addItems sample_db clashing_batch = (Err ConstraintError, sample_db)
  /\ db full_db = true
  /\ generator_ahead (idb full_db)
  /\ addItems full_db sample_batch = (Err ConstraintError, full_db).
Proof.
  split; [vm_compute; reflexivity|]. split; [reflexivity|].
  split; [apply ahead_true; vm_compute; reflexivity
         | vm_compute; reflexivity].
Qed.

(** C7, amended. On a connected database whose key generator is ahead of its
    keys and has a number for every call, which it has up to 2^53, every
    sequence of [addItem] calls with items that carry no [id] succeeds; the
    keys returned are pairwise distinct and none was a key of the store
    before; the records are stored after the old ones, in call order, each
    under the key returned for it, with that key in [id], with [isCustom] set
    to [true] whatever the caller had put there, and with the content of the
    item; [getAll] returns the old records followed by these. *)
Theorem addItems_custom d items :
  db d = true ->
  generator_ahead (idb d) ->
  Forall (fun item => id item = None) items ->
  keyGenerator (idb d) + Z.of_nat (length items) <= maxKey + 1 ->
  exists ks d' stored,
    addItems d items = (Ok ks, d')
    /\ length ks = length items
    /\ NoDup ks
    /\ (forall k, In k ks -> ~ In k (keys (idb d)))
    /\ records (idb d') = records (idb d) ++ combine ks stored
    /\ getAll (idb d') = getAll (idb d) ++ stored
    /\ map id stored = map Some ks
    /\ map content stored = map content items
    /\ Forall (fun item => isCustom item = Some true) stored
    /\ db d' = true
    /\ generator_ahead (idb d').
Proof.
  intros Hc Ha Hid Hm.
  pose proof (addItems_numbered items d Hc Ha Hid Hm) as E.
  exists (map fst (numbered true (keyGenerator (idb d)) items)).
  eexists. exists (map snd (numbered true (keyGenerator (idb d)) items)).
  split; [exact E|].
  split; [rewrite length_map; apply numbered_length|].
  split; [apply numbered_NoDup|].
  split.
  { intros k Hk Hin. apply numbered_keys in Hk.
    unfold keys in Hin. apply in_map_iff in Hin as [r [Er Hr]].
    pose proof (ahead_below _ Ha) as B.
    destruct items as [|i items]; [simpl in Hk; lia|].
    cbn [length] in Hm. rewrite Nat2Z.inj_succ in Hm.
    specialize (B ltac:(lia)). rewrite Forall_forall in B.
    specialize (B r Hr). lia. }
  split; [cbn [idb records]; rewrite combine_fst_snd; reflexivity|].
  split; [unfold getAll; cbn [idb records]; rewrite map_app; reflexivity|].
  split; [rewrite map_map; apply numbered_ids|].
  split; [rewrite map_map; apply numbered_content|].
  split.
  { apply Forall_forall. intros x Hx. apply in_map_iff in Hx as [r [<- Hr]].
    pose proof (numbered_stamped true items (keyGenerator (idb d))) as Hs.
    rewrite Forall_forall in Hs. exact (proj1 (Hs r Hr)). }
  split; [reflexivity|].
  pose proof (addItems_ahead items d Ha) as H. rewrite E in H. exact H.
Qed.

Lemma addItems_custom_witness :
  db sample_db = true
  /\ generator_ahead (idb sample_db)
  /\ Forall (fun item => id item = None)
            [sample "merc" "Act 2" (Some false); sample "rune" "Ral Rune" None]
  /\ keyGenerator (idb sample_db) + 2 <= maxKey + 1
  /\ exists ks d' stored,
       addItems sample_db [sample "merc" "Act 2" (Some false);
                           sample "rune" "Ral Rune" None] = (Ok ks, d')
       /\ length ks = 2%nat
       /\ NoDup ks
       /\ (forall k, In k ks -> ~ In k (keys (idb sample_db)))
       /\ records (idb d') = records (idb sample_db) ++ combine ks stored
       /\ getAll (idb d') = getAll (idb sample_db) ++ stored
       /\ map id stored = map Some ks
       /\ map content stored
          = map content [sample "merc" "Act 2" (Some false);
                         sample "rune" "Ral Rune" None]
       /\ Forall (fun item => isCustom item = Some true) stored
       /\ db d' = true
       /\ generator_ahead (idb d').
Proof.
  assert (H1 : db sample_db = true) by reflexivity.
  assert (H2 : generator_ahead (idb sample_db))
    by (apply ahead_true; vm_compute; reflexivity).
  assert (H3 : Forall (fun item => id item = None)
                 [sample "merc" "Act 2" (Some false);
                  sample "rune" "Ral Rune" None])
    by (repeat constructor).
  assert (H4 : keyGenerator (idb sample_db) + 2 <= maxKey + 1)
    by (vm_compute; discriminate).
  split; [exact H1|]. split; [exact H2|]. split; [exact H3|].
  split; [exact H4|].
  exact (addItems_custom sample_db _ H1 H2 H3 H4).
Defined.

(** C9. While [this.db] is unset, which is the case until [connect] has
    succeeded, [addItem], [searchItems] and [updateSeedData] are each
    rejected with "DB not initialized" and leave the database, and so the
    stored records, as they were; a [connect] that fails leaves [this.db]
    unset. *)
Theorem not_connected_rejected toLowerCase d item keyword category newItems :
  db d = false ->
  addItem d item = (Err NotInitialized, d)
  /\ searchItems toLowerCase d keyword category = (Err NotInitialized, d)
  /\ updateSeedData d newItems = (Err NotInitialized, d)
  /\ connect false d = (Err OpenError, d).
Proof.
  intros H. unfold addItem, searchItems, updateSeedData, connect.
  rewrite H. repeat split.
Qed.

Lemma not_connected_rejected_witness :
  db (mkDb false (idb sample_db)) = false
  /\ addItem (mkDb false (idb sample_db)) (sample "rune" "Ral Rune" None)
     = (Err NotInitialized, mkDb false (idb sample_db))
  /\ searchItems asciiToLowerCase (mkDb false (idb sample_db))
       (lit "rune") (lit "all")
     = (Err NotInitialized, mkDb false (idb sample_db))
  /\ updateSeedData (mkDb false (idb sample_db)) (ItemArray sample_batch)
     = (Err NotInitialized, mkDb false (idb sample_db))
  /\ connect false (mkDb false (idb sample_db))
     = (Err OpenError, mkDb false (idb sample_db)).
Proof.
  split; [reflexivity|].
  apply (not_connected_rejected asciiToLowerCase (mkDb false (idb sample_db))).
  reflexivity.
Defined.

(** ** [searchItems] and [handleSearch] *)

Section SearchProperties.

Variable toLowerCase : jsstring -> jsstring.

Lemma filter_all {A} (f : A -> bool) (l : list A) :
  (forall x, f x = true) -> filter f l = l.
Proof.
  intros H. induction l as [|x l IH]; simpl; [|rewrite H, IH]; reflexivity.
Qed.

Lemma filter_twice {A} (f g : A -> bool) (l : list A) :
  filter f (filter g l) = filter (fun x => g x && f x) l.
Proof.
  induction l as [|x l IH]; simpl; [reflexivity|].
  destruct (g x); simpl; [destruct (f x)|]; rewrite IH; reflexivity.
Qed.

Lemma searchItems_filter d keyword category :
  db d = true ->
  searchItems toLowerCase d keyword category
  = (Ok (filter (keeps toLowerCase keyword category) (getAll (idb d))), d).
Proof.
  intros Hc. unfold searchItems, keeps. rewrite Hc. cbn [negb].
  f_equal. f_equal.
  destruct (str_eqb category (lit "all")); cbn [negb orb andb];
    destruct (truthy_string keyword); cbn [negb orb andb].
  - reflexivity.
  - symmetry. apply filter_all. reflexivity.
  - apply filter_twice.
  - apply filter_ext. intros x. rewrite andb_true_r. reflexivity.
Qed.

Lemma matchesKeyword_spec keyword item :
  matchesKeyword toLowerCase (toLowerCase keyword) item = true
  <-> keyword_matches toLowerCase keyword item.
Proof.
  unfold matchesKeyword, keyword_matches.
  rewrite !orb_true_iff, !includes_spec.
  assert (T : match tags item with
              | Some ts =>
                  existsb (fun tag =>
                    includes (toLowerCase tag) (toLowerCase keyword)) ts
              | None => false
              end = true
              <-> exists tag,
                    In tag (match tags item with Some ts => ts | None => [] end)
                    /\ contains (toLowerCase tag) (toLowerCase keyword)).
  { destruct (tags item) as [ts|].
    - rewrite existsb_exists. split; intros [tag [Hin Hm]]; exists tag;
        (split; [exact Hin | apply includes_spec; exact Hm]).
    - split; [discriminate | intros [tag [[] _]]]. }
  rewrite T. tauto.
Qed.

Lemma keeps_spec keyword category item :
  keeps toLowerCase keyword category item = true
  <-> search_selects toLowerCase keyword category item.
Proof.
  unfold keeps, search_selects.
  rewrite andb_true_iff, !orb_true_iff, !str_eqb_eq, matchesKeyword_spec.
  assert (K : negb (truthy_string keyword) = true <-> keyword = []).
  { destruct keyword; simpl; split; congruence. }
  rewrite K.
  destruct (str_eqb category (lit "all")) eqn:Ec.
  - apply str_eqb_eq in Ec.
    destruct keyword as [|c r].
    + split; [intros _; split; intros H; congruence | auto].
    + split.
      * intros [_ [H | H]]; [discriminate|]. split; [congruence | auto].
      * intros [_ H]. split; [auto | right; apply H; discriminate].
  - assert (Nc : category <> lit "all").
    { intros E. apply str_eqb_eq in E. congruence. }
    destruct keyword as [|c r].
    + split.
      * intros [[H | H] _]; [congruence|]. split; [auto | congruence].
      * intros [H _]. auto.
    + split.
      * intros [[H | H] [H' | H']]; try congruence. split; auto.
      * intros [H H']. split; [right; auto | right; apply H'; discriminate].
Qed.


(** With no keyword and the wildcard category, the search is [getAll]. *)
Lemma searchItems_all d :
  db d = true ->
  searchItems toLowerCase d [] (lit "all") = (Ok (getAll (idb d)), d).
Proof.
  intros Hc. unfold searchItems. rewrite Hc. reflexivity.
Qed.

(** C8. When what the search box holds trims to the empty string, as a
    string of white space does, [handleSearch] shows what it shows for an
    empty search box; on a connected database that is every record of the
    current category, with no test on the text. *)
Theorem handleSearch_blank value w :
  trim value = [] ->
  results (dom (handleSearch toLowerCase (typed value w)))
  = results (dom (handleSearch toLowerCase (typed [] w)))
  /\ (db (database w) = true ->
      results (dom (handleSearch toLowerCase (typed value w)))
      = Some (if str_eqb (currentCategory w) (lit "all")
              then getAll (idb (database w))
              else filter (fun item => str_eqb (type item) (currentCategory w))
                          (getAll (idb (database w))))).
Proof.
  intros Ht. unfold handleSearch, typed.
  cbn [dom with_dom searchInput database currentCategory].
  rewrite Ht. change (trim []) with (@nil N).
  split.
  - destruct (searchItems toLowerCase (database w) [] (currentCategory w))
      as [[items|e|] d']; reflexivity.
  - intros Hc. unfold searchItems. rewrite Hc. cbn [negb truthy_string].
    cbn [dom with_dom with_database results].
    destruct (str_eqb (currentCategory w) (lit "all")); reflexivity.
Qed.

End SearchProperties.


Lemma handleSearch_blank_witness :
  trim (lit "   ") = []
  /\ results (dom (handleSearch asciiToLowerCase
                     (typed (lit "   ") sample_world)))
     = results (dom (handleSearch asciiToLowerCase (typed [] sample_world)))
  /\ (db (database sample_world) = true ->
      results (dom (handleSearch asciiToLowerCase
                      (typed (lit "   ") sample_world)))
      = Some (if str_eqb (currentCategory sample_world) (lit "all")
              then getAll (idb (database sample_world))
              else filter (fun item =>
                             str_eqb (type item) (currentCategory sample_world))
                          (getAll (idb (database sample_world))))).
Proof.
  split; [reflexivity|].
  apply (handleSearch_blank asciiToLowerCase (lit "   ") sample_world).
  reflexivity.
Defined.

(** [searchItems] itself does not trim: given the blank keyword it looks for
    the blanks in the text, and it is [handleSearch] that trims first. *)
Example searchItems_does_not_trim :
  fst (searchItems asciiToLowerCase sample_db (lit "   ") (lit "all")) = Ok []
  /\ fst (searchItems asciiToLowerCase sample_db [] (lit "all"))
     = Ok (getAll (idb sample_db))
  /\ length (getAll (idb sample_db)) = 3%nat.
Proof. vm_compute. repeat split. Qed.

(** The search of the spec's examples: any casing of the keyword finds the
    two runes and not the quest. *)
Example search_rune_any_case :
  map name (match fst (searchItems asciiToLowerCase sample_db
                         (lit "RuNe") (lit "all")) with
            | Ok items => items
            | _ => []
            end)
  = [lit "El Rune"; lit "Eld Rune"].
Proof. vm_compute. reflexivity. Qed.

(** ** The version gate and the reconciler *)

Lemma currentVersion_unset : currentVersion None = Num 0.
Proof. reflexivity. Qed.

Lemma currentVersion_empty : currentVersion (Some []) = Num 0.
Proof. reflexivity. Qed.

Lemma currentVersion_set s :
  truthy_string s = true -> currentVersion (Some s) = parseInt s.
Proof. unfold currentVersion. intros ->. reflexivity. Qed.

Lemma currentVersion_toString v :
  plain v -> currentVersion (Some (toString v)) = Num v.
Proof.
  intros H. rewrite currentVersion_set by apply toString_truthy.
  apply parseInt_toString. exact H.
Qed.

Lemma js_gt_Num v w : js_gt (Num v) (Num w) = true <-> v > w.
Proof. simpl. rewrite Z.gtb_ltb, Z.ltb_lt. lia. Qed.

Lemma js_gt_NaN a : js_gt a NaN = false.
Proof. destruct a as [|z|[|]]; reflexivity. Qed.

(** An open gate puts the version above the number in the slot, when the
    slot reads as an integer. *)
Lemma gate_above v w :
  js_gt (Num v) (currentVersion (localStorage w)) = true ->
  forall wz, watermark w = Some wz -> wz < v.
Proof.
  unfold watermark. intros Hg wz Hw.
  destruct (currentVersion (localStorage w)) as [|z|b]; try discriminate.
  inversion Hw; subst. apply js_gt_Num in Hg. lia.
Qed.

(** What [updateSeedData] gives when it is not resolved: the state it
    found. *)
Lemma updateSeedData_unresolved d newItems :
  (forall u, fst (updateSeedData d newItems) <> Ok u) ->
  snd (updateSeedData d newItems) = d.
Proof.
  unfold updateSeedData. destruct (negb (db d)); [reflexivity|].
  destruct newItems as [items|]; [|reflexivity].
  destruct (addSeeds _ items); [|reflexivity].
  intros H. exfalso. exact (H tt eq_refl).
Qed.

(** [updateSeedData] is never settled exactly when the database is connected
    and [newItems] is no array. *)
Lemma updateSeedData_pending d newItems :
  fst (updateSeedData d newItems) = Pending
  <-> db d = true /\ newItems = NotAnArray.
Proof.
  unfold updateSeedData. destruct (db d); cbn [negb].
  - destruct newItems as [items|].
    + destruct (addSeeds _ items); split;
        [discriminate | intros [_ H]; discriminate
        | discriminate | intros [_ H]; discriminate].
    + split; [auto | reflexivity].
  - split; [discriminate | intros [H _]; discriminate].
Qed.

(** The flow of [src/app.ts] obeys the same gate: a run leaves the slot
    alone, or has applied a data file whose version is greater than the
    number in the slot and writes that version. *)
Lemma watermark_step_ts data w :
  localStorage (checkAndLoadData_ts data w) = localStorage w
  \/ exists v newItems d',
       data = Body (v, newItems)
       /\ updateSeedData (database w) newItems = (Ok tt, d')
       /\ database (checkAndLoadData_ts data w) = d'
       /\ (forall wz, watermark w = Some wz -> wz < v)
       /\ localStorage (checkAndLoadData_ts data w) = Some (toString v)
       /\ (plain v -> watermark (checkAndLoadData_ts data w) = Some v).
Proof.
  unfold checkAndLoadData_ts.
  destruct data as [| | |[v newItems]]; try (left; reflexivity).
  cbn [emit localStorage database].
  destruct (js_gt (Num v) (currentVersion (localStorage w))) eqn:Hg;
    [|left; reflexivity].
  destruct (updateSeedData (database w) newItems) as [[[]|e|] d'] eqn:Hu;
    [|left; reflexivity|left; reflexivity].
  right. exists v, newItems, d'.
  split; [reflexivity|]. split; [exact Hu|]. split; [reflexivity|].
  split; [exact (gate_above v w Hg)|]. split; [reflexivity|].
  intros Hs. unfold watermark. cbn [localStorage emit setItem].
  rewrite currentVersion_toString by exact Hs. reflexivity.
Qed.

Section Reconciler.

Variable toLowerCase : jsstring -> jsstring.

Lemma searchItems_state d keyword category :
  snd (searchItems toLowerCase d keyword category) = d.
Proof. unfold searchItems. destruct (negb (db d)); reflexivity. Qed.

(** [handleSearch] refills the result container and nothing else. *)
Lemma handleSearch_frame w :
  database (handleSearch toLowerCase w) = database w
  /\ currentCategory (handleSearch toLowerCase w) = currentCategory w
  /\ localStorage (handleSearch toLowerCase w) = localStorage w
  /\ trace (handleSearch toLowerCase w) = trace w
  /\ loadingOverlay (dom (handleSearch toLowerCase w)) = loadingOverlay (dom w)
  /\ loadingText (dom (handleSearch toLowerCase w)) = loadingText (dom w)
  /\ searchInput (dom (handleSearch toLowerCase w)) = searchInput (dom w).
Proof.
  unfold handleSearch.
  pose proof (searchItems_state (database w) (trim (searchInput (dom w)))
                (currentCategory w)) as E.
  destruct (searchItems toLowerCase (database w) (trim (searchInput (dom w)))
              (currentCategory w)) as [[items|e|] d]; simpl in E; subst d;
    repeat split.
Qed.

Lemma showLoading_overlay m w :
  hidden (loadingOverlay (dom (showLoading m w)))
  = hidden (loadingOverlay (dom w)).
Proof.
  unfold showLoading. simpl.
  destruct (loadingOverlay (dom w)) as [h|] eqn:E; simpl;
    [destruct (loadingText (dom w)); simpl; [|rewrite E]|rewrite E];
    reflexivity.
Qed.

Lemma hideLoading_overlay w :
  loadingOverlay (dom (hideLoading w)) = hidden (loadingOverlay (dom w)).
Proof.
  unfold hideLoading. simpl.
  destruct (loadingOverlay (dom w)) as [h|] eqn:E; simpl; [|rewrite E];
    reflexivity.
Qed.

Lemma hideLoading_frame w :
  database (hideLoading w) = database w
  /\ localStorage (hideLoading w) = localStorage w
  /\ trace (hideLoading w) = HideLoading :: trace w.
Proof. repeat split. Qed.

(** *** The five ways a run can go *)

Lemma run_check_failed' net w :
  (forall v, versionFile net <> Body v) ->
  checkAndLoadData_run toLowerCase net w
  = (emit ErrorCheckFailed (emit (Fetch VersionFile) w), true).
Proof.
  intros H. unfold checkAndLoadData_run.
  destruct (versionFile net) as [| | |v]; try reflexivity.
  exfalso. exact (H v eq_refl).
Qed.

Lemma run_check_failed net w :
  (forall v, versionFile net <> Body v) ->
  checkAndLoadData toLowerCase net w = emit ErrorCheckFailed (emit (Fetch VersionFile) w).
Proof.
  intros H. unfold checkAndLoadData. rewrite run_check_failed' by exact H.
  reflexivity.
Qed.

Lemma run_up_to_date' net w v :
  versionFile net = Body v ->
  js_gt (Num v) (currentVersion (localStorage w)) = false ->
  checkAndLoadData_run toLowerCase net w
  = (emit LogUpToDate
       (emit (LogVersions (currentVersion (localStorage w)) v)
          (emit (Fetch VersionFile) w)), true).
Proof.
  intros Hv Hg. unfold checkAndLoadData_run. rewrite Hv.
  cbn [emit localStorage]. rewrite Hg. reflexivity.
Qed.

Lemma run_up_to_date net w v :
  versionFile net = Body v ->
  js_gt (Num v) (currentVersion (localStorage w)) = false ->
  checkAndLoadData toLowerCase net w
  = emit LogUpToDate
      (emit (LogVersions (currentVersion (localStorage w)) v)
         (emit (Fetch VersionFile) w)).
Proof.
  intros Hv Hg. unfold checkAndLoadData.
  rewrite (run_up_to_date' net w v Hv Hg). reflexivity.
Qed.

Lemma downloading_frame v w :
  database (downloading v w) = database w
  /\ localStorage (downloading v w) = localStorage w
  /\ currentCategory (downloading v w) = currentCategory w
  /\ trace (downloading v w)
     = [Fetch DataFile; ShowLoading (Downloading v);
        LogVersions (currentVersion (localStorage w)) v; Fetch VersionFile]
       ++ trace w
  /\ hidden (loadingOverlay (dom (downloading v w)))
     = hidden (loadingOverlay (dom w)).
Proof.
  unfold downloading. repeat split.
  cbn [emit dom]. rewrite showLoading_overlay. reflexivity.
Qed.

Lemma run_committed' net w v newItems u d' :
  versionFile net = Body v ->
  js_gt (Num v) (currentVersion (localStorage w)) = true ->
  dataFile net = Body newItems ->
  updateSeedData (database w) newItems = (Ok u, d') ->
  checkAndLoadData_run toLowerCase net w
  = (hideLoading
       (handleSearch toLowerCase
          (setItem (toString v)
             (with_database d' (showLoading Optimizing (downloading v w))))),
     true).
Proof.
  intros Hv Hg Hd Hu. unfold checkAndLoadData_run. rewrite Hv.
  cbn [emit localStorage]. rewrite Hg, Hd.
  cbn [showLoading emit with_dom database]. rewrite Hu. reflexivity.
Qed.

Lemma run_committed net w v newItems u d' :
  versionFile net = Body v ->
  js_gt (Num v) (currentVersion (localStorage w)) = true ->
  dataFile net = Body newItems ->
  updateSeedData (database w) newItems = (Ok u, d') ->
  checkAndLoadData toLowerCase net w
  = hideLoading
      (handleSearch toLowerCase
         (setItem (toString v)
            (with_database d' (showLoading Optimizing (downloading v w))))).
Proof.
  intros Hv Hg Hd Hu. unfold checkAndLoadData.
  rewrite (run_committed' net w v newItems u d' Hv Hg Hd Hu). reflexivity.
Qed.

Lemma run_failed' net w v :
  versionFile net = Body v ->
  js_gt (Num v) (currentVersion (localStorage w)) = true ->
  refresh_fails net w ->
  exists w1,
    checkAndLoadData_run toLowerCase net w
    = (hideLoading (updateFailed w1), true)
    /\ (w1 = downloading v w \/ w1 = showLoading Optimizing (downloading v w)).
Proof.
  intros Hv Hg Hf. unfold checkAndLoadData_run. rewrite Hv.
  cbn [emit localStorage]. rewrite Hg.
  unfold refresh_fails in Hf.
  destruct (dataFile net) as [| | |newItems].
  - eexists; split; [reflexivity | left; reflexivity].
  - eexists; split; [reflexivity | left; reflexivity].
  - eexists; split; [reflexivity | right; reflexivity].
  - destruct Hf as [e He].
    cbn [showLoading emit with_dom database].
    assert (Ed : snd (updateSeedData (database w) newItems) = database w).
    { apply updateSeedData_unresolved. intros u. rewrite He. discriminate. }
    destruct (updateSeedData (database w) newItems) as [[u|e'|] d] eqn:Hu;
      [discriminate| |discriminate].
    cbn [snd] in Ed. subst d. eexists; split; [|right; reflexivity].
    unfold downloading, showLoading, with_database, emit, with_dom.
    cbn. reflexivity.
Qed.

Lemma run_failed net w v :
  versionFile net = Body v ->
  js_gt (Num v) (currentVersion (localStorage w)) = true ->
  refresh_fails net w ->
  exists w1,
    checkAndLoadData toLowerCase net w = hideLoading (updateFailed w1)
    /\ (w1 = downloading v w \/ w1 = showLoading Optimizing (downloading v w)).
Proof.
  intros Hv Hg Hf. unfold checkAndLoadData.
  destruct (run_failed' net w v Hv Hg Hf) as [w1 [-> H]].
  exists w1. split; [reflexivity | exact H].
Qed.

(** The run that never comes to an end: the gate is open, the data file has
    no array of items and the database is connected.  The world is left as
    it is when [updateSeedData] is called. *)
Lemma run_stuck net w v :
  versionFile net = Body v ->
  js_gt (Num v) (currentVersion (localStorage w)) = true ->
  dataFile net = Body NotAnArray ->
  db (database w) = true ->
  checkAndLoadData_run toLowerCase net w
  = (showLoading Optimizing (downloading v w), false).
Proof.
  intros Hv Hg Hd Hc. unfold checkAndLoadData_run. rewrite Hv.
  cbn [emit localStorage]. rewrite Hg, Hd.
  cbn [showLoading emit with_dom database].
  unfold updateSeedData. rewrite Hc. cbn [negb].
  unfold downloading, showLoading, with_database, emit, with_dom.
  cbn. reflexivity.
Qed.

(** What becomes of a refresh: it fails, it goes through, or it is never
    settled. *)
Lemma refresh_outcome net w :
  refresh_fails net w
  \/ (exists newItems u d',
        dataFile net = Body newItems
        /\ updateSeedData (database w) newItems = (Ok u, d'))
  \/ (dataFile net = Body NotAnArray /\ db (database w) = true).
Proof.
  unfold refresh_fails.
  destruct (dataFile net) as [| | |newItems]; auto.
  destruct (updateSeedData (database w) newItems) as [[u|e|] d'] eqn:E.
  - right. left. eauto.
  - left. exists e. reflexivity.
  - right. right.
    destruct (proj1 (updateSeedData_pending (database w) newItems)) as [Hc ->];
      [rewrite E; reflexivity|].
    split; [reflexivity | exact Hc].
Qed.

(** A run comes to an end unless it is stuck. *)
Lemma settles_iff net w :
  settles toLowerCase net w = false
  <-> gate_opens net (localStorage w) = true
      /\ dataFile net = Body NotAnArray
      /\ db (database w) = true.
Proof.
  unfold settles, gate_opens.
  destruct (versionFile net) as [| | |v] eqn:Hv;
    try (rewrite run_check_failed' by (rewrite Hv; discriminate);
         split; [discriminate | intros [H _]; discriminate]).
  destruct (js_gt (Num v) (currentVersion (localStorage w))) eqn:Hg.
  - destruct (refresh_outcome net w)
      as [Hf | [[newItems [u [d' [Hd Hu]]]] | [Hd Hc]]].
    + destruct (run_failed' net w v Hv Hg Hf) as [w1 [-> _]].
      split; [discriminate|]. intros [_ [Hd Hc]].
      unfold refresh_fails in Hf. rewrite Hd in Hf. destruct Hf as [e He].
      unfold updateSeedData in He. rewrite Hc in He. discriminate.
    + rewrite (run_committed' net w v newItems u d' Hv Hg Hd Hu).
      split; [discriminate|]. intros [_ [Hd' Hc]].
      rewrite Hd in Hd'. inversion Hd'; subst.
      unfold updateSeedData in Hu. rewrite Hc in Hu. discriminate.
    + rewrite (run_stuck net w v Hv Hg Hd Hc). tauto.
  - rewrite (run_up_to_date' net w v Hv Hg).
    split; [discriminate | intros [H _]; discriminate].
Qed.

(** Once the gate has opened, the data file is requested, whatever happens
    afterwards. *)
Lemma run_open_trace net w v :
  versionFile net = Body v ->
  js_gt (Num v) (currentVersion (localStorage w)) = true ->
  exists mid,
    trace (checkAndLoadData toLowerCase net w)
    = mid ++ trace (downloading v w).
Proof.
  intros Hv Hg.
  destruct (refresh_outcome net w)
    as [Hf | [[newItems [u [d' [Hd Hu]]]] | [Hd Hc]]].
  - destruct (run_failed net w v Hv Hg Hf) as [w1 [-> [-> | ->]]].
    + exists [HideLoading; AlertUpdateFailed; ErrorUpdateFailed]. reflexivity.
    + exists [HideLoading; AlertUpdateFailed; ErrorUpdateFailed;
              ShowLoading Optimizing].
      reflexivity.
  - rewrite (run_committed net w v newItems u d' Hv Hg Hd Hu).
    exists [HideLoading; ShowLoading Optimizing].
    destruct (hideLoading_frame
                (handleSearch toLowerCase
                   (setItem (toString v)
                      (with_database d'
                         (showLoading Optimizing (downloading v w))))))
      as [_ [_ ->]].
    destruct (handleSearch_frame
                (setItem (toString v)
                   (with_database d' (showLoading Optimizing (downloading v w)))))
      as [_ [_ [_ [-> _]]]].
    reflexivity.
  - unfold checkAndLoadData. rewrite (run_stuck net w v Hv Hg Hd Hc).
    exists [ShowLoading Optimizing]. reflexivity.
Qed.

(** C3. When the version file gives version [v], the run starts a refresh if
    and only if [v] is greater than the number [w] read from the slot; when
    [v] is equal to [w] or smaller, the database, the slot and the page are
    left as they were; and with the slot unset the number read is 0, so that
    the run refreshes exactly when [v > 0]. *)
Theorem version_gate net w v :
  versionFile net = Body v ->
  exists evs,
    trace (checkAndLoadData toLowerCase net w) = evs ++ trace w
    /\ (forall wz,
          currentVersion (localStorage w) = Num wz ->
          (refreshing v evs <-> v > wz)
          /\ (v <= wz ->
              database (checkAndLoadData toLowerCase net w) = database w
              /\ localStorage (checkAndLoadData toLowerCase net w)
                 = localStorage w
              /\ dom (checkAndLoadData toLowerCase net w) = dom w))
    /\ (localStorage w = None ->
        currentVersion (localStorage w) = Num 0
        /\ (refreshing v evs <-> v > 0)).
Proof.
  intros Hv.
  assert (G : exists evs,
            trace (checkAndLoadData toLowerCase net w) = evs ++ trace w
            /\ forall wz,
                 currentVersion (localStorage w) = Num wz ->
                 (refreshing v evs <-> v > wz)
                 /\ (v <= wz ->
                     database (checkAndLoadData toLowerCase net w) = database w
                     /\ localStorage (checkAndLoadData toLowerCase net w)
                        = localStorage w
                     /\ dom (checkAndLoadData toLowerCase net w) = dom w)).
  { destruct (js_gt (Num v) (currentVersion (localStorage w))) eqn:Hg.
    - destruct (run_open_trace net w v Hv Hg) as [mid Ht].
      destruct (downloading_frame v w) as [_ [_ [_ [Hd _]]]].
      exists (mid
              ++ [Fetch DataFile; ShowLoading (Downloading v);
                  LogVersions (currentVersion (localStorage w)) v;
                  Fetch VersionFile]).
      split.
      + rewrite Ht, Hd. rewrite <- app_assoc. reflexivity.
      + intros wz Hw. rewrite Hw in Hg. apply js_gt_Num in Hg.
        split; [|lia].
        split; [intros _; exact Hg|]. intros _. unfold refreshing.
        split; apply in_or_app; right; simpl; auto.
    - rewrite (run_up_to_date net w v Hv Hg).
      exists [LogUpToDate; LogVersions (currentVersion (localStorage w)) v;
              Fetch VersionFile].
      split; [reflexivity|].
      intros wz Hw. rewrite Hw in Hg.
      assert (Hle : ~ v > wz).
      { intros H. apply js_gt_Num in H. congruence. }
      split.
      + unfold refreshing. simpl.
        split; [intros [[H|[H|[H|[]]]] _]; discriminate | lia].
      + intros _. repeat split. }
  destruct G as [evs [Ht Hw]]. exists evs. split; [exact Ht|].
  split; [exact Hw|].
  intros Hn. rewrite Hn. split; [reflexivity|].
  apply Hw. rewrite Hn. reflexivity.
Qed.

(** X27. When the gate has opened and the refresh does not go through,
    because the data file cannot be had or because [updateSeedData] is
    rejected, the run comes to an end, with [hideLoading], which leaves the
    overlay hidden;
    before that it shows the alert, after the overlay was shown for the new
    version; the slot keeps its value; and the database holds the records it
    held, so its seed records are the same and a search answers as before. *)
Theorem failed_refresh net w v :
  versionFile net = Body v ->
  js_gt (Num v) (currentVersion (localStorage w)) = true ->
  refresh_fails net w ->
  exists shown,
    trace (checkAndLoadData toLowerCase net w)
    = HideLoading :: AlertUpdateFailed :: ErrorUpdateFailed
      :: shown ++ trace w
    /\ In (ShowLoading (Downloading v)) shown
    /\ loadingOverlay (dom (checkAndLoadData toLowerCase net w))
       = hidden (loadingOverlay (dom w))
    /\ localStorage (checkAndLoadData toLowerCase net w) = localStorage w
    /\ database (checkAndLoadData toLowerCase net w) = database w
    /\ filter is_seed
         (records (idb (database (checkAndLoadData toLowerCase net w))))
       = filter is_seed (records (idb (database w)))
    /\ (forall keyword category,
          searchItems toLowerCase
            (database (checkAndLoadData toLowerCase net w)) keyword category
          = searchItems toLowerCase (database w) keyword category)
    /\ settles toLowerCase net w = true.
Proof.
  intros Hv Hg Hf.
  destruct (run_failed' net w v Hv Hg Hf) as [w1 [E Hw1]].
  destruct (downloading_frame v w) as [Hdb [Hls [_ [Htr Hov]]]].
  assert (F : exists shown,
            trace w1 = shown ++ trace w
            /\ In (ShowLoading (Downloading v)) shown
            /\ hidden (loadingOverlay (dom w1)) = hidden (loadingOverlay (dom w))
            /\ localStorage w1 = localStorage w
            /\ database w1 = database w).
  { destruct Hw1 as [-> | ->].
    - eexists. split; [exact Htr|]. split; [simpl; auto|].
      split; [exact Hov|]. split; assumption.
    - exists (ShowLoading Optimizing
              :: [Fetch DataFile; ShowLoading (Downloading v);
                  LogVersions (currentVersion (localStorage w)) v;
                  Fetch VersionFile]).
      split; [cbn [showLoading emit trace with_dom]; rewrite Htr; reflexivity|].
      split; [simpl; auto|].
      split; [rewrite showLoading_overlay; exact Hov|].
      split; assumption. }
  destruct F as [shown [Ft [Fi [Fo [Fl Fd]]]]].
  unfold settles, checkAndLoadData. rewrite E. cbn [fst snd].
  assert (D : database (hideLoading (updateFailed w1)) = database w)
    by exact Fd.
  exists shown. rewrite D.
  split; [cbn [hideLoading updateFailed emit trace with_dom];
          rewrite Ft; reflexivity|].
  split; [exact Fi|].
  split; [rewrite hideLoading_overlay; exact Fo|].
  split; [exact Fl|].
  repeat split.
Qed.

(** C5. The claim fails on a data file without [items].  When the gate has
    opened, the database is connected and the data file has no array of
    items, [updateSeedData] is never settled and the run never comes to an
    end: the last thing it does is to show the overlay, which stays shown on
    a page that has one; no alert is shown and [hideLoading] is not called.
    The slot and the database are as they were. *)
Theorem refresh_never_settles net w v :
  versionFile net = Body v ->
  js_gt (Num v) (currentVersion (localStorage w)) = true ->
  dataFile net = Body NotAnArray ->
  db (database w) = true ->
  fst (updateSeedData (database w) NotAnArray) = Pending
  /\ settles toLowerCase net w = false
  /\ trace (checkAndLoadData toLowerCase net w)
     = [ShowLoading Optimizing; Fetch DataFile; ShowLoading (Downloading v);
        LogVersions (currentVersion (localStorage w)) v; Fetch VersionFile]
       ++ trace w
  /\ (forall h m,
        loadingOverlay (dom w) = Some h -> loadingText (dom w) = Some m ->
        loadingOverlay (dom (checkAndLoadData toLowerCase net w)) = Some false)
  /\ localStorage (checkAndLoadData toLowerCase net w) = localStorage w
  /\ database (checkAndLoadData toLowerCase net w) = database w.
Proof.
  intros Hv Hg Hd Hc.
  split; [apply updateSeedData_pending; auto|].
  unfold settles, checkAndLoadData.
  rewrite (run_stuck net w v Hv Hg Hd Hc). cbn [fst snd].
  split; [reflexivity|]. split; [reflexivity|].
  split; [|split; reflexivity].
  intros h m Ho Hm. unfold downloading, showLoading.
  cbn [emit with_dom dom loadingOverlay loadingText].
  rewrite Ho, Hm. cbn [loadingOverlay loadingText]. reflexivity.
Qed.

(** One run either leaves the slot alone, or has applied the data file of a
    version greater than the number in the slot and writes that version,
    which reads back as itself when it is below 10^21. *)
Lemma watermark_step net w :
  localStorage (checkAndLoadData toLowerCase net w) = localStorage w
  \/ exists v newItems d',
       versionFile net = Body v
       /\ dataFile net = Body newItems
       /\ updateSeedData (database w) newItems = (Ok tt, d')
       /\ database (checkAndLoadData toLowerCase net w) = d'
       /\ (forall wz, watermark w = Some wz -> wz < v)
       /\ localStorage (checkAndLoadData toLowerCase net w)
          = Some (toString v)
       /\ (plain v ->
           watermark (checkAndLoadData toLowerCase net w) = Some v).
Proof.
  destruct (versionFile net) as [| | |v] eqn:Hv;
    try (left; rewrite run_check_failed by (rewrite Hv; discriminate);
         reflexivity).
  destruct (js_gt (Num v) (currentVersion (localStorage w))) eqn:Hg.
  - destruct (refresh_outcome net w)
      as [Hf | [[newItems [u [d' [Hd Hu]]]] | [Hd Hc]]].
    + left. destruct (run_failed net w v Hv Hg Hf) as [w1 [-> [-> | ->]]];
        reflexivity.
    + right. destruct u.
      exists v, newItems, d'.
      rewrite (run_committed net w v newItems tt d' Hv Hg Hd Hu).
      destruct (handleSearch_frame
                  (setItem (toString v)
                     (with_database d'
                        (showLoading Optimizing (downloading v w)))))
        as [Fd [_ [Fl _]]].
      assert (L : localStorage
                    (hideLoading
                       (handleSearch toLowerCase
                          (setItem (toString v)
                             (with_database d'
                                (showLoading Optimizing (downloading v w))))))
                  = Some (toString v)).
      { destruct (hideLoading_frame
                    (handleSearch toLowerCase
                       (setItem (toString v)
                          (with_database d'
                             (showLoading Optimizing (downloading v w))))))
          as [_ [-> _]].
        rewrite Fl. reflexivity. }
      split; [reflexivity|]. split; [exact Hd|]. split; [exact Hu|].
      split; [exact Fd|]. split; [exact (gate_above v w Hg)|].
      split; [exact L|].
      intros Hs. unfold watermark.
      rewrite L, currentVersion_toString by exact Hs. reflexivity.
    + left. unfold checkAndLoadData.
      rewrite (run_stuck net w v Hv Hg Hd Hc). reflexivity.
  - left. rewrite (run_up_to_date net w v Hv Hg). reflexivity.
Qed.

(** The claim C6 as the specification words it, for every run, fails when
    the version file gives 10^21, which is a Number: the version is greater
    than the 2 in the slot, the data file is applied, and the slot is then
    written with the text of that number, [1e+21], in which [parseInt]
    reads 1. *)
Lemma watermark_drops :
  versionFile huge_remote = Body 1000000000000000000000
  /\ toNumber 1000000000000000000000 = Num 1000000000000000000000
  /\ watermark sample_world = Some 2
  /\ localStorage (checkAndLoadData asciiToLowerCase huge_remote sample_world)
     = Some (lit "1e+21")
  /\ watermark (checkAndLoadData asciiToLowerCase huge_remote sample_world)
     = Some 1.
Proof. vm_compute. repeat split. Qed.

(** C6, amended. Across any number of runs in which the version the server
    gives is below 10^21 in absolute value, the number read from the slot
    does not decrease.  With the slot unset the number read is 0.  A run,
    whatever the version, changes the slot only when [updateSeedData] has
    succeeded on the fetched data file, and it then writes the text of the
    fetched version, which is greater than the number the slot held, and
    which reads back as itself when it is below 10^21. *)
Theorem watermark_monotone nets w wz :
  watermark w = Some wz ->
  Forall plain_version nets ->
  (exists wz', watermark (reconcile toLowerCase nets w) = Some wz' /\ wz <= wz')
  /\ currentVersion None = Num 0
  /\ (forall net w0,
        localStorage (checkAndLoadData toLowerCase net w0) = localStorage w0
        \/ exists v newItems d',
             versionFile net = Body v
             /\ dataFile net = Body newItems
             /\ updateSeedData (database w0) newItems = (Ok tt, d')
             /\ database (checkAndLoadData toLowerCase net w0) = d'
             /\ (forall wz0, watermark w0 = Some wz0 -> wz0 < v)
             /\ localStorage (checkAndLoadData toLowerCase net w0)
                = Some (toString v)
             /\ (plain v ->
                 watermark (checkAndLoadData toLowerCase net w0) = Some v)).
Proof.
  intros Hw Hs. split; [|split; [reflexivity | apply watermark_step]].
  revert w wz Hw. induction Hs as [|net rest Hn _ IH]; intros w wz Hw.
  - exists wz. split; [exact Hw | lia].
  - cbn [reconcile].
    destruct (watermark_step net w)
      as [Same | [v [newItems [d' [Hv [_ [_ [_ [Hlt [_ H1]]]]]]]]]].
    + destruct (IH (checkAndLoadData toLowerCase net w) wz) as [wz' [E Hle]].
      { unfold watermark in *. rewrite Same. exact Hw. }
      exists wz'. split; [exact E | exact Hle].
    + specialize (Hlt wz Hw). specialize (H1 (Hn v Hv)).
      destruct (IH (checkAndLoadData toLowerCase net w) v H1) as [wz' [E Hle]].
      exists wz'. split; [exact E | lia].
Qed.

(** A run on a slot that reads as [NaN] stops at the gate. *)
Lemma corrupted_step net w :
  currentVersion (localStorage w) = NaN ->
  exists evs,
    trace (checkAndLoadData toLowerCase net w) = evs ++ trace w
    /\ Forall quiet evs
    /\ localStorage (checkAndLoadData toLowerCase net w) = localStorage w
    /\ database (checkAndLoadData toLowerCase net w) = database w
    /\ dom (checkAndLoadData toLowerCase net w) = dom w.
Proof.
  intros Hc.
  destruct (versionFile net) as [| | |v] eqn:Hv.
  1-3: rewrite run_check_failed by (rewrite Hv; discriminate);
       exists [ErrorCheckFailed; Fetch VersionFile];
       repeat split; repeat constructor.
  rewrite (run_up_to_date net w v Hv) by (rewrite Hc; apply js_gt_NaN).
  exists [LogUpToDate; LogVersions (currentVersion (localStorage w)) v;
          Fetch VersionFile].
  repeat split; repeat constructor.
Qed.

(** C10. When the slot holds a non-empty string in which [parseInt] finds no
    number, the comparison of the gate is false for every remote version, and
    no run ever starts a refresh: after any number of runs the slot, the
    database and the page are as they were and only the events of a closed
    gate have happened.  The default 0 is read only from an unset or empty
    slot. *)
Theorem corrupted_watermark_blocks_refresh s nets w :
  truthy_string s = true ->
  parseInt s = NaN ->
  localStorage w = Some s ->
  (forall v, js_gt (Num v) (currentVersion (localStorage w)) = false)
  /\ (exists evs,
        trace (reconcile toLowerCase nets w) = evs ++ trace w
        /\ Forall quiet evs
        /\ (forall v, ~ refreshing v evs))
  /\ localStorage (reconcile toLowerCase nets w) = Some s
  /\ database (reconcile toLowerCase nets w) = database w
  /\ dom (reconcile toLowerCase nets w) = dom w
  /\ currentVersion None = Num 0
  /\ currentVersion (Some []) = Num 0.
Proof.
  intros Ht Hp Hs.
  assert (Hc : currentVersion (localStorage w) = NaN)
    by (rewrite Hs, currentVersion_set by exact Ht; exact Hp).
  split; [intros v; rewrite Hc; apply js_gt_NaN|].
  assert (G : exists evs,
            trace (reconcile toLowerCase nets w) = evs ++ trace w
            /\ Forall quiet evs
            /\ localStorage (reconcile toLowerCase nets w) = localStorage w
            /\ database (reconcile toLowerCase nets w) = database w
            /\ dom (reconcile toLowerCase nets w) = dom w).
  { clear Hs. revert w Hc. induction nets as [|net rest IH]; intros w Hc.
    - exists []. repeat split; constructor.
    - cbn [reconcile].
      destruct (corrupted_step net w Hc) as [evs1 [T1 [Q1 [L1 [D1 P1]]]]].
      destruct (IH (checkAndLoadData toLowerCase net w)) as
        [evs2 [T2 [Q2 [L2 [D2 P2]]]]]; [rewrite L1; exact Hc|].
      exists (evs2 ++ evs1).
      split; [rewrite T2, T1, app_assoc; reflexivity|].
      split; [apply Forall_app; split; assumption|].
      split; [congruence|]. split; congruence. }
  destruct G as [evs [T [Q [L [D P]]]]].
  split.
  { exists evs. split; [exact T|]. split; [exact Q|].
    intros v [Hin _]. rewrite Forall_forall in Q. exact (Q _ Hin). }
  split; [rewrite L; exact Hs|].
  split; [exact D|]. split; [exact P|]. split; reflexivity.
Qed.

End Reconciler.

Lemma version_gate_witness :
  versionFile sample_remote = Body 3
  /\ exists evs,
       trace (checkAndLoadData asciiToLowerCase sample_remote sample_world)
       = evs ++ trace sample_world
       /\ (forall wz,
             currentVersion (localStorage sample_world) = Num wz ->
             (refreshing 3 evs <-> 3 > wz)
             /\ (3 <= wz ->
                 database (checkAndLoadData asciiToLowerCase sample_remote
                             sample_world) = database sample_world
                 /\ localStorage (checkAndLoadData asciiToLowerCase
                                    sample_remote sample_world)
                    = localStorage sample_world
                 /\ dom (checkAndLoadData asciiToLowerCase sample_remote
                           sample_world) = dom sample_world))
       /\ (localStorage sample_world = None ->
           currentVersion (localStorage sample_world) = Num 0
           /\ (refreshing 3 evs <-> 3 > 0)).
Proof.
  split; [reflexivity|].
  apply (version_gate asciiToLowerCase sample_remote sample_world 3).
  reflexivity.
Defined.

Lemma failed_refresh_witness :
  versionFile clashing_remote = Body 3
  /\ js_gt (Num 3) (currentVersion (localStorage sample_world)) = true
  /\ refresh_fails clashing_remote sample_world
  /\ exists shown,
       trace (checkAndLoadData asciiToLowerCase clashing_remote sample_world)
       = HideLoading :: AlertUpdateFailed :: ErrorUpdateFailed
         :: shown ++ trace sample_world
       /\ In (ShowLoading (Downloading 3)) shown
       /\ loadingOverlay
            (dom (checkAndLoadData asciiToLowerCase clashing_remote
                    sample_world))
          = hidden (loadingOverlay (dom sample_world))
       /\ localStorage (checkAndLoadData asciiToLowerCase clashing_remote
                          sample_world)
          = localStorage sample_world
       /\ database (checkAndLoadData asciiToLowerCase clashing_remote
                      sample_world)
          = database sample_world
       /\ filter is_seed
            (records (idb (database (checkAndLoadData asciiToLowerCase
                                       clashing_remote sample_world))))
          = filter is_seed (records (idb (database sample_world)))
       /\ (forall keyword category,
             searchItems asciiToLowerCase
               (database (checkAndLoadData asciiToLowerCase clashing_remote
                            sample_world)) keyword category
             = searchItems asciiToLowerCase (database sample_world)
                 keyword category)
       /\ settles asciiToLowerCase clashing_remote sample_world = true.
Proof.
  assert (H1 : versionFile clashing_remote = Body 3) by reflexivity.
  assert (H2 : js_gt (Num 3) (currentVersion (localStorage sample_world)) = true)
    by reflexivity.
  assert (H3 : refresh_fails clashing_remote sample_world)
    by (exists NullError; reflexivity).
  split; [exact H1|]. split; [exact H2|]. split; [exact H3|].
  exact (failed_refresh asciiToLowerCase clashing_remote sample_world 3
           H1 H2 H3).
Defined.

Lemma refresh_never_settles_witness :
  versionFile itemless_remote = Body 3
  /\ js_gt (Num 3) (currentVersion (localStorage sample_world)) = true
  /\ dataFile itemless_remote = Body NotAnArray
  /\ db (database sample_world) = true
  /\ fst (updateSeedData (database sample_world) NotAnArray) = Pending
  /\ settles asciiToLowerCase itemless_remote sample_world = false
  /\ trace (checkAndLoadData asciiToLowerCase itemless_remote sample_world)
     = [ShowLoading Optimizing; Fetch DataFile; ShowLoading (Downloading 3);
        LogVersions (currentVersion (localStorage sample_world)) 3;
        Fetch VersionFile]
       ++ trace sample_world
  /\ (forall h m,
        loadingOverlay (dom sample_world) = Some h ->
        loadingText (dom sample_world) = Some m ->
        loadingOverlay
          (dom (checkAndLoadData asciiToLowerCase itemless_remote sample_world))
        = Some false)
  /\ localStorage (checkAndLoadData asciiToLowerCase itemless_remote
                     sample_world)
     = localStorage sample_world
  /\ database (checkAndLoadData asciiToLowerCase itemless_remote sample_world)
     = database sample_world.
Proof.
  assert (H1 : versionFile itemless_remote = Body 3) by reflexivity.
  assert (H2 : js_gt (Num 3) (currentVersion (localStorage sample_world)) = true)
    by reflexivity.
  assert (H3 : dataFile itemless_remote = Body NotAnArray) by reflexivity.
  assert (H4 : db (database sample_world) = true) by reflexivity.
  split; [exact H1|]. split; [exact H2|]. split; [exact H3|].
  split; [exact H4|].
  exact (refresh_never_settles asciiToLowerCase itemless_remote sample_world 3
           H1 H2 H3 H4).
Defined.

Lemma watermark_monotone_witness :
  watermark sample_world = Some 2
  /\ Forall plain_version [sample_remote; clashing_remote; sample_remote]
  /\ (exists wz',
        watermark (reconcile asciiToLowerCase
                     [sample_remote; clashing_remote; sample_remote]
                     sample_world) = Some wz'
        /\ 2 <= wz')
  /\ currentVersion None = Num 0
  /\ (forall net w0,
        localStorage (checkAndLoadData asciiToLowerCase net w0)
        = localStorage w0
        \/ exists v newItems d',
             versionFile net = Body v
             /\ dataFile net = Body newItems
             /\ updateSeedData (database w0) newItems = (Ok tt, d')
             /\ database (checkAndLoadData asciiToLowerCase net w0) = d'
             /\ (forall wz0, watermark w0 = Some wz0 -> wz0 < v)
             /\ localStorage (checkAndLoadData asciiToLowerCase net w0)
                = Some (toString v)
             /\ (plain v ->
                 watermark (checkAndLoadData asciiToLowerCase net w0)
                 = Some v)).
Proof.
  assert (H1 : watermark sample_world = Some 2) by reflexivity.
  assert (H2 : Forall plain_version
                 [sample_remote; clashing_remote; sample_remote]).
  { assert (P : forall net, versionFile net = Body 3 -> plain_version net).
    { intros net E v Ev. rewrite E in Ev. inversion Ev; subst.
      apply safe_plain. vm_compute. discriminate. }
    repeat (apply Forall_cons; [apply P; reflexivity|]). apply Forall_nil. }
  split; [exact H1|]. split; [exact H2|].
  exact (watermark_monotone asciiToLowerCase
           [sample_remote; clashing_remote; sample_remote] sample_world 2
           H1 H2).
Defined.

Lemma corrupted_watermark_blocks_refresh_witness :
  truthy_string (lit "v2") = true
  /\ parseInt (lit "v2") = NaN
  /\ localStorage corrupted_world = Some (lit "v2")
  /\ (forall v,
        js_gt (Num v) (currentVersion (localStorage corrupted_world)) = false)
  /\ (exists evs,
        trace (reconcile asciiToLowerCase [sample_remote; sample_remote]
                 corrupted_world)
        = evs ++ trace corrupted_world
        /\ Forall quiet evs
        /\ (forall v, ~ refreshing v evs))
  /\ localStorage (reconcile asciiToLowerCase [sample_remote; sample_remote]
                     corrupted_world)
     = Some (lit "v2")
  /\ database (reconcile asciiToLowerCase [sample_remote; sample_remote]
                 corrupted_world)
     = database corrupted_world
  /\ dom (reconcile asciiToLowerCase [sample_remote; sample_remote]
            corrupted_world)
     = dom corrupted_world
  /\ currentVersion None = Num 0
  /\ currentVersion (Some []) = Num 0.
Proof.
  split; [reflexivity|]. split; [reflexivity|]. split; [reflexivity|].
  apply (corrupted_watermark_blocks_refresh asciiToLowerCase (lit "v2")
           [sample_remote; sample_remote] corrupted_world);
    reflexivity.
Defined.

(** ** The scenarios of the spec, run *)

(** Slot at 2, server at 3: the refresh fires, the old seed records give way
    to the batch, the custom record stays, the slot reads 3, and a second
    run against the same server does nothing. *)
Example scenario_refresh :
  let w1 := checkAndLoadData asciiToLowerCase sample_remote sample_world in
  let w2 := checkAndLoadData asciiToLowerCase sample_remote w1 in
  map name (getAll (idb (database w1))) = [lit "Den of Evil"; lit "Tir Rune"]
  /\ keys (idb (database w1)) = [3; 4]
  /\ watermark w1 = Some 3
  /\ trace w1 = [HideLoading; ShowLoading Optimizing; Fetch DataFile;
                 ShowLoading (Downloading 3); LogVersions (Num 2) 3;
                 Fetch VersionFile]
  /\ database w2 = database w1
  /\ localStorage w2 = localStorage w1
  /\ trace w2 = [LogUpToDate; LogVersions (Num 3) 3; Fetch VersionFile]
                ++ trace w1.
Proof. vm_compute. repeat split. Qed.

(** The data file cannot be fetched: the overlay is hidden again, the alert
    is shown, the slot and the records are as before. *)
Example scenario_fetch_fails :
  let w1 := checkAndLoadData asciiToLowerCase (mkRemote (Body 3) FetchRejected)
              sample_world in
  trace w1 = [HideLoading; AlertUpdateFailed; ErrorUpdateFailed;
              Fetch DataFile; ShowLoading (Downloading 3);
              LogVersions (Num 2) 3; Fetch VersionFile]
  /\ loadingOverlay (dom w1) = Some true
  /\ localStorage w1 = localStorage sample_world
  /\ database w1 = database sample_world.
Proof. vm_compute. repeat split. Qed.

(* ================================================================= *)
(** * Further properties of the store *)

Lemma store_add_generator st item k st' :
  store_add st item = Success (k, st') -> keyGenerator st <= keyGenerator st'.
Proof.
  intros E. destruct (store_add_success _ _ _ _ E) as (_ & _ & H & _).
  exact H.
Qed.

Lemma addSeeds_generator newItems : forall st st',
  addSeeds st newItems = Success st' -> keyGenerator st <= keyGenerator st'.
Proof.
  induction newItems as [|item rest IH]; simpl; intros st st' E.
  - inversion E; subst; lia.
  - destruct (store_add st (set_isCustom false item)) as [[k st1]|e] eqn:Ea;
      [|discriminate].
    apply store_add_generator in Ea. apply IH in E. lia.
Qed.

Lemma call_generator c d :
  keyGenerator (idb d) <= keyGenerator (idb (call c d)).
Proof.
  destruct c as [item|newItems]; cbn [call].
  - unfold addItem. destruct (negb (db d)); [cbn; lia|].
    destruct (store_add (idb d) (set_isCustom true item)) as [[k st]|e] eqn:E;
      cbn [snd idb]; [|lia].
    exact (store_add_generator _ _ _ _ E).
  - unfold updateSeedData. destruct (negb (db d)); [cbn; lia|].
    destruct newItems as [items|]; [|cbn; lia].
    destruct (addSeeds _ items) as [st|e] eqn:E; cbn [snd idb]; [|lia].
    apply addSeeds_generator in E. exact E.
Qed.

(** The key [addItem] returns for an item without [id] is the generator's
    number, which is at most [maxKey]. *)
Lemma addItem_generated d item k d' :
  addItem d item = (Ok k, d') -> id item = None ->
  k = keyGenerator (idb d) /\ k <= maxKey.
Proof.
  unfold addItem. destruct (negb (db d)); [discriminate|].
  destruct (store_add (idb d) (set_isCustom true item)) as [[k0 st]|e] eqn:Ea;
    [|discriminate].
  intros H Hid. inversion H; subst; clear H.
  destruct (store_add_generated (idb d) (set_isCustom true item) _ _ Hid Ea)
    as [Hm ->].
  split; [reflexivity | exact Hm].
Qed.

Lemma calls_generator cs : forall d,
  keyGenerator (idb d) <= keyGenerator (idb (calls cs d)).
Proof.
  induction cs as [|c rest IH]; intros d; cbn [calls]; [lia|].
  pose proof (call_generator c d). specialize (IH (call c d)). lia.
Qed.

Lemma calls_ahead cs : forall d,
  generator_ahead (idb d) -> generator_ahead (idb (calls cs d)).
Proof.
  induction cs as [|c rest IH]; intros d Ha; cbn [calls]; [exact Ha|].
  apply IH. destruct c; cbn [call];
    [apply addItem_ahead | apply updateSeedData_ahead]; exact Ha.
Qed.

(** X1. A key is never handed out twice.  Once a record has been stored
    under key [k], whatever calls follow, and even if the record has been
    deleted by a refresh in between, the key that [addItem] returns for an
    item without [id] is greater than [k]. *)
Theorem keys_never_reused d k cs item k' d' :
  generator_ahead (idb d) ->
  In k (keys (idb d)) ->
  id item = None ->
  addItem (calls cs d) item = (Ok k', d') ->
  k < k'.
Proof.
  intros Ha Hk Hid E.
  destruct (addItem_generated _ _ _ _ E Hid) as [-> Hmax].
  pose proof (calls_generator cs d) as Hm.
  unfold generator_ahead in Ha. rewrite Forall_forall in Ha.
  unfold keys in Hk. apply in_map_iff in Hk as [r [<- Hr]].
  specialize (Ha r Hr). lia.
Qed.

Lemma keys_never_reused_witness :
  generator_ahead (idb sample_db)
  /\ In 1 (keys (idb sample_db))
  /\ ~ In 1 (keys (idb (calls [CallUpdateSeedData (ItemArray sample_batch)] sample_db)))
  /\ id (sample "rune" "Ral Rune" None) = None
  /\ addItem (calls [CallUpdateSeedData (ItemArray sample_batch)] sample_db)
       (sample "rune" "Ral Rune" None)
     = (Ok 5, snd (addItem (calls [CallUpdateSeedData (ItemArray sample_batch)] sample_db)
                     (sample "rune" "Ral Rune" None)))
  /\ 1 < 5.
Proof.
  assert (H1 : generator_ahead (idb sample_db))
    by (apply ahead_true; vm_compute; reflexivity).
  assert (H2 : In 1 (keys (idb sample_db))) by (vm_compute; auto).
  assert (H3 : id (sample "rune" "Ral Rune" None) = None) by reflexivity.
  assert (H4 : addItem (calls [CallUpdateSeedData (ItemArray sample_batch)] sample_db)
                 (sample "rune" "Ral Rune" None)
               = (Ok 5,
                  snd (addItem (calls [CallUpdateSeedData (ItemArray sample_batch)]
                                  sample_db)
                         (sample "rune" "Ral Rune" None))))
    by (vm_compute; reflexivity).
  split; [exact H1|]. split; [exact H2|].
  split; [vm_compute; intuition discriminate|].
  split; [exact H3|]. split; [exact H4|].
  exact (keys_never_reused sample_db 1 [CallUpdateSeedData (ItemArray sample_batch)]
           _ 5 _ H1 H2 H3 H4).
Defined.

Lemma store_add_keeps_keys st item k st' x :
  store_add st item = Success (k, st') -> In x (keys st) -> In x (keys st').
Proof.
  unfold keys. intros E Hx.
  destruct (store_add_success _ _ _ _ E) as (_ & -> & _).
  apply insert_record_keys. right. exact Hx.
Qed.

Lemma store_add_errors st item e :
  store_add st item = Failure e -> e = ConstraintError.
Proof.
  unfold store_add. destruct (id item) as [i|].
  - destruct (has_key _ (records st)); [|discriminate].
    intros E. inversion E; reflexivity.
  - destruct (maxKey <? keyGenerator st);
      [|destruct (has_key _ (records st)); [|discriminate]];
      intros E; inversion E; reflexivity.
Qed.

Lemma addSeeds_clash newItems item k : forall st,
  In item newItems -> id item = Some k -> In k (keys st) ->
  addSeeds st newItems = Failure ConstraintError.
Proof.
  induction newItems as [|x rest IH]; intros st Hin Hid Hk; [destruct Hin|].
  cbn [addSeeds].
  destruct (store_add st (set_isCustom false x)) as [[k1 st1]|e] eqn:Ea.
  - destruct Hin as [-> | Hin].
    + exfalso.
      destruct (store_add_success _ _ _ _ Ea) as (Hh & _ & _ & _ & Hi).
      cbn [id set_isCustom] in Hi. rewrite Hid in Hi. subst k1.
      apply has_key_In in Hk. unfold keys in Hk. rewrite Hk in Hh.
      discriminate.
    + apply (IH st1 Hin Hid). eapply store_add_keeps_keys; eauto.
  - apply store_add_errors in Ea. subst e. reflexivity.
Qed.

(** X2. A data file cannot overwrite a user's record.  When some item of the
    batch carries the key of a custom record of the store, wherever it
    stands in the batch, the promise of [updateSeedData] is rejected, with
    the [transaction.error] that is still null when [onerror] runs, and the
    store keeps all its records, the old seed records included. *)
Theorem updateSeedData_key_clash d newItems item k :
  db d = true ->
  In item newItems ->
  id item = Some k ->
  In k (map fst (filter is_custom (records (idb d)))) ->
  updateSeedData d (ItemArray newItems) = (Err NullError, d).
Proof.
  intros Hc Hin Hid Hk. unfold updateSeedData. rewrite Hc. cbn [negb].
  rewrite (addSeeds_clash newItems item k); [reflexivity|exact Hin|exact Hid|].
  unfold keys. cbn [records]. rewrite sweep_filter. exact Hk.
Qed.

Lemma updateSeedData_key_clash_witness :
  db sample_db = true
  /\ In (mkItem (Some 3) (lit "rune") (lit "Tir Rune") (lit "a sample record")
                None None None)
        (sample "rune" "Ral Rune" None :: clashing_batch)
  /\ id (mkItem (Some 3) (lit "rune") (lit "Tir Rune") (lit "a sample record")
                None None None) = Some 3
  /\ In 3 (map fst (filter is_custom (records (idb sample_db))))
  /\ updateSeedData sample_db
       (ItemArray (sample "rune" "Ral Rune" None :: clashing_batch))
     = (Err NullError, sample_db).
Proof.
  assert (H1 : db sample_db = true) by reflexivity.
  assert (H2 : In (mkItem (Some 3) (lit "rune") (lit "Tir Rune")
                          (lit "a sample record") None None None)
                  (sample "rune" "Ral Rune" None :: clashing_batch))
    by (right; left; reflexivity).
  assert (H3 : id (mkItem (Some 3) (lit "rune") (lit "Tir Rune")
                          (lit "a sample record") None None None) = Some 3)
    by reflexivity.
  assert (H4 : In 3 (map fst (filter is_custom (records (idb sample_db)))))
    by (vm_compute; auto).
  split; [exact H1|]. split; [exact H2|]. split; [exact H3|].
  split; [exact H4|].
  exact (updateSeedData_key_clash sample_db _ _ 3 H1 H2 H3 H4).
Defined.

(** X3. [addItem] only ever adds.  Whatever the item and whatever the
    outcome, every record of the store is still there afterwards, unchanged,
    the seed records are the same sequence as before, and the connection is
    as it was. *)
Theorem addItem_only_adds d item :
  (forall r, In r (records (idb d)) ->
             In r (records (idb (snd (addItem d item)))))
  /\ filter is_seed (records (idb (snd (addItem d item))))
     = filter is_seed (records (idb d))
  /\ db (snd (addItem d item)) = db d.
Proof.
  split; [|split; [|apply addItem_db]];
    unfold addItem; destruct (negb (db d)); cbn [snd]; auto;
    destruct (store_add (idb d) (set_isCustom true item)) as [[k st]|e] eqn:Ea;
    cbn [snd idb]; auto;
    destruct (store_add_success _ _ _ _ Ea) as (_ & -> & _).
  - intros r Hr. apply insert_record_In. right. exact Hr.
  - apply insert_record_filter. reflexivity.
Qed.

(** *** Feeding the seed records back *)

Lemma store_add_flagged st item b k st' :
  flagged st -> store_add st (set_isCustom b item) = Success (k, st') ->
  flagged st'.
Proof.
  unfold flagged. intros Hf E.
  destruct (store_add_success _ _ _ _ E) as (_ & -> & _).
  apply Forall_forall. intros r Hr.
  apply insert_record_In in Hr as [-> | Hr]; [discriminate|].
  rewrite Forall_forall in Hf. exact (Hf r Hr).
Qed.

Lemma addSeeds_flagged newItems : forall st st',
  flagged st -> addSeeds st newItems = Success st' -> flagged st'.
Proof.
  induction newItems as [|item rest IH]; simpl; intros st st' Hf E.
  - inversion E; subst; exact Hf.
  - destruct (store_add st (set_isCustom false item)) as [[k st1]|e] eqn:Ea;
      [|discriminate].
    exact (IH st1 st' (store_add_flagged _ _ _ _ _ Hf Ea) E).
Qed.

Lemma call_flagged c d : flagged (idb d) -> flagged (idb (call c d)).
Proof.
  intros Hf. destruct c as [item|newItems]; cbn [call].
  - unfold addItem. destruct (negb (db d)); [exact Hf|].
    destruct (store_add (idb d) (set_isCustom true item)) as [[k st]|e] eqn:E;
      cbn [snd idb]; [|exact Hf].
    exact (store_add_flagged _ _ _ _ _ Hf E).
  - unfold updateSeedData. destruct (negb (db d)); [exact Hf|].
    destruct newItems as [items|]; [|exact Hf].
    destruct (addSeeds _ items) as [st|e] eqn:E; cbn [snd idb]; [|exact Hf].
    apply (addSeeds_flagged items _ st) in E; [exact E|].
    unfold flagged in *. cbn [records]. rewrite sweep_filter.
    rewrite Forall_forall in *. intros r Hr.
    apply filter_In in Hr as [Hr _]. auto.
Qed.

Lemma reachable_flagged d : reachable d -> flagged (idb d).
Proof.
  induction 1 as [|d item _ IH|d newItems _ IH].
  - constructor.
  - exact (call_flagged (CallAddItem item) d IH).
  - exact (call_flagged (CallUpdateSeedData newItems) d IH).
Qed.

Lemma set_isCustom_same item b :
  isCustom item = Some b -> set_isCustom b item = item.
Proof. destruct item; cbn. intros ->. reflexivity. Qed.

Lemma set_id_same item k : id item = Some k -> set_id k item = item.
Proof. destruct item; cbn. intros ->. reflexivity. Qed.

Lemma sorted_key_unique (rs : list (Z * D2Item)) r1 r2 :
  StronglySorted Z.lt (map fst rs) ->
  In r1 rs -> In r2 rs -> fst r1 = fst r2 -> r1 = r2.
Proof.
  induction rs as [|a rs IH]; intros Hs H1 H2 E; [destruct H1|].
  cbn [map] in Hs. inversion Hs as [|? ? Hs' Hlt]; subst.
  rewrite Forall_forall in Hlt.
  destruct H1 as [<- | H1], H2 as [<- | H2].
  - reflexivity.
  - specialize (Hlt (fst r2) (in_map fst _ _ H2)). lia.
  - specialize (Hlt (fst r1) (in_map fst _ _ H1)). lia.
  - exact (IH Hs' H1 H2 E).
Qed.

(** Two lists in strict key order with the same records are the same list. *)
Lemma sorted_ext (l1 : list (Z * D2Item)) : forall l2,
  StronglySorted Z.lt (map fst l1) ->
  StronglySorted Z.lt (map fst l2) ->
  (forall x, In x l1 <-> In x l2) ->
  l1 = l2.
Proof.
  induction l1 as [|a l1 IH]; intros [|b l2] S1 S2 H.
  - reflexivity.
  - exfalso. apply (H b). left; reflexivity.
  - exfalso. apply (H a). left; reflexivity.
  - cbn [map] in S1, S2.
    inversion S1 as [|? ? S1' F1]; inversion S2 as [|? ? S2' F2]; subst.
    rewrite Forall_forall in F1, F2.
    assert (E : a = b).
    { destruct (proj1 (H a) (or_introl eq_refl)) as [Hab | Hab]; [auto|].
      destruct (proj2 (H b) (or_introl eq_refl)) as [Hba | Hba]; [auto|].
      pose proof (F2 _ (in_map fst _ _ Hab)).
      pose proof (F1 _ (in_map fst _ _ Hba)). lia. }
    subst b. f_equal. apply IH; [exact S1' | exact S2' |].
    intros x. split; intros Hx.
    + destruct (proj1 (H x) (or_intror Hx)) as [<- | Hx2]; [|exact Hx2].
      pose proof (F1 _ (in_map fst _ _ Hx)). lia.
    + destruct (proj2 (H x) (or_intror Hx)) as [<- | Hx1]; [|exact Hx1].
      pose proof (F2 _ (in_map fst _ _ Hx)). lia.
Qed.

Lemma addSeeds_reinsert (l : list (Z * D2Item)) : forall st,
  Forall (fun r => id (snd r) = Some (fst r)
                   /\ isCustom (snd r) = Some false) l ->
  StronglySorted Z.lt (map fst l) ->
  (forall k, In k (map fst l) -> ~ In k (keys st)) ->
  Forall (fun r => Z.min (fst r) maxKey < keyGenerator st) l ->
  keys_in_order st ->
  exists st',
    addSeeds st (map snd l) = Success st'
    /\ keyGenerator st' = keyGenerator st
    /\ keys_in_order st'
    /\ (forall x, In x (records st') <-> In x (records st) \/ In x l).
Proof.
  induction l as [|[k v] l IH]; intros st Hl Hs Hn Hg Ho.
  - exists st. cbn. repeat split; auto; tauto.
  - inversion Hl as [|? ? [Hid Hfl] Hl']; subst.
    cbn [map fst snd] in *. inversion Hs as [|? ? Hs' Hlt]; subst.
    inversion Hg as [|? ? Hk Hg']; subst. cbn [fst] in Hk.
    cbn [addSeeds]. rewrite (set_isCustom_same _ _ Hfl).
    unfold store_add. rewrite Hid.
    destruct (has_key k (records st)) eqn:Hh.
    { exfalso. apply has_key_In in Hh. apply (Hn k); [left; reflexivity|].
      exact Hh. }
    rewrite (set_id_same _ _ Hid).
    replace (keyGenerator st <=? Z.min k maxKey) with false
      by (symmetry; apply Z.leb_gt; lia).
    destruct (IH (mkStore (insert_record k v (records st)) (keyGenerator st)))
      as [st' [E [Eg [Eo Em]]]].
    + exact Hl'.
    + exact Hs'.
    + intros k' Hk' Hin. unfold keys in Hin. cbn [records] in Hin.
      apply insert_record_keys in Hin as [-> | Hin].
      * rewrite Forall_forall in Hlt. specialize (Hlt _ Hk'). lia.
      * apply (Hn k'); [right; exact Hk' | exact Hin].
    + exact Hg'.
    + unfold keys_in_order, keys. cbn [records].
      apply insert_record_sorted; [exact Ho|].
      apply Hn. left; reflexivity.
    + exists st'. split; [exact E|]. split; [exact Eg|]. split; [exact Eo|].
      intros x. rewrite Em. cbn [records]. rewrite insert_record_In.
      cbn [In]. intuition congruence.
Qed.

(** X4. Feeding a store its own seed records changes nothing.  In every
    state the database goes through, [updateSeedData] called with the seed
    records that [getAll] returns, keys included, succeeds and leaves the
    database exactly as it was: the cursor deletes them and [store.add] puts
    each one back under the key it carries. *)
Theorem updateSeedData_own_seeds d :
  reachable d ->
  updateSeedData d (ItemArray (map snd (filter is_seed (records (idb d)))))
  = (Ok tt, d).
Proof.
  intros Hr.
  destruct (reachable_invariant d Hr) as [Hc Ha].
  destruct (reachable_in_order d Hr) as [Ho [Hk _]].
  pose proof (reachable_flagged d Hr) as Hf.
  unfold updateSeedData. rewrite Hc. cbn [negb].
  destruct (addSeeds_reinsert (filter is_seed (records (idb d)))
              (mkStore (sweep (records (idb d))) (keyGenerator (idb d))))
    as [st' [E [Eg [Eo Em]]]].
  - apply Forall_forall. intros r Hin. apply filter_In in Hin as [Hin Hs].
    unfold keyed in Hk. unfold flagged in Hf. rewrite Forall_forall in Hk, Hf.
    split; [exact (Hk r Hin)|].
    specialize (Hf r Hin). unfold is_seed, is_custom in Hs.
    destruct (isCustom (snd r)) as [[|]|]; try discriminate; congruence.
  - apply filter_keys_sorted. exact Ho.
  - intros k Hk1 Hk2. unfold keys in Hk2. cbn [records] in Hk2.
    rewrite sweep_filter in Hk2.
    apply in_map_iff in Hk1 as [r1 [E1 H1]].
    apply in_map_iff in Hk2 as [r2 [E2 H2]].
    apply filter_In in H1 as [H1 S1]. apply filter_In in H2 as [H2 S2].
    assert (r1 = r2)
      by (apply (sorted_key_unique (records (idb d))); auto; congruence).
    subst r2. unfold is_seed in S1. rewrite S2 in S1. discriminate.
  - cbn [keyGenerator]. unfold generator_ahead in Ha.
    rewrite Forall_forall in *. intros r Hin.
    apply filter_In in Hin as [Hin _]. auto.
  - unfold keys_in_order, keys. cbn [records]. rewrite sweep_filter.
    apply filter_keys_sorted. exact Ho.
  - rewrite E. f_equal.
    assert (R : records st' = records (idb d)).
    { apply sorted_ext; [exact Eo | exact Ho |].
      intros x. rewrite Em. cbn [records]. rewrite sweep_filter, !filter_In.
      unfold is_seed. destruct (is_custom x); cbn; intuition discriminate. }
    destruct d as [c [rs kg]], st' as [rs' kg']. cbn in *. subst. reflexivity.
Qed.

Lemma updateSeedData_own_seeds_witness :
  reachable sample_db
  /\ map name (map snd (filter is_seed (records (idb sample_db))))
     = [lit "El Rune"; lit "Eld Rune"]
  /\ updateSeedData sample_db
       (ItemArray (map snd (filter is_seed (records (idb sample_db)))))
     = (Ok tt, sample_db).
Proof.
  assert (H : reachable sample_db) by (unfold sample_db; repeat constructor).
  split; [exact H|]. split; [reflexivity|].
  exact (updateSeedData_own_seeds sample_db H).
Defined.

(* ================================================================= *)
(** * Further properties of the search *)

Lemma startsWith_refl s : startsWith s s = true.
Proof. apply startsWith_spec. exists []. rewrite app_nil_r. reflexivity. Qed.

Lemma includes_refl s : includes s s = true.
Proof. destruct s; cbn [includes]; rewrite startsWith_refl; reflexivity. Qed.

(** X5. The search tells two keywords apart only by their lowercase forms:
    two non-empty keywords that [toLowerCase] maps to the same string give
    the same answer, in every category and on every database. *)
Theorem search_case_blind toLowerCase d k1 k2 category :
  k1 <> [] -> k2 <> [] ->
  toLowerCase k1 = toLowerCase k2 ->
  searchItems toLowerCase d k1 category
  = searchItems toLowerCase d k2 category.
Proof.
  intros H1 H2 E. unfold searchItems.
  destruct k1 as [|c1 r1]; [congruence|].
  destruct k2 as [|c2 r2]; [congruence|].
  cbn [truthy_string]. rewrite E. reflexivity.
Qed.

Lemma search_case_blind_witness :
  lit "RuNe" <> []
  /\ lit "rune" <> []
  /\ asciiToLowerCase (lit "RuNe") = asciiToLowerCase (lit "rune")
  /\ searchItems asciiToLowerCase sample_db (lit "RuNe") (lit "all")
     = searchItems asciiToLowerCase sample_db (lit "rune") (lit "all").
Proof.
  assert (H1 : lit "RuNe" <> []) by discriminate.
  assert (H2 : lit "rune" <> []) by discriminate.
  assert (H3 : asciiToLowerCase (lit "RuNe") = asciiToLowerCase (lit "rune"))
    by reflexivity.
  split; [exact H1|]. split; [exact H2|]. split; [exact H3|].
  exact (search_case_blind asciiToLowerCase sample_db _ _ (lit "all") H1 H2 H3).
Defined.

Lemma keeps_own_text toLowerCase item keyword category :
  keyword = name item \/ keyword = description item
  \/ (exists ts, tags item = Some ts /\ In keyword ts) ->
  category = lit "all" \/ category = type item ->
  keeps toLowerCase keyword category item = true.
Proof.
  intros Hk Hcat. unfold keeps. apply andb_true_iff. split.
  - destruct Hcat as [-> | ->]; [reflexivity|].
    rewrite str_eqb_refl. apply orb_true_r.
  - destruct (truthy_string keyword); [cbn [negb orb] | reflexivity].
    unfold matchesKeyword.
    destruct Hk as [-> | [-> | [ts [Ht Hts]]]].
    + rewrite includes_refl. reflexivity.
    + rewrite includes_refl. rewrite orb_true_r. reflexivity.
    + rewrite Ht. apply orb_true_iff. right.
      apply existsb_exists. exists keyword. split; [exact Hts|].
      apply includes_refl.
Qed.

(** X6. A stored record is found by its own words.  On a connected
    database, searching for the name of a record, for its description or for
    one of its tags, written as the record has it, returns the record, in
    the category ["all"] and in the record's own category. *)
Theorem search_finds_own_text toLowerCase d item keyword category :
  db d = true ->
  In item (getAll (idb d)) ->
  keyword = name item \/ keyword = description item
  \/ (exists ts, tags item = Some ts /\ In keyword ts) ->
  category = lit "all" \/ category = type item ->
  exists found,
    searchItems toLowerCase d keyword category = (Ok found, d)
    /\ In item found.
Proof.
  intros Hc Hin Hk Hcat.
  rewrite (searchItems_filter toLowerCase d keyword category Hc).
  eexists. split; [reflexivity|].
  apply filter_In. split; [exact Hin|].
  apply keeps_own_text; assumption.
Qed.

Lemma search_finds_own_text_witness :
  db sample_db = true
  /\ In (set_id 3 (sample "quest" "Den of Evil" (Some true)))
        (getAll (idb sample_db))
  /\ exists found,
       searchItems asciiToLowerCase sample_db (lit "quest") (lit "all")
       = (Ok found, sample_db)
       /\ In (set_id 3 (sample "quest" "Den of Evil" (Some true))) found.
Proof.
  assert (H1 : db sample_db = true) by reflexivity.
  assert (H2 : In (set_id 3 (sample "quest" "Den of Evil" (Some true)))
                  (getAll (idb sample_db)))
    by (vm_compute; auto).
  split; [exact H1|]. split; [exact H2|].
  apply (search_finds_own_text asciiToLowerCase sample_db
           (set_id 3 (sample "quest" "Den of Evil" (Some true)))
           (lit "quest") (lit "all") H1 H2).
  - right. right. exists [lit "Den of Evil"; lit "quest"].
    split; [reflexivity | right; left; reflexivity].
  - left. reflexivity.
Defined.

(** *** Blanks around the keyword *)

Lemma trimStart_fixed s :
  match s with [] => True | c :: _ => isWhiteSpace c = false end ->
  trimStart s = s.
Proof. destruct s as [|c r]; cbn; [reflexivity | intros ->; reflexivity]. Qed.

Lemma trimStart_head s :
  match trimStart s with [] => True | c :: _ => isWhiteSpace c = false end.
Proof.
  induction s as [|c r IH]; cbn; [exact I|].
  destruct (isWhiteSpace c) eqn:E; [exact IH | exact E].
Qed.

Lemma trimStart_suffix s : exists ws, s = ws ++ trimStart s.
Proof.
  induction s as [|c r [ws IH]]; cbn.
  - exists []. reflexivity.
  - destruct (isWhiteSpace c).
    + exists (c :: ws). cbn. rewrite <- IH. reflexivity.
    + exists []. reflexivity.
Qed.

Lemma trimStart_idem s : trimStart (trimStart s) = trimStart s.
Proof. apply trimStart_fixed, trimStart_head. Qed.

Lemma trim_idem s : trim (trim s) = trim s.
Proof.
  unfold trim, trimEnd.
  set (t := trimStart s).
  destruct (trimStart_suffix (rev t)) as [ws Hws].
  set (y := trimStart (rev t)) in *.
  assert (Ht : t = rev y ++ rev ws).
  { rewrite <- (rev_involutive t), Hws, rev_app_distr. reflexivity. }
  assert (F : trimStart (rev y) = rev y).
  { apply trimStart_fixed.
    pose proof (trimStart_head s) as Hh. fold t in Hh. rewrite Ht in Hh.
    destruct (rev y); [exact I | exact Hh]. }
  rewrite F, rev_involutive. unfold y. rewrite trimStart_idem. reflexivity.
Qed.

(** X7. Blanks around the keyword do not count: [handleSearch] shows the
    same records for what the search box holds and for the same text with
    the white space at both ends removed. *)
Theorem handleSearch_ignores_outer_blanks toLowerCase value w :
  results (dom (handleSearch toLowerCase (typed value w)))
  = results (dom (handleSearch toLowerCase (typed (trim value) w))).
Proof.
  unfold handleSearch, typed.
  cbn [dom with_dom searchInput database currentCategory].
  rewrite trim_idem.
  destruct (searchItems toLowerCase (database w) (trim value)
              (currentCategory w)) as [[items|e|] d']; reflexivity.
Qed.

(* ================================================================= *)
(** * Further properties of the reconciler *)

Lemma updateSeedData_rejected d newItems e d' :
  updateSeedData d newItems = (Err e, d') -> d' = d.
Proof.
  unfold updateSeedData. destruct (negb (db d)).
  - intros E. inversion E; reflexivity.
  - destruct newItems as [items|]; [|discriminate].
    destruct (addSeeds _ items); intros E; inversion E; reflexivity.
Qed.

(** What a run leaves in the database and in the slot. *)
Lemma run_refreshed toLowerCase net w :
  (database (checkAndLoadData toLowerCase net w),
   localStorage (checkAndLoadData toLowerCase net w))
  = refreshed net (database w) (localStorage w).
Proof.
  unfold refreshed.
  destruct (versionFile net) as [| | |v] eqn:Hv;
    try (rewrite run_check_failed by (rewrite Hv; discriminate); reflexivity).
  destruct (js_gt (Num v) (currentVersion (localStorage w))) eqn:Hg.
  - destruct (refresh_outcome net w)
      as [Hf | [[newItems [u [d' [Hd Hu]]]] | [Hd Hc]]].
    + destruct (run_failed toLowerCase net w v Hv Hg Hf) as [w1 [-> Hw1]].
      assert (E : database w1 = database w /\ localStorage w1 = localStorage w)
        by (destruct Hw1 as [-> | ->]; split; reflexivity).
      destruct E as [Ed El].
      replace (database (hideLoading (updateFailed w1))) with (database w1)
        by reflexivity.
      replace (localStorage (hideLoading (updateFailed w1)))
        with (localStorage w1) by reflexivity.
      rewrite Ed, El. unfold refresh_fails in Hf.
      destruct (dataFile net) as [| | |newItems]; try reflexivity.
      destruct Hf as [e He].
      destruct (updateSeedData (database w) newItems) as [[u|e'|] d'] eqn:Hu;
        [discriminate| |discriminate].
      apply updateSeedData_rejected in Hu. subst d'. reflexivity.
    + rewrite (run_committed toLowerCase net w v newItems u d' Hv Hg Hd Hu).
      rewrite Hd, Hu.
      destruct (handleSearch_frame toLowerCase
                  (setItem (toString v)
                     (with_database d'
                        (showLoading Optimizing (downloading v w)))))
        as [Fd [_ [Fl _]]].
      destruct (hideLoading_frame
                  (handleSearch toLowerCase
                     (setItem (toString v)
                        (with_database d'
                           (showLoading Optimizing (downloading v w))))))
        as [-> [-> _]].
      rewrite Fd, Fl. reflexivity.
    + unfold checkAndLoadData.
      rewrite (run_stuck toLowerCase net w v Hv Hg Hd Hc), Hd.
      unfold updateSeedData. rewrite Hc. reflexivity.
  - rewrite (run_up_to_date toLowerCase net w v Hv Hg).
    destruct (dataFile net); reflexivity.
Qed.


(** X9. What a run leaves in the database and in the slot is decided by
    what the two held and by the server's answers alone: the page, the
    search box, the category and the earlier events have no say. *)
Theorem run_depends_on_store_and_slot toLowerCase net w1 w2 :
  database w1 = database w2 ->
  localStorage w1 = localStorage w2 ->
  database (checkAndLoadData toLowerCase net w1)
  = database (checkAndLoadData toLowerCase net w2)
  /\ localStorage (checkAndLoadData toLowerCase net w1)
     = localStorage (checkAndLoadData toLowerCase net w2).
Proof.
  intros Ed El.
  pose proof (run_refreshed toLowerCase net w1) as R1.
  pose proof (run_refreshed toLowerCase net w2) as R2.
  rewrite Ed, El, <- R2 in R1. inversion R1. split; reflexivity.
Qed.

Lemma run_depends_on_store_and_slot_witness :
  database (typed (lit "rune") sample_world) = database sample_world
  /\ localStorage (typed (lit "rune") sample_world) = localStorage sample_world
  /\ database (checkAndLoadData asciiToLowerCase sample_remote
                 (typed (lit "rune") sample_world))
     = database (checkAndLoadData asciiToLowerCase sample_remote sample_world)
  /\ localStorage (checkAndLoadData asciiToLowerCase sample_remote
                     (typed (lit "rune") sample_world))
     = localStorage (checkAndLoadData asciiToLowerCase sample_remote
                       sample_world).
Proof.
  split; [reflexivity|]. split; [reflexivity|].
  apply (run_depends_on_store_and_slot asciiToLowerCase sample_remote
           (typed (lit "rune") sample_world) sample_world);
    reflexivity.
Defined.

(** X10. A refresh that fails leaves no mark on later runs.  When the gate
    has opened and the refresh did not go through, any run that follows
    leaves the database and the slot as it would have left them had the
    failed run not taken place; in particular the same version is tried
    again. *)
Theorem failed_refresh_is_retried toLowerCase net1 net2 w v :
  versionFile net1 = Body v ->
  js_gt (Num v) (currentVersion (localStorage w)) = true ->
  refresh_fails net1 w ->
  database (checkAndLoadData toLowerCase net2
              (checkAndLoadData toLowerCase net1 w))
  = database (checkAndLoadData toLowerCase net2 w)
  /\ localStorage (checkAndLoadData toLowerCase net2
                     (checkAndLoadData toLowerCase net1 w))
     = localStorage (checkAndLoadData toLowerCase net2 w)
  /\ gate_opens net1 (localStorage (checkAndLoadData toLowerCase net1 w))
     = true.
Proof.
  intros Hv Hg Hf.
  destruct (run_failed toLowerCase net1 w v Hv Hg Hf) as [w1 [E Hw1]].
  assert (F : database (checkAndLoadData toLowerCase net1 w) = database w
              /\ localStorage (checkAndLoadData toLowerCase net1 w)
                 = localStorage w)
    by (rewrite E; destruct Hw1 as [-> | ->]; split; reflexivity).
  destruct F as [Fd Fl].
  pose proof (run_refreshed toLowerCase net2
                (checkAndLoadData toLowerCase net1 w)) as R1.
  pose proof (run_refreshed toLowerCase net2 w) as R2.
  rewrite Fd, Fl, <- R2 in R1. inversion R1 as [[Rd Rl]].
  split; [reflexivity|]. split; [reflexivity|].
  unfold gate_opens. rewrite Hv, Fl. exact Hg.
Qed.

Lemma failed_refresh_is_retried_witness :
  versionFile clashing_remote = Body 3
  /\ js_gt (Num 3) (currentVersion (localStorage sample_world)) = true
  /\ refresh_fails clashing_remote sample_world
  /\ database (checkAndLoadData asciiToLowerCase sample_remote
                 (checkAndLoadData asciiToLowerCase clashing_remote
                    sample_world))
     = database (checkAndLoadData asciiToLowerCase sample_remote sample_world)
  /\ localStorage (checkAndLoadData asciiToLowerCase sample_remote
                     (checkAndLoadData asciiToLowerCase clashing_remote
                        sample_world))
     = localStorage (checkAndLoadData asciiToLowerCase sample_remote
                       sample_world)
  /\ gate_opens clashing_remote
       (localStorage (checkAndLoadData asciiToLowerCase clashing_remote
                        sample_world))
     = true.
Proof.
  assert (H1 : versionFile clashing_remote = Body 3) by reflexivity.
  assert (H2 : js_gt (Num 3) (currentVersion (localStorage sample_world)) = true)
    by reflexivity.
  assert (H3 : refresh_fails clashing_remote sample_world)
    by (exists NullError; reflexivity).
  split; [exact H1|]. split; [exact H2|]. split; [exact H3|].
  exact (failed_refresh_is_retried asciiToLowerCase clashing_remote
           sample_remote sample_world 3 H1 H2 H3).
Defined.

(** X11. A version below 10^21 is applied once.  After a run that applied
    version [v], below 10^21 in absolute value, a run that is offered [v]
    again, or an older version, stops at the gate: it requests the version
    file, logs twice, and leaves the database, the slot and the page as they
    were. *)
Theorem applied_version_is_not_reapplied toLowerCase net w v newItems d'
    net2 v2 :
  versionFile net = Body v ->
  plain v ->
  js_gt (Num v) (currentVersion (localStorage w)) = true ->
  dataFile net = Body newItems ->
  updateSeedData (database w) newItems = (Ok tt, d') ->
  versionFile net2 = Body v2 ->
  v2 <= v ->
  checkAndLoadData toLowerCase net2 (checkAndLoadData toLowerCase net w)
  = emit LogUpToDate
      (emit (LogVersions (Num v) v2)
         (emit (Fetch VersionFile) (checkAndLoadData toLowerCase net w))).
Proof.
  intros Hv Hs Hg Hd Hu Hv2 Hle.
  pose proof (run_refreshed toLowerCase net w) as R.
  unfold refreshed in R. rewrite Hv, Hd, Hg, Hu in R.
  inversion R as [[Rd Rl]].
  assert (C : currentVersion
                (localStorage (checkAndLoadData toLowerCase net w)) = Num v)
    by (rewrite Rl; apply currentVersion_toString; exact Hs).
  rewrite (run_up_to_date toLowerCase net2 _ v2 Hv2).
  - rewrite C. reflexivity.
  - rewrite C. destruct (js_gt (Num v2) (Num v)) eqn:G; [|reflexivity].
    apply js_gt_Num in G. lia.
Qed.

Lemma applied_version_is_not_reapplied_witness :
  versionFile sample_remote = Body 3
  /\ plain 3
  /\ js_gt (Num 3) (currentVersion (localStorage sample_world)) = true
  /\ dataFile sample_remote = Body (ItemArray sample_batch)
  /\ updateSeedData (database sample_world) (ItemArray sample_batch)
     = (Ok tt,
        snd (updateSeedData (database sample_world) (ItemArray sample_batch)))
  /\ versionFile sample_remote = Body 3
  /\ 3 <= 3
  /\ checkAndLoadData asciiToLowerCase sample_remote
       (checkAndLoadData asciiToLowerCase sample_remote sample_world)
     = emit LogUpToDate
         (emit (LogVersions (Num 3) 3)
            (emit (Fetch VersionFile)
               (checkAndLoadData asciiToLowerCase sample_remote
                  sample_world))).
Proof.
  assert (H1 : versionFile sample_remote = Body 3) by reflexivity.
  assert (H2 : js_gt (Num 3) (currentVersion (localStorage sample_world)) = true)
    by reflexivity.
  assert (H3 : dataFile sample_remote = Body (ItemArray sample_batch))
    by reflexivity.
  assert (H4 : updateSeedData (database sample_world) (ItemArray sample_batch)
               = (Ok tt,
                  snd (updateSeedData (database sample_world)
                         (ItemArray sample_batch))))
    by (vm_compute; reflexivity).
  assert (H5 : 3 <= 3) by lia.
  assert (H6 : plain 3) by (apply safe_plain; vm_compute; discriminate).
  split; [exact H1|]. split; [exact H6|]. split; [exact H2|].
  split; [exact H3|].
  split; [exact H4|]. split; [exact H1|]. split; [exact H5|].
  exact (applied_version_is_not_reapplied asciiToLowerCase sample_remote
           sample_world 3 (ItemArray sample_batch) _ sample_remote 3
           H1 H6 H2 H3 H4 H1 H5).
Defined.

(** What the flow of [src/app.ts] leaves in the database and the slot. *)
Lemma run_ts_refreshed v data w :
  (database (checkAndLoadData_ts (with_version v data) w),
   localStorage (checkAndLoadData_ts (with_version v data) w))
  = refreshed (mkRemote (Body v) data) (database w) (localStorage w).
Proof.
  unfold refreshed, checkAndLoadData_ts. cbn [versionFile dataFile].
  destruct data as [| | |newItems]; cbn [with_version]; try reflexivity.
  cbn [emit localStorage database].
  destruct (js_gt (Num v) (currentVersion (localStorage w))); [|reflexivity].
  destruct (updateSeedData (database w) newItems) as [[u|e|] d'];
    reflexivity.
Qed.

(** X12. The two flows end in the same store.  When the version file
    announces the version that the data file carries, the flow of
    [src/app.js], which reads the version file first, and the flow of
    [src/app.ts], which reads the data file on every run, leave the same
    database and the same slot, whatever fetching the data file gives. *)
Theorem flows_agree toLowerCase net v w :
  versionFile net = Body v ->
  database (checkAndLoadData toLowerCase net w)
  = database (checkAndLoadData_ts (with_version v (dataFile net)) w)
  /\ localStorage (checkAndLoadData toLowerCase net w)
     = localStorage (checkAndLoadData_ts (with_version v (dataFile net)) w).
Proof.
  intros Hv.
  pose proof (run_refreshed toLowerCase net w) as R1.
  pose proof (run_ts_refreshed v (dataFile net) w) as R2.
  assert (E : refreshed (mkRemote (Body v) (dataFile net)) (database w)
                (localStorage w)
              = refreshed net (database w) (localStorage w))
    by (unfold refreshed; cbn [versionFile dataFile]; rewrite Hv; reflexivity).
  rewrite E, <- R1 in R2. inversion R2. split; reflexivity.
Qed.

Lemma flows_agree_witness :
  versionFile sample_remote = Body 3
  /\ database (checkAndLoadData asciiToLowerCase sample_remote sample_world)
     = database (checkAndLoadData_ts
                   (with_version 3 (dataFile sample_remote)) sample_world)
  /\ localStorage (checkAndLoadData asciiToLowerCase sample_remote sample_world)
     = localStorage (checkAndLoadData_ts
                       (with_version 3 (dataFile sample_remote)) sample_world).
Proof.
  split; [reflexivity|].
  apply (flows_agree asciiToLowerCase sample_remote 3 sample_world).
  reflexivity.
Defined.

(** X13. The flow of [src/app.ts] fails without a word to the user.  When
    its data file cannot be had, or is newer and [updateSeedData] is
    rejected, the run ends with the console error, shows no alert, and
    leaves the database, the slot and the page as they were. *)
Theorem ts_load_fails_silently data w :
  load_fails data w ->
  exists evs,
    trace (checkAndLoadData_ts data w) = ErrorLoadFailed :: evs ++ trace w
    /\ Forall no_alert evs
    /\ database (checkAndLoadData_ts data w) = database w
    /\ localStorage (checkAndLoadData_ts data w) = localStorage w
    /\ dom (checkAndLoadData_ts data w) = dom w.
Proof.
  unfold load_fails, checkAndLoadData_ts. intros Hf.
  destruct data as [| | |[v newItems]];
    try solve [exists [Fetch DataFile]; repeat split; repeat constructor].
  destruct Hf as [Hg [e He]].
  cbn [emit localStorage database]. rewrite Hg.
  destruct (updateSeedData (database w) newItems) as [[u|e'|] d'] eqn:Hu;
    [discriminate| |discriminate].
  apply updateSeedData_rejected in Hu. subst d'.
  exists [LogUpdateStart; LogVersions (currentVersion (localStorage w)) v;
          Fetch DataFile].
  destruct w as [d c s p t]. repeat split; repeat constructor.
Qed.

Lemma ts_load_fails_silently_witness :
  load_fails (Body (3, ItemArray clashing_batch)) sample_world
  /\ exists evs,
       trace (checkAndLoadData_ts (Body (3, ItemArray clashing_batch)) sample_world)
       = ErrorLoadFailed :: evs ++ trace sample_world
       /\ Forall no_alert evs
       /\ database (checkAndLoadData_ts (Body (3, ItemArray clashing_batch)) sample_world)
          = database sample_world
       /\ localStorage
            (checkAndLoadData_ts (Body (3, ItemArray clashing_batch)) sample_world)
          = localStorage sample_world
       /\ dom (checkAndLoadData_ts (Body (3, ItemArray clashing_batch)) sample_world)
          = dom sample_world.
Proof.
  assert (H : load_fails (Body (3, ItemArray clashing_batch)) sample_world)
    by (split; [reflexivity | exists NullError; reflexivity]).
  split; [exact H|].
  exact (ts_load_fails_silently (Body (3, ItemArray clashing_batch)) sample_world H).
Defined.

(** X14. A newer version with an empty data file empties the seed set.  On
    a connected database, when the gate opens and the data file holds no
    item, the run leaves exactly the custom records, keeps the key
    generator, and writes the new version into the slot. *)
Theorem empty_data_file_clears_seed toLowerCase net w v :
  db (database w) = true ->
  versionFile net = Body v ->
  js_gt (Num v) (currentVersion (localStorage w)) = true ->
  dataFile net = Body (ItemArray []) ->
  records (idb (database (checkAndLoadData toLowerCase net w)))
  = filter is_custom (records (idb (database w)))
  /\ keyGenerator (idb (database (checkAndLoadData toLowerCase net w)))
     = keyGenerator (idb (database w))
  /\ localStorage (checkAndLoadData toLowerCase net w) = Some (toString v).
Proof.
  intros Hc Hv Hg Hd.
  pose proof (run_refreshed toLowerCase net w) as R.
  unfold refreshed in R. rewrite Hv, Hd, Hg in R.
  unfold updateSeedData in R. rewrite Hc in R. cbn [negb addSeeds] in R.
  inversion R as [[Rd Rl]]. rewrite Rd. cbn [idb records keyGenerator].
  rewrite sweep_filter. repeat split.
Qed.

Lemma empty_data_file_clears_seed_witness :
  db (database sample_world) = true
  /\ versionFile (mkRemote (Body 3) (Body (ItemArray []))) = Body 3
  /\ js_gt (Num 3) (currentVersion (localStorage sample_world)) = true
  /\ dataFile (mkRemote (Body 3) (Body (ItemArray []))) = Body (ItemArray [])
  /\ records (idb (database (checkAndLoadData asciiToLowerCase
                               (mkRemote (Body 3) (Body (ItemArray []))) sample_world)))
     = filter is_custom (records (idb (database sample_world)))
  /\ keyGenerator (idb (database (checkAndLoadData asciiToLowerCase
                                    (mkRemote (Body 3) (Body (ItemArray [])))
                                    sample_world)))
     = keyGenerator (idb (database sample_world))
  /\ localStorage (checkAndLoadData asciiToLowerCase
                     (mkRemote (Body 3) (Body (ItemArray []))) sample_world)
     = Some (toString 3).
Proof.
  split; [reflexivity|]. split; [reflexivity|]. split; [reflexivity|].
  split; [reflexivity|].
  apply (empty_data_file_clears_seed asciiToLowerCase
           (mkRemote (Body 3) (Body (ItemArray []))) sample_world 3);
    reflexivity.
Defined.

(* ================================================================= *)
(** * Properties of the page: the form, the tabs and the start-up *)

Lemma handleSearch_idem toLowerCase w :
  handleSearch toLowerCase (handleSearch toLowerCase w)
  = handleSearch toLowerCase w.
Proof.
  unfold handleSearch.
  pose proof (searchItems_state toLowerCase (database w)
                (trim (searchInput (dom w))) (currentCategory w)) as E.
  destruct (searchItems toLowerCase (database w) (trim (searchInput (dom w)))
              (currentCategory w)) as [[items|e|] d] eqn:S;
    cbn [snd] in E; subst d;
    cbn [with_dom with_database dom database currentCategory searchInput
         loadingOverlay loadingText];
    rewrite S; reflexivity.
Qed.

Lemma iter_handleSearch toLowerCase n p :
  world (Nat.iter (S n) (onWorld (handleSearch toLowerCase)) p)
  = handleSearch toLowerCase (world p).
Proof.
  induction n as [|n IH].
  - reflexivity.
  - change (Nat.iter (S (S n)) (onWorld (handleSearch toLowerCase)) p)
      with (onWorld (handleSearch toLowerCase)
              (Nat.iter (S n) (onWorld (handleSearch toLowerCase)) p)).
    cbn [onWorld world]. rewrite IH. apply handleSearch_idem.
Qed.

(** What a run leaves alone on every path: the category, the search box and
    the connection. *)
Lemma run_frame toLowerCase net w :
  currentCategory (checkAndLoadData toLowerCase net w) = currentCategory w
  /\ searchInput (dom (checkAndLoadData toLowerCase net w))
     = searchInput (dom w)
  /\ db (database (checkAndLoadData toLowerCase net w)) = db (database w).
Proof.
  assert (S : forall m x, searchInput (dom (showLoading m x))
                          = searchInput (dom x)).
  { intros m x. unfold showLoading. cbn [emit with_dom dom].
    destruct (loadingOverlay (dom x)), (loadingText (dom x)); reflexivity. }
  assert (H : forall x, searchInput (dom (hideLoading x))
                        = searchInput (dom x)).
  { intros x. unfold hideLoading. cbn [emit with_dom dom].
    destruct (loadingOverlay (dom x)); reflexivity. }
  destruct (versionFile net) as [| | |v] eqn:Hv;
    try (rewrite run_check_failed by (rewrite Hv; discriminate);
         repeat split).
  destruct (js_gt (Num v) (currentVersion (localStorage w))) eqn:Hg.
  - assert (D : searchInput (dom (downloading v w)) = searchInput (dom w))
      by (unfold downloading; cbn [emit dom]; rewrite S; reflexivity).
    destruct (refresh_outcome net w)
      as [Hf | [[newItems [u [d' [Hd Hu]]]] | [Hd Hc]]].
    + destruct (run_failed toLowerCase net w v Hv Hg Hf) as [w1 [-> Hw1]].
      split; [destruct Hw1 as [-> | ->]; reflexivity|].
      split; [|destruct Hw1 as [-> | ->]; reflexivity].
      rewrite H. cbn [updateFailed emit dom].
      destruct Hw1 as [-> | ->]; [exact D | rewrite S; exact D].
    + rewrite (run_committed toLowerCase net w v newItems u d' Hv Hg Hd Hu).
      destruct (handleSearch_frame toLowerCase
                  (setItem (toString v)
                     (with_database d'
                        (showLoading Optimizing (downloading v w)))))
        as [Fd [Fc [_ [_ [_ [_ Fs]]]]]].
      split; [cbn [hideLoading emit with_dom currentCategory]; rewrite Fc;
              reflexivity|].
      split.
      * rewrite H, Fs. cbn [setItem with_database dom]. rewrite S. exact D.
      * cbn [hideLoading emit with_dom database]. rewrite Fd.
        cbn [setItem with_database database].
        pose proof (updateSeedData_db (database w) newItems) as Hdb.
        rewrite Hu in Hdb. exact Hdb.
    + unfold checkAndLoadData.
      rewrite (run_stuck toLowerCase net w v Hv Hg Hd Hc). cbn [fst].
      split; [reflexivity|]. split; [|reflexivity].
      rewrite S. exact D.
  - rewrite (run_up_to_date toLowerCase net w v Hv Hg). repeat split.
Qed.

(** A run comes to an end when the data file is anything but a document
    without an array of items. *)
Lemma settles_array toLowerCase net w :
  dataFile net <> Body NotAnArray -> settles toLowerCase net w = true.
Proof.
  intros H. destruct (settles toLowerCase net w) eqn:E; [reflexivity|].
  apply settles_iff in E. destruct E as [_ [E _]]. congruence.
Qed.

Lemma handleSearch_results toLowerCase w :
  db (database w) = true ->
  results (dom (handleSearch toLowerCase w))
  = Some (filter (keeps toLowerCase (trim (searchInput (dom w)))
                    (currentCategory w))
                 (getAll (idb (database w)))).
Proof.
  intros Hc. unfold handleSearch.
  rewrite (searchItems_filter toLowerCase _ _ _ Hc). reflexivity.
Qed.

(** X15. The form is refused exactly when the name or the description is
    the empty string: then the only effect is the alert.  Nothing is
    trimmed, so a name made of blanks is accepted. *)
Theorem form_refused_iff_empty toLowerCase p :
  App.addItem toLowerCase p = notify AlertMissingFields p
  <-> newName (modal p) = [] \/ newDesc (modal p) = [].
Proof.
  unfold App.addItem.
  destruct (newName (modal p)) as [|c r] eqn:En;
    [split; [left; reflexivity | reflexivity]|].
  destruct (newDesc (modal p)) as [|c' r'] eqn:Ed;
    [split; [right; reflexivity | reflexivity]|].
  cbn [truthy_string negb orb]. split.
  - intros E. exfalso.
    destruct (addItem (database (world p)) _) as [[k|e|] d];
      apply (f_equal notices) in E; cbn in E;
      try discriminate.
    apply (f_equal (@length Notice)) in E. cbn in E. lia.
  - intros [H | H]; discriminate.
Qed.

(** X16. Saving the form.  On a connected database whose key generator is
    ahead of its keys and has a number to give, which it has up to 2^53, a
    form with a name and a description is stored as one more record, after
    the others, under the generator's key: custom, with the name and the type
    as its tags.  The user is told, the form is closed with its two text
    fields emptied, and the result list is computed anew from the store that
    holds the record. *)
Theorem form_saves toLowerCase p :
  db (database (world p)) = true ->
  generator_ahead (idb (database (world p))) ->
  keyGenerator (idb (database (world p))) <= maxKey ->
  newName (modal p) <> [] ->
  newDesc (modal p) <> [] ->
  let kg := keyGenerator (idb (database (world p))) in
  let stored :=
    mkItem (Some kg) (newType (modal p)) (newName (modal p))
           (newDesc (modal p))
           (Some [newName (modal p); newType (modal p)]) None (Some true) in
  let p' := App.addItem toLowerCase p in
  records (idb (database (world p')))
  = records (idb (database (world p))) ++ [(kg, stored)]
  /\ notices p' = AlertSaved :: notices p
  /\ modal p' = mkModal false (newType (modal p)) [] []
  /\ results (dom (world p'))
     = Some (filter (keeps toLowerCase (trim (searchInput (dom (world p))))
                       (currentCategory (world p)))
                    (getAll (idb (database (world p))) ++ [stored]))
  /\ localStorage (world p') = localStorage (world p).
Proof.
  intros Hc Ha Hm Hn Hd kg stored p'. subst p'. unfold App.addItem.
  destruct (newName (modal p)) as [|c r] eqn:En; [congruence|].
  destruct (newDesc (modal p)) as [|c' r'] eqn:Ed; [congruence|].
  cbn [truthy_string negb orb].
  unfold addItem. rewrite Hc. cbn [negb].
  rewrite store_add_fresh by (cbn [id set_isCustom]; auto).
  cbn [onWorld notify App.closeAddModal with_modal world modal notices
       with_database].
  match goal with
  | |- context [handleSearch toLowerCase ?x] => set (w1 := x)
  end.
  destruct (handleSearch_frame toLowerCase w1) as [Fd [_ [Fl _]]].
  pose proof (handleSearch_results toLowerCase w1 eq_refl) as Fr.
  rewrite Fd, Fl, Fr. subst w1.
  cbn [with_database dom database currentCategory idb records localStorage].
  repeat split.
  unfold getAll. cbn [records]. rewrite map_app. reflexivity.
Qed.

Lemma form_saves_witness :
  db (database (world sample_page)) = true
  /\ generator_ahead (idb (database (world sample_page)))
  /\ keyGenerator (idb (database (world sample_page))) <= maxKey
  /\ newName (modal sample_page) <> []
  /\ newDesc (modal sample_page) <> []
  /\ records (idb (database (world (App.addItem asciiToLowerCase sample_page))))
     = records (idb (database (world sample_page)))
       ++ [(4, mkItem (Some 4) (lit "quest") (lit "Sisters' Burial Grounds")
                      (lit "Kill Blood Raven")
                      (Some [lit "Sisters' Burial Grounds"; lit "quest"])
                      None (Some true))]
  /\ notices (App.addItem asciiToLowerCase sample_page) = [AlertSaved]
  /\ modal (App.addItem asciiToLowerCase sample_page)
     = mkModal false (lit "quest") [] [].
Proof.
  assert (H1 : db (database (world sample_page)) = true) by reflexivity.
  assert (H2 : generator_ahead (idb (database (world sample_page))))
    by (apply ahead_true; vm_compute; reflexivity).
  assert (H3 : newName (modal sample_page) <> []) by discriminate.
  assert (H4 : newDesc (modal sample_page) <> []) by discriminate.
  assert (H5 : keyGenerator (idb (database (world sample_page))) <= maxKey)
    by (vm_compute; discriminate).
  split; [exact H1|]. split; [exact H2|]. split; [exact H5|].
  split; [exact H3|]. split; [exact H4|].
  destruct (form_saves asciiToLowerCase sample_page H1 H2 H5 H3 H4)
    as [R [N [M _]]].
  split; [exact R|]. split; [exact N | exact M].
Defined.

Lemma with_database_same w : with_database (database w) w = w.
Proof. destruct w; reflexivity. Qed.

Lemma onWorld_same p : onWorld (with_database (database (world p))) p = p.
Proof. destruct p as [w m t l n]. unfold onWorld. cbn.
       rewrite with_database_same. reflexivity. Qed.

(** X17. Without a connection the form cannot be saved, and nothing is
    lost: the user is told that saving failed, the form stays as it is, with
    what was typed, and the rest of the page is untouched. *)
Theorem form_save_fails_unconnected toLowerCase p :
  db (database (world p)) = false ->
  newName (modal p) <> [] ->
  newDesc (modal p) <> [] ->
  App.addItem toLowerCase p
  = notify AlertSaveFailed (notify (ErrorSaveFailed NotInitialized) p).
Proof.
  intros Hc Hn Hd. unfold App.addItem.
  destruct (newName (modal p)) as [|c r] eqn:En; [congruence|].
  destruct (newDesc (modal p)) as [|c' r'] eqn:Ed; [congruence|].
  cbn [truthy_string negb orb]. unfold addItem. rewrite Hc. cbn [negb].
  rewrite onWorld_same. reflexivity.
Qed.

Lemma form_save_fails_unconnected_witness :
  db (database (world (App.init asciiToLowerCase false sample_remote
                         (initial emptyStore None sample_dom sample_modal []))))
  = false
  /\ newName sample_modal <> []
  /\ newDesc sample_modal <> []
  /\ notices (App.addItem asciiToLowerCase
                (App.init asciiToLowerCase false sample_remote
                   (initial emptyStore None sample_dom sample_modal [])))
     = [AlertSaveFailed; ErrorSaveFailed NotInitialized;
        ErrorInitFailed OpenError].
Proof.
  assert (H1 : db (database (world (App.init asciiToLowerCase false
                                      sample_remote
                                      (initial emptyStore None sample_dom
                                         sample_modal []))))
               = false) by reflexivity.
  assert (H2 : newName sample_modal <> []) by discriminate.
  assert (H3 : newDesc sample_modal <> []) by discriminate.
  split; [exact H1|]. split; [exact H2|]. split; [exact H3|].
  rewrite (form_save_fails_unconnected asciiToLowerCase _ H1 H2 H3).
  reflexivity.
Defined.

(** X18. An input event runs one search, however many listeners there are.
    With the listeners that [bindEvents] has registered, one or many, an
    input event shows what a single [handleSearch] shows for the new
    value; with none registered, which is the case until [init] has got
    through, only the value of the box changes. *)
Theorem inputEvent_runs_one_search toLowerCase value p :
  world (App.inputEvent toLowerCase value p)
  = match listeners p with
    | O => typed value (world p)
    | S _ => handleSearch toLowerCase (typed value (world p))
    end.
Proof.
  unfold App.inputEvent.
  replace (listeners p) with (listeners (onWorld (typed value) p))
    by reflexivity.
  destruct (listeners (onWorld (typed value) p)) as [|n] eqn:E.
  - reflexivity.
  - rewrite iter_handleSearch. reflexivity.
Qed.

(** X19. When the database does not open, [init] stops there: the error is
    logged, nothing is fetched, the slot and the stored records are not
    touched, no listener is registered, and whatever is typed afterwards the
    result list stays as the page had it. *)
Theorem init_without_database toLowerCase net stored slot p m buttons value :
  let p1 := App.init toLowerCase false net (initial stored slot p m buttons) in
  p1 = notify (ErrorInitFailed OpenError) (initial stored slot p m buttons)
  /\ trace (world p1) = []
  /\ listeners p1 = O
  /\ results (dom (world (App.inputEvent toLowerCase value p1))) = results p.
Proof.
  cbn. repeat split.
Qed.

(** [init] once the database has opened: the run, then, when the run has
    come to an end, the search. *)
Lemma init_opened_world toLowerCase net p :
  world (App.init toLowerCase true net p)
  = if settles toLowerCase net
         (with_database (mkDb true (idb (database (world p)))) (world p))
    then handleSearch toLowerCase
           (checkAndLoadData toLowerCase net
              (with_database (mkDb true (idb (database (world p)))) (world p)))
    else checkAndLoadData toLowerCase net
           (with_database (mkDb true (idb (database (world p)))) (world p)).
Proof.
  unfold App.init. cbn [connect onWorld notify world].
  destruct (settles toLowerCase net _); reflexivity.
Qed.





Lemma numbered_cards items : forall k,
  map card (map snd (numbered false k items))
  = map (fun item => mkCard (translateType (type item)) (name item) false
                            (description item)) items.
Proof.
  induction items as [|item rest IH]; intros k; cbn [numbered map snd];
    [reflexivity|].
  rewrite IH. reflexivity.
Qed.

(** X21. The first start.  With an empty store, no version in the slot, an
    empty search box and a server that offers a version above 0 with a data
    file whose items, an array, carry no [id], [init] fills the store with
    the items under the keys 1, 2, ..., writes the version into the slot, and
    the page shows one card per item, in the order of the file, none with the
    USER badge, or the no-result paragraph when the file has no item. *)
Theorem first_start toLowerCase net v newItems p m buttons :
  versionFile net = Body v ->
  0 < v ->
  dataFile net = Body (ItemArray newItems) ->
  js_array newItems ->
  Forall (fun item => id item = None) newItems ->
  trim (searchInput p) = [] ->
  let p' := App.init toLowerCase true net
              (initial emptyStore None p m buttons) in
  records (idb (database (world p'))) = numbered false 1 newItems
  /\ localStorage (world p') = Some (toString v)
  /\ renderResults (results (dom (world p')))
     = match newItems with
       | [] => NoResults
       | _ :: _ =>
           Cards (map (fun item => mkCard (translateType (type item))
                                          (name item) false (description item))
                      newItems)
       end.
Proof.
  intros Hv Hpos Hd Hlen Hid Ht p'.
  assert (W : world p'
              = handleSearch toLowerCase
                  (checkAndLoadData toLowerCase net
                     (mkWorld (mkDb true emptyStore) (lit "all") None p []))).
  { subst p'. rewrite init_opened_world.
    rewrite settles_array by (rewrite Hd; discriminate). reflexivity. }
  set (w0 := mkWorld (mkDb true emptyStore) (lit "all") None p []) in W.
  destruct (run_frame toLowerCase net w0) as [Rc [Rf Rb]].
  pose proof (run_refreshed toLowerCase net w0) as Rr.
  destruct (handleSearch_frame toLowerCase
              (checkAndLoadData toLowerCase net w0)) as [Fd [_ [Fl _]]].
  assert (Rs : results (dom (world p'))
               = Some (filter (keeps toLowerCase (trim (searchInput p))
                                 (lit "all"))
                         (getAll (idb (database (world p'))))))
    by (rewrite W, handleSearch_results, Fd, Rc, Rf by (rewrite Rb; reflexivity);
        reflexivity).
  rewrite <- Fd, <- Fl, <- W in Rr.
  cbn [w0 database localStorage] in Rr.
  unfold refreshed in Rr. rewrite Hv, Hd in Rr.
  rewrite currentVersion_unset in Rr.
  replace (js_gt (Num v) (Num 0)) with true in Rr
    by (symmetry; apply js_gt_Num; lia).
  unfold updateSeedData in Rr. cbn [db negb idb records keyGenerator sweep
                                   emptyStore] in Rr.
  rewrite addSeeds_numbered in Rr
    by (try constructor; try exact Hid;
        unfold js_array in Hlen; cbn [keyGenerator]; unfold maxKey; lia).
  cbn [records keyGenerator app] in Rr.
  pose proof (f_equal fst Rr) as Rd. pose proof (f_equal snd Rr) as Rl.
  cbn [fst snd] in Rd, Rl.
  split; [rewrite Rd; reflexivity|]. split; [exact Rl|].
  rewrite Rs, Rd. cbn [idb]. rewrite Ht.
  rewrite filter_all by reflexivity.
  unfold getAll. cbn [records].
  destruct newItems as [|item rest]; [reflexivity|].
  unfold renderResults.
  change (map snd (numbered false 1 (item :: rest)))
    with (set_id 1 (set_isCustom false item)
          :: map snd (numbered false (1 + 1) rest)).
  cbv iota. f_equal.
  exact (numbered_cards (item :: rest) 1).
Qed.

Lemma first_start_witness :
  versionFile sample_remote = Body 3
  /\ 0 < 3
  /\ dataFile sample_remote = Body (ItemArray sample_batch)
  /\ js_array sample_batch
  /\ Forall (fun item => id item = None) sample_batch
  /\ trim (searchInput sample_dom) = []
  /\ records (idb (database (world
       (App.init asciiToLowerCase true sample_remote
          (initial emptyStore None sample_dom sample_modal [true])))))
     = numbered false 1 sample_batch
  /\ localStorage (world
       (App.init asciiToLowerCase true sample_remote
          (initial emptyStore None sample_dom sample_modal [true])))
     = Some (toString 3)
  /\ renderResults (results (dom (world
       (App.init asciiToLowerCase true sample_remote
          (initial emptyStore None sample_dom sample_modal [true])))))
     = Cards [mkCard (47340%N :: lit " (Rune)") (lit "Tir Rune") false
                     (lit "a sample record")].
Proof.
  assert (H1 : versionFile sample_remote = Body 3) by reflexivity.
  assert (H2 : 0 < 3) by lia.
  assert (H3 : dataFile sample_remote = Body (ItemArray sample_batch))
    by reflexivity.
  assert (H4 : Forall (fun item => id item = None) sample_batch)
    by (repeat constructor).
  assert (H5 : trim (searchInput sample_dom) = []) by reflexivity.
  assert (H6 : js_array sample_batch) by (vm_compute; reflexivity).
  split; [exact H1|]. split; [exact H2|]. split; [exact H3|].
  split; [exact H6|]. split; [exact H4|]. split; [exact H5|].
  exact (first_start asciiToLowerCase sample_remote 3 sample_batch sample_dom
           sample_modal [true] H1 H2 H3 H6 H4 H5).
Defined.

(** X22. Choosing a category.  On a connected database, [setCategory] makes
    the category current, leaves no tab button active, and fills the result
    list with exactly the stored records that the search selects for the
    trimmed text of the search box in that category, in the order of the
    store: a stored record is listed if and only if it is of the category,
    unless the category is ["all"], and matches the text, when there is one.
    The database and the slot are not touched. *)
Theorem setCategory_shows_category toLowerCase category p :
  db (database (world p)) = true ->
  let p' := App.setCategory toLowerCase category p in
  let keyword := trim (searchInput (dom (world p))) in
  currentCategory (world p') = category
  /\ tabs p' = map (fun _ => false) (tabs p)
  /\ (exists found,
        results (dom (world p')) = Some found
        /\ found = filter (keeps toLowerCase keyword category)
                          (getAll (idb (database (world p))))
        /\ (forall item,
              In item found
              <-> In item (getAll (idb (database (world p))))
                  /\ search_selects toLowerCase keyword category item)
        /\ (category <> lit "all" ->
            Forall (fun item => type item = category) found))
  /\ database (world p') = database (world p)
  /\ localStorage (world p') = localStorage (world p).
Proof.
  intros Hc p' keyword. subst p' keyword. unfold App.setCategory.
  cbn [onWorld world tabs].
  set (w1 := with_category category (world p)).
  destruct (handleSearch_frame toLowerCase w1) as [Fd [Fc [Fl _]]].
  rewrite Fd, Fc, Fl, (handleSearch_results toLowerCase w1 Hc).
  subst w1. cbn [with_category currentCategory database localStorage dom].
  split; [reflexivity|]. split; [reflexivity|].
  split; [|split; reflexivity].
  eexists. split; [reflexivity|]. split; [reflexivity|]. split.
  - intros item. rewrite filter_In, keeps_spec. tauto.
  - intros Hn. apply Forall_forall. intros item Hin.
    apply filter_In in Hin as [_ Hk]. apply keeps_spec in Hk.
    destruct Hk as [Hk _]. exact (Hk Hn).
Qed.

Lemma setCategory_shows_category_witness :
  db (database (world sample_page)) = true
  /\ currentCategory (world (App.setCategory asciiToLowerCase (lit "quest")
                               sample_page)) = lit "quest"
  /\ tabs (App.setCategory asciiToLowerCase (lit "quest") sample_page)
     = [false; false; false]
  /\ option_map (map name)
       (results (dom (world (App.setCategory asciiToLowerCase (lit "quest")
                               sample_page))))
     = Some [lit "Den of Evil"].
Proof.
  assert (H : db (database (world sample_page)) = true) by reflexivity.
  split; [exact H|].
  destruct (setCategory_shows_category asciiToLowerCase (lit "quest")
              sample_page H) as [C [T _]].
  split; [exact C|]. split; [exact T|]. reflexivity.
Defined.



(** X24. [translateType] leaves alone exactly the strings that are none of
    the four categories, and its labels are among them: translating a label
    again gives the label. *)
Theorem translateType_fixed_points type :
  (translateType type = type
   <-> type <> lit "rune" /\ type <> lit "runeword"
       /\ type <> lit "quest" /\ type <> lit "merc")
  /\ translateType (translateType type) = translateType type.
Proof.
  unfold translateType at 1 3 4.
  destruct (str_eqb type (lit "rune")) eqn:E1.
  { apply str_eqb_eq in E1. subst type.
    split; [split; [discriminate | intros [H _]; congruence] | reflexivity]. }
  destruct (str_eqb type (lit "runeword")) eqn:E2.
  { apply str_eqb_eq in E2. subst type.
    split; [split; [discriminate | intros [_ [H _]]; congruence]
           | reflexivity]. }
  destruct (str_eqb type (lit "quest")) eqn:E3.
  { apply str_eqb_eq in E3. subst type.
    split; [split; [discriminate | intros [_ [_ [H _]]]; congruence]
           | reflexivity]. }
  destruct (str_eqb type (lit "merc")) eqn:E4.
  { apply str_eqb_eq in E4. subst type.
    split; [split; [discriminate | intros [_ [_ [_ H]]]; congruence]
           | reflexivity]. }
  split.
  - split; [intros _ | reflexivity].
    repeat split; intros ->; cbn in *; discriminate.
  - unfold translateType. rewrite E1, E2, E3, E4. reflexivity.
Qed.

(* ================================================================= *)
(** * The store over time *)

Lemma store_add_generator_bound st item k st' :
  store_add st item = Success (k, st') ->
  1 <= keyGenerator st <= maxKey + 1 ->
  1 <= keyGenerator st' <= maxKey + 1.
Proof.
  unfold store_add. intros E H. destruct (id item) as [i|].
  - destruct (has_key i (records st)); [discriminate|].
    inversion E; subst; clear E. cbn [keyGenerator].
    destruct (Z.leb_spec (keyGenerator st) (Z.min k maxKey)); lia.
  - destruct (Z.ltb_spec maxKey (keyGenerator st)); [discriminate|].
    destruct (has_key _ (records st)); [discriminate|].
    inversion E; subst; clear E. cbn [keyGenerator]. lia.
Qed.

Lemma addSeeds_generator_bound newItems : forall st st',
  addSeeds st newItems = Success st' ->
  1 <= keyGenerator st <= maxKey + 1 ->
  1 <= keyGenerator st' <= maxKey + 1.
Proof.
  induction newItems as [|item rest IH]; simpl; intros st st' E H.
  - inversion E; subst; exact H.
  - destruct (store_add st (set_isCustom false item)) as [[k st1]|e] eqn:Ea;
      [|discriminate].
    exact (IH st1 st' E (store_add_generator_bound _ _ _ _ Ea H)).
Qed.

Lemma call_generator_bound c d :
  1 <= keyGenerator (idb d) <= maxKey + 1 ->
  1 <= keyGenerator (idb (call c d)) <= maxKey + 1.
Proof.
  intros H. destruct c as [item|newItems]; cbn [call].
  - unfold addItem. destruct (negb (db d)); [exact H|].
    destruct (store_add (idb d) (set_isCustom true item)) as [[k st]|e] eqn:E;
      cbn [snd idb]; [|exact H].
    exact (store_add_generator_bound _ _ _ _ E H).
  - unfold updateSeedData. destruct (negb (db d)); [exact H|].
    destruct newItems as [items|]; [|exact H].
    destruct (addSeeds _ items) as [st|e] eqn:E; cbn [snd idb]; [|exact H].
    exact (addSeeds_generator_bound items _ st E H).
Qed.

Lemma reachable_generator_bound d :
  reachable d -> 1 <= keyGenerator (idb d) <= maxKey + 1.
Proof.
  induction 1 as [|d item _ IH|d newItems _ IH].
  - cbn. unfold maxKey. lia.
  - exact (call_generator_bound (CallAddItem item) d IH).
  - exact (call_generator_bound (CallUpdateSeedData newItems) d IH).
Qed.

(** X25. What every state of the store satisfies.  In every state the
    database goes through after its first [connect], whatever has been
    added and whatever batches have been applied, rejected or left
    unsettled: the keys are in ascending order and none occurs twice, every
    record carries its key in [id], every record says whether it is custom,
    and the key generator stands between 1 and 2^53 + 1, above every key
    below 2^53, and at 2^53 + 1 when the store has a key from 2^53 on, so
    that the number it gives, if it gives one, is not a key of the store. *)
Theorem store_invariants d :
  reachable d ->
  db d = true
  /\ keys_in_order (idb d)
  /\ NoDup (keys (idb d))
  /\ keyed (idb d)
  /\ flagged (idb d)
  /\ generator_ahead (idb d)
  /\ 1 <= keyGenerator (idb d) <= maxKey + 1
  /\ (forall k, In k (keys (idb d)) ->
        (k < maxKey -> k < keyGenerator (idb d))
        /\ (maxKey <= k -> keyGenerator (idb d) = maxKey + 1))
  /\ (keyGenerator (idb d) <= maxKey ->
      ~ In (keyGenerator (idb d)) (keys (idb d))).
Proof.
  intros H.
  destruct (reachable_invariant d H) as [Hc Ha].
  destruct (reachable_in_order d H) as [Ho [Hk Hn]].
  pose proof (reachable_flagged d H) as Hf.
  pose proof (reachable_generator_bound d H) as Hb.
  repeat (split; [assumption|]).
  split.
  - intros k Hin. unfold keys in Hin. apply in_map_iff in Hin as [r [<- Hr]].
    unfold generator_ahead in Ha. rewrite Forall_forall in Ha.
    specialize (Ha r Hr). split; lia.
  - intros Hm. apply ahead_no_key; assumption.
Qed.

Lemma store_invariants_witness :
  reachable (calls [CallUpdateSeedData (ItemArray clashing_batch);
                    CallAddItem (sample "merc" "Act 2" None)] sample_db)
  /\ db (calls [CallUpdateSeedData (ItemArray clashing_batch);
                CallAddItem (sample "merc" "Act 2" None)] sample_db) = true
  /\ keys (idb (calls [CallUpdateSeedData (ItemArray clashing_batch);
                       CallAddItem (sample "merc" "Act 2" None)] sample_db))
     = [1; 2; 3; 4]
  /\ NoDup (keys (idb (calls [CallUpdateSeedData (ItemArray clashing_batch);
                              CallAddItem (sample "merc" "Act 2" None)]
                         sample_db)))
  /\ reachable full_db
  /\ keys (idb full_db) = [maxKey]
  /\ keyGenerator (idb full_db) = maxKey + 1.
Proof.
  assert (H : reachable (calls [CallUpdateSeedData (ItemArray clashing_batch);
                                CallAddItem (sample "merc" "Act 2" None)]
                           sample_db))
    by (cbn [calls call]; unfold sample_db; repeat constructor).
  assert (F : reachable full_db) by (unfold full_db; repeat constructor).
  split; [exact H|].
  destruct (store_invariants _ H) as [Hc [_ [Hn _]]].
  split; [exact Hc|]. split; [reflexivity|]. split; [exact Hn|].
  split; [exact F|]. split; [reflexivity|].
  destruct (store_invariants _ F) as (_ & _ & _ & _ & _ & _ & _ & Hk & _).
  apply (Hk maxKey); [left; reflexivity | lia].
Defined.

Lemma calls_reachable cs : forall d, reachable d -> reachable (calls cs d).
Proof.
  induction cs as [|c rest IH]; intros d H; cbn [calls]; [exact H|].
  apply IH. destruct c; cbn [call]; constructor; exact H.
Qed.

(** X28. A key from 2^53 on exhausts the key generator for good.  Once the
    store holds a record under a key of 2^53 or more, which [store.add] takes
    from an item that carries it as [id], the generator stands at 2^53 + 1
    whatever calls follow: every [addItem] of an item without [id] is
    rejected with a constraint error, and every [updateSeedData] with a batch
    that begins with an item without [id] is rejected, each leaving the
    store as it was. *)
Theorem generator_exhausted d k cs :
  reachable d ->
  In k (keys (idb d)) ->
  maxKey <= k ->
  keyGenerator (idb (calls cs d)) = maxKey + 1
  /\ (forall item,
        id item = None ->
        addItem (calls cs d) item = (Err ConstraintError, calls cs d))
  /\ (forall item rest,
        id item = None ->
        updateSeedData (calls cs d) (ItemArray (item :: rest))
        = (Err NullError, calls cs d)).
Proof.
  intros Hr Hk Hm.
  assert (G : keyGenerator (idb (calls cs d)) = maxKey + 1).
  { destruct (reachable_invariant d Hr) as [_ Ha].
    unfold generator_ahead in Ha. rewrite Forall_forall in Ha.
    unfold keys in Hk. apply in_map_iff in Hk as [r [Er Hin]].
    specialize (Ha r Hin).
    pose proof (calls_generator cs d) as Hmono.
    pose proof (reachable_generator_bound _ (calls_reachable cs d Hr)) as Hb.
    lia. }
  destruct (reachable_invariant _ (calls_reachable cs d Hr)) as [Hc _].
  assert (L : (maxKey <? keyGenerator (idb (calls cs d))) = true)
    by (apply Z.ltb_lt; lia).
  split; [exact G|]. split.
  - intros item Hid. unfold addItem. rewrite Hc. cbn [negb].
    unfold store_add. cbn [id set_isCustom]. rewrite Hid, L. reflexivity.
  - intros item rest Hid. unfold updateSeedData. rewrite Hc. cbn [negb addSeeds].
    unfold store_add. cbn [id set_isCustom keyGenerator]. rewrite Hid, L.
    reflexivity.
Qed.

Lemma generator_exhausted_witness :
  reachable full_db
  /\ In maxKey (keys (idb full_db))
  /\ maxKey <= maxKey
  /\ keyGenerator
       (idb (calls [CallUpdateSeedData (ItemArray sample_batch)] full_db))
     = maxKey + 1
  /\ addItem (calls [CallUpdateSeedData (ItemArray sample_batch)] full_db)
       (sample "rune" "Ral Rune" None)
     = (Err ConstraintError,
        calls [CallUpdateSeedData (ItemArray sample_batch)] full_db)
  /\ updateSeedData
       (calls [CallUpdateSeedData (ItemArray sample_batch)] full_db)
       (ItemArray sample_batch)
     = (Err NullError,
        calls [CallUpdateSeedData (ItemArray sample_batch)] full_db).
Proof.
  assert (H1 : reachable full_db) by (unfold full_db; repeat constructor).
  assert (H2 : In maxKey (keys (idb full_db))) by (left; reflexivity).
  assert (H3 : maxKey <= maxKey) by lia.
  split; [exact H1|]. split; [exact H2|]. split; [exact H3|].
  destruct (generator_exhausted full_db maxKey
              [CallUpdateSeedData (ItemArray sample_batch)] H1 H2 H3)
    as [G [A U]].
  split; [exact G|]. split; [apply A; reflexivity | apply U; reflexivity].
Defined.

Lemma refreshed_custom net d slot :
  filter is_custom (records (idb (fst (refreshed net d slot))))
  = filter is_custom (records (idb d)).
Proof.
  unfold refreshed.
  destruct (versionFile net) as [| | |v]; try reflexivity.
  destruct (dataFile net) as [| | |newItems]; try reflexivity.
  destruct (js_gt (Num v) (currentVersion slot)); [|reflexivity].
  pose proof (updateSeedData_custom d newItems) as H.
  destruct (updateSeedData d newItems) as [[u|e|] d']; exact H.
Qed.

(** X26. No number of refresh cycles costs the user a record.  After any
    sequence of runs, whatever the server answered in each, the custom
    records of the store are the ones it held at the start, in the same
    order, under the same keys. *)
Theorem custom_survives_every_run toLowerCase nets w :
  filter is_custom (records (idb (database (reconcile toLowerCase nets w))))
  = filter is_custom (records (idb (database w))).
Proof.
  revert w. induction nets as [|net rest IH]; intros w; [reflexivity|].
  cbn [reconcile]. rewrite IH.
  pose proof (f_equal fst (run_refreshed toLowerCase net w)) as R.
  cbn [fst] in R. rewrite R. apply refreshed_custom.
Qed.
